(** * Incremental corpus ingestion (efi_corpus.builders.mediacloud)

    A shallow embedding of [MediaCloudCorpusBuilder]: the canonicalizer and
    stable id, the discovery adapter (query compilation, paginated retry
    loop, result ordering), the frontier differ, the fetch and quality-gate
    pipeline and the batch orchestrator with its sequential fallback.

    Python [str] values are Rocq strings, one [ascii] per character: the
    model covers text in the ASCII range, where [lower], [upper] and [strip]
    agree with CPython.  Dictionaries indexed by name are [gmap string _];
    dictionaries whose iteration order matters are association lists.
    External collaborators (fetcher, text extractor, SHA-1, the Scrapy
    spider) are the fields of a class; the corpus store is a small state
    record.  An exception is a [Raise] of the [reply] type, or [None] where
    its text does not matter. *)

From Stdlib Require Import ZArith QArith Ascii Sorted Permutation.
From stdpp Require Import gmap strings list.

Local Open Scope Z_scope.

(** ** Python string primitives used by the builder *)

Module PyStr.

Definition code (c : ascii) : N := N_of_ascii c.

Definition between (lo hi : N) (c : ascii) : bool :=
  ((lo <=? code c) && (code c <=? hi))%N.

Definition is_upper : ascii -> bool := between 65 90.
Definition is_lower : ascii -> bool := between 97 122.
Definition is_digit : ascii -> bool := between 48 57.
Definition is_alpha (c : ascii) : bool := is_upper c || is_lower c.

(** [str.isspace] on the ASCII range: TAB..CR, FS..US and the space. *)
Definition is_space (c : ascii) : bool :=
  between 9 13 c || between 28 32 c.

Definition lower_char (c : ascii) : ascii :=
  if is_upper c then ascii_of_N (code c + 32) else c.

Definition upper_char (c : ascii) : ascii :=
  if is_lower c then ascii_of_N (code c - 32) else c.

Fixpoint map_str (f : ascii -> ascii) (s : string) : string :=
  match s with
  | EmptyString => EmptyString
  | String c s' => String (f c) (map_str f s')
  end.

(** [s.lower()] and [s.upper()] *)
Definition lower : string -> string := map_str lower_char.
Definition upper : string -> string := map_str upper_char.

(** [s.startswith(p)] *)
Fixpoint startswith (p s : string) : bool :=
  match p, s with
  | EmptyString, _ => true
  | String a p', String b s' => if Ascii.eqb a b then startswith p' s' else false
  | String _ _, EmptyString => false
  end.

(** [p in s] *)
Fixpoint contains (p s : string) : bool :=
  startswith p s ||
  match s with
  | EmptyString => false
  | String _ s' => contains p s'
  end.

Fixpoint rev_str (acc s : string) : string :=
  match s with
  | EmptyString => acc
  | String c s' => rev_str (String c acc) s'
  end.

Definition reverse (s : string) : string := rev_str EmptyString s.

(** [s.endswith(p)] *)
Definition endswith (p s : string) : bool :=
  startswith (reverse p) (reverse s).

Fixpoint drop_while (f : ascii -> bool) (s : string) : string :=
  match s with
  | EmptyString => EmptyString
  | String c s' => if f c then drop_while f s' else s
  end.

Definition lstrip_by (f : ascii -> bool) (s : string) : string := drop_while f s.
Definition rstrip_by (f : ascii -> bool) (s : string) : string :=
  reverse (drop_while f (reverse s)).

(** [s.strip()] *)
Definition strip (s : string) : string := rstrip_by is_space (lstrip_by is_space s).

(** [sep.join(l)] *)
Fixpoint join (sep : string) (l : list string) : string :=
  match l with
  | [] => EmptyString
  | [x] => x
  | x :: rest => x +:+ sep +:+ join sep rest
  end.

(** [s.replace(a, b)] for a one-character pattern [a] *)
Fixpoint replace_char (a : ascii) (b : string) (s : string) : string :=
  match s with
  | EmptyString => EmptyString
  | String c s' =>
      if Ascii.eqb c a then b +:+ replace_char a b s'
      else String c (replace_char a b s')
  end.

(** The characters of a string, as iterating over it yields them *)
Fixpoint chars (s : string) : list string :=
  match s with
  | EmptyString => []
  | String c s' => String c EmptyString :: chars s'
  end.

(** Truthiness of a string: [bool(s)] *)
Definition nonempty (s : string) : bool :=
  match s with EmptyString => false | _ => true end.

(** Comparison of strings by code point, as [<] on [str] *)
Fixpoint ltb (a b : string) : bool :=
  match a, b with
  | EmptyString, EmptyString => false
  | EmptyString, String _ _ => true
  | String _ _, EmptyString => false
  | String x a', String y b' =>
      if (code x <? code y)%N then true
      else if (code y <? code x)%N then false
      else ltb a' b'
  end.

End PyStr.

(** ** Rate limiter / retry policy of the discovery loop (discover, lines 160-181) *)

Module Retry.
Import PyStr.

(** The [except] handler's choice of wait, as a function of [str(e)]. *)
Definition retry_wait (error_str : string) : Z :=
  if contains "403" error_str then 60
  else if contains "timeout" (lower error_str)
          || contains "read timed out" (lower error_str) then 30
  else if contains "connection" (lower error_str)
          || contains "network" (lower error_str) then 45
  else 15.

End Retry.

(** ** urllib.parse, as far as [canonicalize] and the filters use it

    The functions follow CPython's [urllib/parse.py] on [str] input.
    [ValueError] is [None].  Percent-escapes are decoded byte by byte: an
    escape of a non-ASCII byte stays that one character here, where CPython
    decodes the bytes as UTF-8. *)

Module Url.
Import PyStr.

(** [s.partition(c)]: the text before and after the first [c], if any *)
Fixpoint break_at (c : ascii) (s : string) : option (string * string) :=
  match s with
  | EmptyString => None
  | String x s' =>
      if Ascii.eqb x c then Some (EmptyString, s')
      else match break_at c s' with
           | Some (a, b) => Some (String x a, b)
           | None => None
           end
  end.

(** [s.rpartition(c)]: the text before and after the last [c], if any *)
Fixpoint rbreak_at (c : ascii) (s : string) : option (string * string) :=
  match s with
  | EmptyString => None
  | String x s' =>
      match rbreak_at c s' with
      | Some (a, b) => Some (String x a, b)
      | None => if Ascii.eqb x c then Some (EmptyString, s') else None
      end
  end.

Definition has_char (c : ascii) (s : string) : bool :=
  match break_at c s with Some _ => true | None => false end.

Fixpoint all_chars (f : ascii -> bool) (s : string) : bool :=
  match s with
  | EmptyString => true
  | String c s' => f c && all_chars f s'
  end.

Fixpoint filter_str (f : ascii -> bool) (s : string) : string :=
  match s with
  | EmptyString => EmptyString
  | String c s' => if f c then String c (filter_str f s') else filter_str f s'
  end.

Definition uses_netloc : list string :=
  [EmptyString; "ftp"; "http"; "gopher"; "nntp"; "telnet"; "imap"; "wais"; "file";
   "mms"; "https"; "shttp"; "snews"; "prospero"; "rtsp"; "rtsps"; "rtspu";
   "rsync"; "svn"; "svn+ssh"; "sftp"; "nfs"; "git"; "git+ssh"; "ws"; "wss";
   "itms-services"].

Definition uses_params : list string :=
  [EmptyString; "ftp"; "hdl"; "prospero"; "http"; "imap"; "https"; "shttp"; "rtsp";
   "rtsps"; "rtspu"; "sip"; "sips"; "mms"; "sftp"; "tel"].

Definition in_list (s : string) (l : list string) : bool :=
  existsb (String.eqb s) l.

Definition scheme_char (c : ascii) : bool :=
  is_alpha c || is_digit c || Ascii.eqb c "+" || Ascii.eqb c "-" || Ascii.eqb c ".".

(** [_WHATWG_C0_CONTROL_OR_SPACE] and [_UNSAFE_URL_BYTES_TO_REMOVE] *)
Definition c0_control_or_space (c : ascii) : bool := (code c <=? 32)%N.
Definition unsafe_url_byte (c : ascii) : bool :=
  Ascii.eqb c "009" || Ascii.eqb c "013" || Ascii.eqb c "010".

Record SplitResult := {
  sr_scheme : string; sr_netloc : string; sr_path : string;
  sr_query : string; sr_fragment : string }.

Record ParseResult := {
  scheme : string; netloc : string; path : string; params : string;
  query : string; fragment : string }.

(** [_splitnetloc(url, 2)] on the text after the two slashes: the netloc
    runs to the first of "/", "?" and "#". *)
Fixpoint splitnetloc (s : string) : string * string :=
  match s with
  | EmptyString => (EmptyString, EmptyString)
  | String c s' =>
      if Ascii.eqb c "/" || Ascii.eqb c "?" || Ascii.eqb c "#"
      then (EmptyString, s)
      else let '(n, rest) := splitnetloc s' in (String c n, rest)
  end.

(** The scheme and the remainder, when the text before the first ":" is a
    scheme: non-empty, starting with a letter, made of scheme characters. *)
Definition split_scheme (url : string) : string * string :=
  match break_at ":" url with
  | Some (String c0 pre, rest) =>
      if is_alpha c0 && all_chars scheme_char (String c0 pre)
      then (lower (String c0 pre), rest)
      else (EmptyString, url)
  | _ => (EmptyString, url)
  end.

Section Parse.
(** [_check_bracketed_host]: the standard library's validation of an
    IPv6 or IPvFuture literal between brackets (module [ipaddress]). *)
Variable check_bracketed_host : string -> bool.

Definition bracketed_host (netloc : string) : string :=
  match break_at "[" netloc with
  | Some (_, after) =>
      match break_at "]" after with
      | Some (h, _) => h
      | None => after
      end
  | None => EmptyString
  end.

Definition netloc_ok (netloc : string) : bool :=
  match has_char "[" netloc, has_char "]" netloc with
  | true, false | false, true => false
  | true, true => check_bracketed_host (bracketed_host netloc)
  | false, false => true
  end.

Definition urlsplit (url0 : string) : option SplitResult :=
  let url := lstrip_by c0_control_or_space url0 in
  let url := filter_str (fun c => negb (unsafe_url_byte c)) url in
  let '(scheme, url) := split_scheme url in
  let '(netloc, url) :=
    match url with
    | String "/" (String "/" rest) => splitnetloc rest
    | _ => (EmptyString, url)
    end in
  if negb (netloc_ok netloc) then None
  else
    let '(url, fragment) :=
      match break_at "#" url with
      | Some (a, b) => (a, b)
      | None => (url, EmptyString)
      end in
    let '(url, query) :=
      match break_at "?" url with
      | Some (a, b) => (a, b)
      | None => (url, EmptyString)
      end in
    Some {| sr_scheme := scheme; sr_netloc := netloc; sr_path := url;
            sr_query := query; sr_fragment := fragment |}.

(** [_splitparams]: cut at the first ";" of the last path segment *)
Definition splitparams (url : string) : string * string :=
  match rbreak_at "/" url with
  | Some (dir, last) =>
      match break_at ";" last with
      | Some (a, b) => (dir +:+ "/" +:+ a, b)
      | None => (url, EmptyString)
      end
  | None =>
      match break_at ";" url with
      | Some (a, b) => (a, b)
      | None => (url, EmptyString)
      end
  end.

Definition urlparse (url : string) : option ParseResult :=
  match urlsplit url with
  | None => None
  | Some r =>
      let '(p, prm) :=
        if in_list (sr_scheme r) uses_params && has_char ";" (sr_path r)
        then splitparams (sr_path r)
        else (sr_path r, EmptyString) in
      Some {| scheme := sr_scheme r; netloc := sr_netloc r; path := p;
              params := prm; query := sr_query r;
              fragment := sr_fragment r |}
  end.
End Parse.

(** The [hostname] property: user info and port dropped, brackets of an
    IPv6 literal removed, lower-cased up to a zone separator "%". *)
Definition hostname (netloc : string) : option string :=
  let hostinfo :=
    match rbreak_at "@" netloc with
    | Some (_, h) => h
    | None => netloc
    end in
  let host :=
    match break_at "[" hostinfo with
    | Some (_, bracketed) =>
        match break_at "]" bracketed with
        | Some (h, _) => h
        | None => bracketed
        end
    | None =>
        match break_at ":" hostinfo with
        | Some (h, _) => h
        | None => hostinfo
        end
    end in
  match host with
  | EmptyString => None
  | _ =>
      match break_at "%" host with
      | Some (h, zone) => Some (lower h +:+ "%" +:+ zone)
      | None => Some (lower host)
      end
  end.

(** [s.split(c)] *)
Fixpoint split_on (c : ascii) (s : string) : list string :=
  match s with
  | EmptyString => [EmptyString]
  | String x s' =>
      if Ascii.eqb x c then EmptyString :: split_on c s'
      else match split_on c s' with
           | h :: t => String x h :: t
           | [] => [String x EmptyString]
           end
  end.

Definition hex_value (c : ascii) : option N :=
  if is_digit c then Some (code c - 48)%N
  else if between 65 70 c then Some (code c - 55)%N
  else if between 97 102 c then Some (code c - 87)%N
  else None.

Definition hex_digit (n : N) : ascii :=
  if (n <? 10)%N then ascii_of_N (48 + n) else ascii_of_N (55 + n).

(** [unquote]: "%XX" becomes the byte XX, any other "%" is kept *)
Fixpoint unquote (s : string) : string :=
  match s with
  | EmptyString => EmptyString
  | String c t =>
      if Ascii.eqb c "%" then
        match t with
        | String a (String b rest) =>
            match hex_value a, hex_value b with
            | Some x, Some y => String (ascii_of_N (16 * x + y)) (unquote rest)
            | _, _ => String c (unquote t)
            end
        | _ => String c (unquote t)
        end
      else String c (unquote t)
  end.

Definition unquote_plus (s : string) : string :=
  unquote (replace_char "+" " " s).

(** [parse_qsl(qs, keep_blank_values=True)] *)
Definition parse_qsl (qs : string) : list (string * string) :=
  flat_map
    (fun name_value =>
       match name_value with
       | EmptyString => []
       | _ =>
           match break_at "=" name_value with
           | Some (n, v) => [(unquote_plus n, unquote_plus v)]
           | None => [(unquote_plus name_value, EmptyString)]
           end
       end)
    (split_on "&" qs).

Definition always_safe (c : ascii) : bool :=
  is_alpha c || is_digit c || Ascii.eqb c "_" || Ascii.eqb c "."
  || Ascii.eqb c "-" || Ascii.eqb c "~".

(** [quote_plus(s)] with the default empty [safe] *)
Fixpoint quote_plus (s : string) : string :=
  match s with
  | EmptyString => EmptyString
  | String c t =>
      if always_safe c then String c (quote_plus t)
      else if Ascii.eqb c " " then String "+" (quote_plus t)
      else String "%" (String (hex_digit (code c / 16))
                         (String (hex_digit (code c mod 16)) (quote_plus t)))
  end.

(** [urlencode(q, doseq=True)] on a list of pairs of strings *)
Definition urlencode (q : list (string * string)) : string :=
  join "&" (map (fun '(k, v) => quote_plus k +:+ "=" +:+ quote_plus v) q).

(** [urlunsplit] (CPython 3.12.4 and later) *)
Definition urlunsplit (scheme netloc url query fragment : string) : string :=
  let url :=
    if nonempty netloc then
      let url := if nonempty url && negb (startswith "/" url)
                 then "/" +:+ url else url in
      "//" +:+ netloc +:+ url
    else if startswith "//" url then "//" +:+ url
    else if nonempty scheme && in_list scheme uses_netloc
            && (negb (nonempty url) || startswith "/" url)
    then "//" +:+ url
    else url in
  let url := if nonempty scheme then scheme +:+ ":" +:+ url else url in
  let url := if nonempty query then url +:+ "?" +:+ query else url in
  if nonempty fragment then url +:+ "#" +:+ fragment else url.

Definition urlunparse (scheme netloc url params query fragment : string) : string :=
  let url := if nonempty params then url +:+ ";" +:+ params else url in
  urlunsplit scheme netloc url query fragment.

End Url.

(** ** Data model *)

(** A fallible call: the exception's text, or the value returned. *)
Inductive reply (A : Type) : Type :=
| Raise (msg : string)
| Return (a : A).
Arguments Raise {A} msg.
Arguments Return {A} a.

(** A Python [float]: a finite value, taken as the rational it stands
    for, an infinity ([Infinity true] is [inf], [Infinity false] is
    [-inf]) or [nan]. *)
Inductive pyfloat : Type :=
| Rational (q : Q)
| Infinity (positive : bool)
| NaN.

Coercion Rational : Q >-> pyfloat.

(** Values found in the open [extra] mapping; lists hold strings and
    keyword maps keep their insertion order. *)
Inductive extra_val : Type :=
| ENone
| EBool (b : bool)
| EInt (n : Z)
| ENum (x : pyfloat)
| EStr (s : string)
| EList (l : list string)
| EMap (m : list (string * list string)).

(** [bool(v)]; a float is falsy when it equals zero, so [nan] and the
    infinities are truthy. *)
Definition truthy (v : extra_val) : bool :=
  match v with
  | ENone => false
  | EBool b => b
  | EInt n => negb (n =? 0)
  | ENum (Rational q) => negb (Qeq_bool q 0)
  | ENum (Infinity _) | ENum NaN => true
  | EStr s => PyStr.nonempty s
  | EList l => match l with [] => false | _ => true end
  | EMap m => match m with [] => false | _ => true end
  end.

Module BuilderParams.
Record t := {
  date_from : string;
  date_to : string;
  keywords : list string;
  extra : gmap string extra_val   (* [params.extra or {}] *)
}.
End BuilderParams.

Module DiscoveryItem.
Record t := {
  url : string;
  canonical_url : string;
  title : option string;
  published_at : option string;
  language : option string;
  authors : list string;
  extra : gmap string extra_val
}.
End DiscoveryItem.

(** The publish date of a story: a date object (its ordinal) or a string. *)
Inductive timestamp : Type :=
| TsDate (ordinal : Z)
| TsStr (s : string).

(** A story of the service.  [title] is what [story.get('title', '')]
    reads: the title, the empty string when the key is missing, and
    [None] when the value is not a string (a null title). *)
Module Story.
Record t := {
  url : option string;
  guid : option string;
  publish_date : option timestamp;
  title : option string;
  language : option string;
  author : option string;
  stories_id : option Z;
  media_id : option Z;
  media_name : option string;
  media_url : option string;
  collection : option string;
  collection_id : option extra_val
}.
End Story.

(** What the text extractor returns: every key may be missing. *)
Module Parsed.
Record t := {
  text : option string;
  title : option string;
  published_at : option string;
  language : option string;
  authors : option (list string)
}.
End Parsed.

Module Meta.
Record t := {
  doc_id : string;
  uri : string;
  title : option string;
  published_at : option string;
  language : option string;
  authors : list string;
  source : string;
  keywords : list string;
  extra : gmap string extra_val
}.
End Meta.

Module Document.
Record t := {
  stable_id : string;
  meta : Meta.t;
  text : string;
  raw_bytes : string;
  raw_ext : string;
  fetch_info : gmap string string
}.
End Document.

Module IndexRecord.
Record t := {
  id : string;
  url : string;
  published_at : option string;
  title : option string;
  language : option string;
  keywords : list string;
  collection_id : option extra_val;
  collection : option extra_val
}.
End IndexRecord.

Module HistoryRecord.
Record t := {
  discovered : Z;
  added : Z;
  skipped_quality : Z;
  skipped_text_extraction : Z;
  skipped_duplicate : Z;
  failed : Z;
  date_from : string;
  date_to : string;
  keywords : list string;
  processing_mode : option string;
  concurrent_requests : option pyfloat;
  download_delay : option pyfloat
}.
End HistoryRecord.

Module Manifest.
Record t := {
  source : string;
  params : option BuilderParams.t;
  history : list HistoryRecord.t;
  doc_count : Z
}.
End Manifest.

(** The dictionary returned by the sequential path. *)
Module RunResult.
Record t := {
  discovered : Z;
  added : Z;
  skipped_quality : Z;
  skipped_text_extraction : Z;
  skipped_duplicate : Z;
  failed : Z;
  total_docs : Z;
  failed_details : list (string * string)
}.
End RunResult.

(** What [run] returns: the sequential path's dictionary, or the counter
    dictionary [total_result] of a completed concurrent pass. *)
Inductive run_return : Type :=
| SequentialReturn (r : RunResult.t)
| ConcurrentReturn (total_result : gmap string Z).

(** ** The corpus store and the world around the builder *)

Module World.
Record t := {
  docs : gset string;                 (* doc ids the store holds *)
  writes : list Document.t;           (* write_document calls, in order *)
  index : list IndexRecord.t;         (* append_index calls, in order *)
  fetches : list string;              (* urls handed to fetch_raw *)
  saved : option Manifest.t           (* last save_manifest *)
}.

(** Modelled from the spec: the corpus store's [hasDoc(id) -> bool]
    (its implementation, [corpus.has_doc], is not among the sources). *)
Definition has_doc (w : t) (stable_id : string) : bool :=
  bool_decide (stable_id ∈ docs w).

(** Modelled from the spec: the corpus store's [writeDocument], after
    which the store holds the doc id; a repeated id leaves the set as it
    is.  Every call is logged. *)
Definition write_document (d : Document.t) (w : t) : t :=
  {| docs := {[ Document.stable_id d ]} ∪ docs w;
     writes := writes w ++ [d];
     index := index w; fetches := fetches w;
     saved := saved w |}.

(** Modelled from the spec: the corpus store's [appendIndex(record)]. *)
Definition append_index (r : IndexRecord.t) (w : t) : t :=
  {| docs := docs w; writes := writes w; index := index w ++ [r];
     fetches := fetches w;
     saved := saved w |}.

(** Modelled from the spec: the corpus store's [saveManifest(Manifest)]. *)
Definition save_manifest (m : Manifest.t) (w : t) : t :=
  {| docs := docs w; writes := writes w; index := index w;
     fetches := fetches w;
     saved := Some m |}.

(** Modelled from the spec: the corpus store's [documentCount() -> int]. *)
Definition get_document_count (w : t) : Z := Z.of_nat (size (docs w)).

Definition log_fetch (url : string) (w : t) : t :=
  {| docs := docs w; writes := writes w; index := index w;
     fetches := fetches w ++ [url];
     saved := saved w |}.

Definition empty : t :=
  {| docs := ∅; writes := []; index := []; fetches := [];
     saved := None |}.
End World.

(** The collaborators the builder holds or imports.  An instance is how
    they answer during one run, a url fetched twice in that run getting
    the same answer; what a later run is answered is another instance
    (only the hash and the date functions are the same at all times). *)
Class Collaborators := {
  (** [hashlib.sha1(b).hexdigest()] *)
  sha1_hex : string -> string;
  (** [urllib.parse._check_bracketed_host] (standard library) *)
  check_bracketed_host : string -> bool;
  (** [Fetcher.get(url, key, force_refresh)]: the stored blob and the
      fetch metadata *)
  fetcher_get : string -> string -> bool -> reply (string * gmap string string);
  (** [zstd.ZstdDecompressor().decompress]; [None] is [ZstdError] *)
  zstd_decompress : string -> option string;
  (** [TextExtractor.extract_text(raw_bytes, raw_ext, url)] *)
  extract_text : string -> string -> string -> reply Parsed.t;
  (** whether [from .scrapy_spider import run_scrapy_spider] succeeds *)
  spider_importable : bool;
  (** [run_scrapy_spider]: the batch's counters or an exception, and what
      it did to the store *)
  run_scrapy_spider :
    list string -> BuilderParams.t -> gmap string DiscoveryItem.t ->
    pyfloat -> pyfloat -> bool -> World.t ->
    reply (gmap string Z) * World.t;
  (** [date.strftime('%Y-%m-%d')] on a date's ordinal *)
  strftime_ymd : Z -> string;
  (** [datetime.fromisoformat]; [None] is [ValueError] *)
  fromisoformat : string -> option Z
}.

(** ** The builder *)

Module Builder.
Import PyStr.

Definition dquote : string := String "034" EmptyString.
Definition squote : string := String "039" EmptyString.
Definition backslash : string := String "092" EmptyString.

(** *** Query compilation (_prepare_queries, _quote_term,
    _compile_keywords_map_to_query) *)

Definition _quote_term (term : string) : string :=
  let t := strip term in
  if existsb (fun op => contains op (upper t)) [" OR "; " AND "; "("; ")"]
  then t
  else if (startswith dquote t && endswith dquote t)
          || (startswith squote t && endswith squote t)
  then t
  else dquote +:+ replace_char "034" (backslash +:+ dquote) t +:+ dquote.

(** [[_quote_term(t) for t in words if str(t).strip()]] *)
Definition quoted_terms (words : list string) : list string :=
  map _quote_term (filter (fun t => nonempty (strip t)) words).

(** [f"({' OR '.join(terms)})"] *)
Definition or_group (terms : list string) : string :=
  "(" +:+ join " OR " terms +:+ ")".

Definition _compile_keywords_map_to_query
    (keywords_by_lang : list (string * list string)) : string :=
  let groups :=
    flat_map (fun '(_, words) =>
                match quoted_terms words with
                | [] => []
                | terms => [or_group terms]
                end) keywords_by_lang in
  match groups with
  | [] => EmptyString
  | _ => or_group groups
  end.

Definition _prepare_queries (params : BuilderParams.t) : list string :=
  let extra := BuilderParams.extra params in
  match extra !! "queries" with
  | Some (EList (q :: qs)) =>
      map strip (filter (fun q => nonempty (strip q)) (q :: qs))
  | _ =>
      match extra !! "keywords" with
      | Some (EMap (kv :: m)) => [_compile_keywords_map_to_query (kv :: m)]
      | _ =>
          match BuilderParams.keywords params with
          | [] => []
          | kws =>
              match quoted_terms kws with
              | [] => []
              | terms => [or_group terms]
              end
          end
      end
  end.

(** *** The pagination loop of [discover] (lines 119-181) *)

Record page_state := {
  query_stories : list Story.t;
  pagination_token : option string;
  more_stories : bool;
  api_call_count : nat;
  calls : list (option string);   (* tokens handed to story_list, in order *)
  waits : list Z                  (* rate_limiter.wait_for_retry calls *)
}.

Definition page_start : page_state :=
  {| query_stories := []; pagination_token := None; more_stories := true;
     api_call_count := 0; calls := []; waits := [] |}.

(** [max_stories and len(all_stories) + len(query_stories) >= max_stories] *)
Definition limit_reached (max_stories : option Z) (n_all : nat)
    (stories : list Story.t) : bool :=
  match max_stories with
  | Some m => negb (m =? 0) && (m <=? Z.of_nat (n_all + length stories))
  | None => false
  end.

(** [story_copy], with the collection's name and id added *)
Definition tag_story (collection_name : string) (collection_id : extra_val)
    (s : Story.t) : Story.t :=
  {| Story.url := Story.url s; Story.guid := Story.guid s;
     Story.publish_date := Story.publish_date s; Story.title := Story.title s;
     Story.language := Story.language s; Story.author := Story.author s;
     Story.stories_id := Story.stories_id s;
     Story.media_id := Story.media_id s;
     Story.media_name := Story.media_name s;
     Story.media_url := Story.media_url s;
     Story.collection := Some collection_name;
     Story.collection_id := Some collection_id |}.

(** The [for story in pages] loop: copies are appended until the limit is
    hit; the flag tells whether it was. *)
Fixpoint append_pages (max_stories : option Z) (n_all : nat)
    (collection_name : string) (collection_id : extra_val)
    (pages acc : list Story.t) : list Story.t * bool :=
  match pages with
  | [] => (acc, false)
  | story :: rest =>
      let acc := acc ++ [tag_story collection_name collection_id story] in
      if limit_reached max_stories n_all acc then (acc, true)
      else append_pages max_stories n_all collection_name collection_id rest acc
  end.

(** One pass through the body of [while more_stories].  [story_list n] is
    what the service does on the call number [n] made for this query. *)
Definition page_iteration (max_stories : option Z) (n_all : nat)
    (collection_name : string) (collection_id : extra_val)
    (story_list : nat -> reply (list Story.t * option string))
    (st : page_state) : page_state :=
  let count := S (api_call_count st) in
  if limit_reached max_stories n_all (query_stories st) then
    {| query_stories := query_stories st;
       pagination_token := pagination_token st; more_stories := false;
       api_call_count := count; calls := calls st; waits := waits st |}
  else
    let issued := calls st ++ [pagination_token st] in
    match story_list (length (calls st)) with
    | Return (pages, token) =>
        match pages with
        | [] =>
            {| query_stories := query_stories st; pagination_token := token;
               more_stories := false; api_call_count := count;
               calls := issued; waits := waits st |}
        | _ =>
            let '(stories, hit) :=
              append_pages max_stories n_all collection_name collection_id
                pages (query_stories st) in
            {| query_stories := stories; pagination_token := token;
               more_stories :=
                 if hit then false
                 else match token with Some _ => true | None => false end;
               api_call_count := count; calls := issued; waits := waits st |}
        end
    | Raise error_str =>
        {| query_stories := query_stories st;
           pagination_token := pagination_token st;
           more_stories := more_stories st; api_call_count := count;
           calls := issued;
           waits := waits st ++ [Retry.retry_wait error_str] |}
    end.

(** The loop, run for at most [fuel] passes (the source sets no bound). *)
Fixpoint paginate (fuel : nat) (max_stories : option Z) (n_all : nat)
    (collection_name : string) (collection_id : extra_val)
    (story_list : nat -> reply (list Story.t * option string))
    (st : page_state) : page_state :=
  match fuel with
  | O => st
  | S fuel' =>
      if more_stories st then
        paginate fuel' max_stories n_all collection_name collection_id
          story_list
          (page_iteration max_stories n_all collection_name collection_id
             story_list st)
      else st
  end.

(** *** Result ordering and conversion (discover, lines 196-251) *)

(** The value [get_publish_timestamp] returns: the publish date when it
    is truthy, the integer 0 otherwise. *)
Inductive sort_key : Type :=
| KeyTs (t : timestamp)
| KeyZero.

Definition ts_truthy (t : timestamp) : bool :=
  match t with
  | TsDate _ => true
  | TsStr s => nonempty s
  end.

Definition get_publish_timestamp (story : Story.t) : sort_key :=
  match Story.publish_date story with
  | Some t => if ts_truthy t then KeyTs t else KeyZero
  | None => KeyZero
  end.

(** [a < b] between two keys; [None] is the [TypeError] Python raises
    for a date against a string or either against the integer 0. *)
Definition key_lt (a b : sort_key) : option bool :=
  match a, b with
  | KeyTs (TsDate x), KeyTs (TsDate y) => Some (x <? y)
  | KeyTs (TsStr x), KeyTs (TsStr y) => Some (ltb x y)
  | KeyZero, KeyZero => Some false
  | _, _ => None
  end.

(** Stable insertion by key: [x] goes before the first element whose key
    is not below its own. *)
Fixpoint insert_story (x : Story.t) (l : list Story.t) : option (list Story.t) :=
  match l with
  | [] => Some [x]
  | y :: rest =>
      match key_lt (get_publish_timestamp y) (get_publish_timestamp x) with
      | None => None
      | Some true =>
          match insert_story x rest with
          | Some r => Some (y :: r)
          | None => None
          end
      | Some false => Some (x :: l)
      end
  end.

(** [list.sort(key=get_publish_timestamp)]: a stable ascending sort that
    fails as soon as a comparison does. *)
Fixpoint sort_ascending (l : list Story.t) : option (list Story.t) :=
  match l with
  | [] => Some []
  | x :: rest =>
      match sort_ascending rest with
      | Some sorted => insert_story x sorted
      | None => None
      end
  end.

(** [all_stories.sort(key=get_publish_timestamp, reverse=True)]: Python
    reverses the list, sorts it and reverses the result. *)
Definition sort_stories (all_stories : list Story.t) : option (list Story.t) :=
  match sort_ascending (rev all_stories) with
  | Some sorted => Some (rev sorted)
  | None => None
  end.

Section WithCollaborators.
Context `{Collaborators}.

Definition _to_ymd (val : option timestamp) : option string :=
  match val with
  | Some (TsDate d) => Some (strftime_ymd d)
  | Some (TsStr s) =>
      if nonempty s then
        match fromisoformat s with
        | Some d => Some (strftime_ymd d)
        | None => Some s
        end
      else Some s
  | None => None
  end.

(** The body of [for story in all_stories]; [None] when the story is
    skipped: it has no url, or its title is not a string, on which
    [.strip()] raises inside the [try] of the loop. *)
Definition story_item (story : Story.t) : option DiscoveryItem.t :=
  let url :=
    match Story.url story with
    | Some u => if nonempty u then u else default EmptyString (Story.guid story)
    | None => default EmptyString (Story.guid story)
    end in
  if nonempty url then
    match Story.title story with
    | Some title =>
        Some {| DiscoveryItem.url := url;
                DiscoveryItem.canonical_url := url;
                DiscoveryItem.title := Some (strip title);
                DiscoveryItem.published_at :=
                  _to_ymd (Story.publish_date story);
                DiscoveryItem.language := Story.language story;
                DiscoveryItem.authors :=
                  match Story.author story with
                  | Some a => if nonempty a then [a] else []
                  | None => []
                  end;
                DiscoveryItem.extra :=
                  {[ "story_id" :=
                       from_option EInt ENone (Story.stories_id story);
                     "collection" :=
                       from_option EStr ENone (Story.collection story);
                     "collection_id" :=
                       default ENone (Story.collection_id story);
                     "source_language" :=
                       from_option EStr ENone (Story.language story);
                     "media_id" :=
                       from_option EInt ENone (Story.media_id story);
                     "media_name" :=
                       from_option EStr ENone (Story.media_name story);
                     "media_url" :=
                       from_option EStr ENone (Story.media_url story)
                  ]} |}
    | None => None
    end
  else None.

(** What [discover] yields for the stories gathered from all queries:
    the sort may raise, after which the items are built in order. *)
Definition discover_items (all_stories : list Story.t)
    : reply (list DiscoveryItem.t) :=
  match sort_stories all_stories with
  | Some sorted => Return (omap story_item sorted)
  | None => Raise "TypeError: '<' not supported between instances"
  end.

(** *** Canonicalizer and stable id (run, lines 406-421 and 450-451) *)

Definition TRACKERS : gset string :=
  {[ "utm_source"; "utm_medium"; "utm_campaign"; "utm_term";
     "utm_content"; "gclid"; "fbclid" ]}.

(** [<] on pairs of strings, as Python compares tuples *)
Definition pair_ltb (a b : string * string) : bool :=
  ltb (fst a) (fst b)
  || (String.eqb (fst a) (fst b) && ltb (snd a) (snd b)).

Fixpoint insert_pair (x : string * string) (l : list (string * string))
    : list (string * string) :=
  match l with
  | [] => [x]
  | y :: rest => if pair_ltb y x then y :: insert_pair x rest else x :: l
  end.

(** [q.sort()] *)
Definition sort_pairs (q : list (string * string)) : list (string * string) :=
  foldr insert_pair [] q.

(** [canonicalize(url)]; [None] when [urlparse] raises [ValueError] *)
Definition canonicalize (url : string) : option string :=
  match Url.urlparse check_bracketed_host (strip url) with
  | None => None
  | Some p =>
      let q := filter (fun kv => bool_decide (fst kv ∉ TRACKERS))
                 (Url.parse_qsl (Url.query p)) in
      let q := sort_pairs q in
      Some (Url.urlunparse
              (lower (Url.scheme p))
              (lower (default EmptyString (Url.hostname (Url.netloc p))))
              (if nonempty (Url.path p) then Url.path p else "/")
              EmptyString
              (Url.urlencode q)
              EmptyString)
  end.

(** [sid(u)] *)
Definition sid (u : string) : option string :=
  match canonicalize u with
  | Some c => Some (sha1_hex c)
  | None => None
  end.

(** *** Filters (_apply_filters) *)

Definition _is_domain_blacklisted (url : string) (blacklist : list string) : bool :=
  match Url.urlparse check_bracketed_host url with
  | Some p =>
      existsb (fun b => contains (lower b) (lower (Url.netloc p))) blacklist
  | None => false
  end.

Definition _is_url_blacklisted (url : string) (blacklist : list string) : bool :=
  existsb (fun pattern => contains (lower pattern) (lower url)) blacklist.

(** The patterns a blacklist of [extra] stands for: the entries of a
    list, the characters of a string, the keys of a mapping; none for an
    absent or falsy value, and none for a truthy number, on which the
    iteration raises inside the [try] of the two tests above. *)
Definition string_list (v : option extra_val) : list string :=
  match v with
  | Some (EList l) => l
  | Some (EStr s) => chars s
  | Some (EMap m) => map fst m
  | _ => []
  end.

Definition _apply_filters (items : list DiscoveryItem.t)
    (params : BuilderParams.t) : list DiscoveryItem.t :=
  let domain_blacklist :=
    string_list (BuilderParams.extra params !! "domain_blacklist") in
  let url_blacklist :=
    string_list (BuilderParams.extra params !! "url_blacklist") in
  let items :=
    match domain_blacklist with
    | [] => items
    | _ => filter (fun item =>
                     negb (_is_domain_blacklisted (DiscoveryItem.url item)
                             domain_blacklist)) items
    end in
  match url_blacklist with
  | [] => items
  | _ => filter (fun item =>
                   negb (_is_url_blacklisted (DiscoveryItem.url item)
                           url_blacklist)) items
  end.

(** *** Fetch and quality gate (fetch_raw, parse_text,
    _process_sequential) *)

Definition raw_ext_of (mime_type : string) : string :=
  if contains "html" mime_type then "html"
  else if contains "pdf" mime_type then "pdf"
  else "bin".

Definition fetch_raw (url stable_id : string) (force_refresh : bool)
    : reply (string * gmap string string * string) :=
  match fetcher_get url url force_refresh with
  | Raise e => Raise e
  | Return (cbytes, fetch_meta) =>
      let raw_bytes := default cbytes (zstd_decompress cbytes) in
      let mime_type := default EmptyString (fetch_meta !! "mime") in
      Return (raw_bytes, fetch_meta, raw_ext_of mime_type)
  end.

Definition parse_text (raw_bytes raw_ext url : string) : reply Parsed.t :=
  extract_text raw_bytes raw_ext url.

(** [a or b] on optional strings: [a] when it is a non-empty string *)
Definition or_str (a b : option string) : option string :=
  match a with
  | Some s => if nonempty s then a else b
  | None => b
  end.

(** [a or b] on optional [extra] values *)
Definition or_val (a b : option extra_val) : option extra_val :=
  match a with
  | Some v => if truthy v then a else b
  | None => b
  end.

(** The metadata merge of lines 498-520. *)
Definition merge_meta (url stable_id : string) (parsed : Parsed.t)
    (discovered_item : option DiscoveryItem.t)
    (params : BuilderParams.t) (manifest : Manifest.t) : Meta.t :=
  let per_item_extra :=
    match discovered_item with
    | Some d => DiscoveryItem.extra d
    | None => ∅
    end in
  let merged_extra := per_item_extra ∪ BuilderParams.extra params in
  {| Meta.doc_id := stable_id;
     Meta.uri := url;
     Meta.title :=
       or_str (Parsed.title parsed)
              (d ← discovered_item; DiscoveryItem.title d);
     Meta.published_at :=
       or_str (d ← discovered_item; DiscoveryItem.published_at d)
              (Parsed.published_at parsed);
     Meta.language :=
       or_str (Parsed.language parsed)
              (d ← discovered_item; DiscoveryItem.language d);
     Meta.authors :=
       match Parsed.authors parsed with
       | Some (a :: l) => a :: l
       | _ => match discovered_item with
              | Some d => DiscoveryItem.authors d
              | None => []
              end
       end;
     Meta.source := Manifest.source manifest;
     Meta.keywords := BuilderParams.keywords params;
     Meta.extra := merged_extra |}.

Definition index_record (meta : Meta.t) : IndexRecord.t :=
  {| IndexRecord.id := Meta.doc_id meta;
     IndexRecord.url := Meta.uri meta;
     IndexRecord.published_at := Meta.published_at meta;
     IndexRecord.title := Meta.title meta;
     IndexRecord.language := Meta.language meta;
     IndexRecord.keywords := Meta.keywords meta;
     IndexRecord.collection_id := Meta.extra meta !! "collection_id";
     IndexRecord.collection :=
       or_val (Meta.extra meta !! "collection")
              (Meta.extra meta !! "collection_name") |}.

(** The counters of the sequential loop. *)
Record counters := {
  added : Z;
  failed_urls : list (string * string);
  skipped_quality : Z;
  skipped_text_extraction : Z
}.

Definition counters_start : counters :=
  {| added := 0; failed_urls := []; skipped_quality := 0;
     skipped_text_extraction := 0 |}.

(** The body of the loop over the frontier, for one (url, stable_id). *)
Definition process_item (discovered_by_url : gmap string DiscoveryItem.t)
    (params : BuilderParams.t) (manifest : Manifest.t)
    (force_refresh : bool) (entry : string * string)
    (acc : counters * World.t) : counters * World.t :=
  let '(url, stable_id) := entry in
  let '(c, w) := acc in
  let w := World.log_fetch url w in
  let fail e :=
    ({| added := added c; failed_urls := failed_urls c ++ [(url, e)];
        skipped_quality := skipped_quality c;
        skipped_text_extraction := skipped_text_extraction c |}, w) in
  match fetch_raw url stable_id force_refresh with
  | Raise e => fail e
  | Return (raw_bytes, fetch_meta, raw_ext) =>
      match parse_text raw_bytes raw_ext url with
      | Raise e => fail e
      | Return parsed =>
          let text := default EmptyString (Parsed.text parsed) in
          if negb (nonempty text) then
            ({| added := added c; failed_urls := failed_urls c;
                skipped_quality := skipped_quality c;
                skipped_text_extraction := skipped_text_extraction c + 1 |}, w)
          else if Z.of_nat (String.length text) <? 400 then
            ({| added := added c; failed_urls := failed_urls c;
                skipped_quality := skipped_quality c + 1;
                skipped_text_extraction := skipped_text_extraction c |}, w)
          else
            let meta :=
              merge_meta url stable_id parsed (discovered_by_url !! url)
                params manifest in
            let w :=
              World.write_document
                {| Document.stable_id := stable_id; Document.meta := meta;
                   Document.text := text; Document.raw_bytes := raw_bytes;
                   Document.raw_ext := raw_ext;
                   Document.fetch_info := fetch_meta |} w in
            let w := World.append_index (index_record meta) w in
            ({| added := added c + 1; failed_urls := failed_urls c;
                skipped_quality := skipped_quality c;
                skipped_text_extraction := skipped_text_extraction c |}, w)
      end
  end.

Definition _process_sequential (frontier : list (string * string))
    (discovered_by_url : gmap string DiscoveryItem.t)
    (params : BuilderParams.t) (manifest : Manifest.t)
    (force_refresh : bool) (w : World.t) : RunResult.t * World.t :=
  let skipped_duplicate :=
    Z.of_nat (size discovered_by_url) - Z.of_nat (length frontier) in
  let '(c, w) :=
    foldl (fun acc entry =>
             process_item discovered_by_url params manifest force_refresh
               entry acc)
          (counters_start, w) frontier in
  let discovered := Z.of_nat (size discovered_by_url) in
  let failed := Z.of_nat (length (failed_urls c)) in
  let manifest :=
    {| Manifest.source := Manifest.source manifest;
       Manifest.params := Manifest.params manifest;
       Manifest.history :=
         Manifest.history manifest ++
         [{| HistoryRecord.discovered := discovered;
             HistoryRecord.added := added c;
             HistoryRecord.skipped_quality := skipped_quality c;
             HistoryRecord.skipped_text_extraction := skipped_text_extraction c;
             HistoryRecord.skipped_duplicate := skipped_duplicate;
             HistoryRecord.failed := failed;
             HistoryRecord.date_from := BuilderParams.date_from params;
             HistoryRecord.date_to := BuilderParams.date_to params;
             HistoryRecord.keywords := BuilderParams.keywords params;
             HistoryRecord.processing_mode := None;
             HistoryRecord.concurrent_requests := None;
             HistoryRecord.download_delay := None |}];
       Manifest.doc_count := Manifest.doc_count manifest + added c |} in
  let w := World.save_manifest manifest w in
  ({| RunResult.discovered := discovered;
      RunResult.added := added c;
      RunResult.skipped_quality := skipped_quality c;
      RunResult.skipped_text_extraction := skipped_text_extraction c;
      RunResult.skipped_duplicate := skipped_duplicate;
      RunResult.failed := failed;
      RunResult.total_docs := World.get_document_count w;
      RunResult.failed_details := failed_urls c |}, w).

(** *** Batch orchestrator (_process_concurrent) *)

(** A number read from [extra], an integer or a boolean being the float
    of the same value; [None] for a value that [min] and [max] cannot
    compare with a number ([TypeError]). *)
Definition numeric (v : extra_val) : option pyfloat :=
  match v with
  | EInt n => Some (Rational (inject_Z n))
  | ENum x => Some x
  | EBool b => Some (Rational (if b then 1%Q else 0%Q))
  | ENone | EStr _ | EList _ | EMap _ => None
  end.

Definition Qlt_bool (a b : Q) : bool := negb (Qle_bool b a).

(** [a < b] between two numbers: false whenever one of them is [nan]. *)
Definition py_lt (a b : pyfloat) : bool :=
  match a, b with
  | NaN, _ | _, NaN => false
  | Rational x, Rational y => Qlt_bool x y
  | Rational _, Infinity positive => positive
  | Infinity positive, Rational _ => negb positive
  | Infinity pa, Infinity pb => negb pa && pb
  end.

(** [min(a, b)] and [max(a, b)] as the builtins choose: the first
    argument unless the second is strictly better. *)
Definition py_min (a b : pyfloat) : pyfloat := if py_lt b a then b else a.
Definition py_max (a b : pyfloat) : pyfloat := if py_lt a b then b else a.

(** Lines 603-604: the settings handed to every batch. *)
Definition concurrent_settings (extra : gmap string extra_val)
    : option (pyfloat * pyfloat) :=
  match numeric (default (EInt 16) (extra !! "concurrent_requests")),
        numeric (default (ENum (1 # 10)) (extra !! "download_delay")) with
  | Some cr, Some dd => Some (py_min cr 1%Q, py_max dd 5%Q)
  | _, _ => None
  end.

Definition batch_size : nat := 3.

Definition total_batches (urls : list string) : nat :=
  ((length urls + batch_size - 1) `div` batch_size)%nat.

(** [urls[start_idx:end_idx]] of batch number [batch_num] *)
Definition batch_urls (urls : list string) (batch_num : nat) : list string :=
  let start_idx := (batch_num * batch_size)%nat in
  let end_idx := ((start_idx + batch_size) `min` length urls)%nat in
  take (end_idx - start_idx)%nat (drop start_idx urls).

Definition batches (urls : list string) : list (list string) :=
  map (batch_urls urls) (seq 0 (total_batches urls)).

Definition total_result_start : gmap string Z :=
  {[ "processed_count" := 0; "added_count" := 0; "failed_count" := 0;
     "skipped_quality" := 0; "skipped_text_extraction" := 0 ]}.

(** [for key in total_result: total_result[key] += result.get(key, 0)] *)
Definition accumulate (total_result result : gmap string Z) : gmap string Z :=
  map_imap (fun key v => Some (v + default 0 (result !! key))) total_result.

(** The loop over the batches: the summed counters, or the exception
    that stopped it, with the store as the spider left it. *)
Fixpoint run_batches (todo : list (list string))
    (discovered_by_url : gmap string DiscoveryItem.t)
    (params : BuilderParams.t) (concurrent_requests download_delay : pyfloat)
    (force_refresh : bool) (total_result : gmap string Z) (w : World.t)
    : reply (gmap string Z) * World.t :=
  match todo with
  | [] => (Return total_result, w)
  | batch :: rest =>
      match run_scrapy_spider batch params discovered_by_url
              concurrent_requests download_delay force_refresh w with
      | (Raise e, w') => (Raise e, w')
      | (Return result, w') =>
          run_batches rest discovered_by_url params concurrent_requests
            download_delay force_refresh (accumulate total_result result) w'
      end
  end.

(** Lines 661-680: the manifest update of a completed concurrent pass;
    [None] is the [KeyError] of a missing counter. *)
Definition concurrent_history (result : gmap string Z)
    (discovered_by_url : gmap string DiscoveryItem.t)
    (frontier : list (string * string)) (params : BuilderParams.t)
    (concurrent_requests download_delay : pyfloat) (manifest : Manifest.t)
    : option Manifest.t :=
  a ← result !! "added";
  q ← result !! "skipped_quality";
  t ← result !! "skipped_text_extraction";
  f ← result !! "failed";
  Some
    {| Manifest.source := Manifest.source manifest;
       Manifest.params := Manifest.params manifest;
       Manifest.history :=
         Manifest.history manifest ++
         [{| HistoryRecord.discovered := Z.of_nat (size discovered_by_url);
             HistoryRecord.added := a;
             HistoryRecord.skipped_quality := q;
             HistoryRecord.skipped_text_extraction := t;
             HistoryRecord.skipped_duplicate :=
               Z.of_nat (size discovered_by_url) - Z.of_nat (length frontier);
             HistoryRecord.failed := f;
             HistoryRecord.date_from := BuilderParams.date_from params;
             HistoryRecord.date_to := BuilderParams.date_to params;
             HistoryRecord.keywords := BuilderParams.keywords params;
             HistoryRecord.processing_mode := Some "concurrent";
             HistoryRecord.concurrent_requests := Some concurrent_requests;
             HistoryRecord.download_delay := Some download_delay |}];
       Manifest.doc_count := Manifest.doc_count manifest + a |}.

(** The [try] block of [_process_concurrent]: what it returns, or the
    exception it raises, and the store at that point. *)
Definition concurrent_attempt (frontier : list (string * string))
    (discovered_by_url : gmap string DiscoveryItem.t)
    (params : BuilderParams.t) (manifest : Manifest.t)
    (force_refresh : bool) (concurrent_requests download_delay : pyfloat)
    (w : World.t) : reply (gmap string Z) * World.t :=
  let urls := map fst frontier in
  if negb spider_importable then (Raise "ImportError", w)
  else
    match run_batches (batches urls) discovered_by_url params
            concurrent_requests download_delay force_refresh
            total_result_start w with
    | (Raise e, w') => (Raise e, w')
    | (Return result, w') =>
        match concurrent_history result discovered_by_url frontier params
                concurrent_requests download_delay manifest with
        | None => (Raise "KeyError: 'added'", w')
        | Some manifest' => (Return result, World.save_manifest manifest' w')
        end
    end.

(** [_process_concurrent]; a [Raise] is the [TypeError] of ill-typed
    settings, raised before the [try]. *)
Definition _process_concurrent (frontier : list (string * string))
    (discovered_by_url : gmap string DiscoveryItem.t)
    (params : BuilderParams.t) (manifest : Manifest.t)
    (force_refresh : bool) (w : World.t) : reply run_return * World.t :=
  match concurrent_settings (BuilderParams.extra params) with
  | None => (Raise "TypeError", w)
  | Some (concurrent_requests, download_delay) =>
      match concurrent_attempt frontier discovered_by_url params manifest
              force_refresh concurrent_requests download_delay w with
      | (Return result, w') => (Return (ConcurrentReturn result), w')
      | (Raise _, w') =>
          let '(r, w'') :=
            _process_sequential frontier discovered_by_url params manifest
              force_refresh w' in
          (Return (SequentialReturn r), w'')
      end
  end.

(** *** The run (run, lines 440-465) *)

(** [{d.url: d for d in discovered}] *)
Definition by_url (discovered : list DiscoveryItem.t)
    : gmap string DiscoveryItem.t :=
  foldl (fun m d => <[ DiscoveryItem.url d := d ]> m) ∅ discovered.

(** [[(d.url, sid(d.url)) for d in discovered]]; [None] when a url
    cannot be parsed *)
Definition pairs_of (discovered : list DiscoveryItem.t)
    : option (list (string * string)) :=
  mapM (fun d => s ← sid (DiscoveryItem.url d);
                 Some (DiscoveryItem.url d, s)) discovered.

(** [[(u, s) for (u, s) in pairs if not self.corpus.has_doc(s)]] *)
Definition frontier_of (pairs : list (string * string)) (w : World.t)
    : list (string * string) :=
  filter (fun us => negb (World.has_doc w (snd us))) pairs.

Definition flag (extra : gmap string extra_val) (key : string)
    (dflt : bool) : bool :=
  match extra !! key with
  | Some v => truthy v
  | None => dflt
  end.

(** [run] once the parameters are resolved; [found] is
    [list(self.discover(params))]. *)
Definition run (found : list DiscoveryItem.t) (params : BuilderParams.t)
    (manifest : Manifest.t) (w : World.t) : reply run_return * World.t :=
  let manifest :=
    {| Manifest.source := Manifest.source manifest;
       Manifest.params := Some params;
       Manifest.history := Manifest.history manifest;
       Manifest.doc_count := Manifest.doc_count manifest |} in
  let discovered := _apply_filters found params in
  let discovered_by_url := by_url discovered in
  match pairs_of discovered with
  | None => (Raise "ValueError", w)
  | Some pairs =>
      let frontier := frontier_of pairs w in
      let use_concurrent :=
        flag (BuilderParams.extra params) "use_concurrent_processing" true in
      let force_refresh :=
        flag (BuilderParams.extra params) "force_refresh_cache" false in
      if use_concurrent then
        _process_concurrent frontier discovered_by_url params manifest
          force_refresh w
      else
        let '(r, w') :=
          _process_sequential frontier discovered_by_url params manifest
            force_refresh w in
        (Return (SequentialReturn r), w')
  end.

End WithCollaborators.
End Builder.

(** ** A stand-in set of collaborators, for running the model *)

Module Demo.
Import PyStr.

Fixpoint repeat_char (c : ascii) (n : nat) : string :=
  match n with
  | O => EmptyString
  | S n' => String c (repeat_char c n')
  end.

(** The extractor finds no text at urls mentioning "empty", 399
    characters at urls mentioning "short" and 400 characters elsewhere. *)
Definition page_text (url : string) : option string :=
  if contains "empty" url then None
  else if contains "short" url then Some (repeat_char "x" 399)
  else Some (repeat_char "x" 400).

Definition parsed_page (url : string) : Parsed.t :=
  {| Parsed.text := page_text url;
     Parsed.title := Some "Parsed title";
     Parsed.published_at := Some "2024-02-02";
     Parsed.language := None;
     Parsed.authors := Some [] |}.

(** The spider fails on a batch holding a url that mentions "boom";
    otherwise it fetches the urls of the batch and reports their number. *)
Definition spider (urls : list string) (w : World.t)
    : reply (gmap string Z) * World.t :=
  if existsb (contains "boom") urls then (Raise "ReactorNotRestartable", w)
  else (Return {[ "processed_count" := Z.of_nat (length urls) ]},
        foldl (fun w url => World.log_fetch url w) w urls).

Definition collaborators : Collaborators := {|
  sha1_hex := fun s => "sha1:" +:+ s;
  check_bracketed_host := fun _ => true;
  fetcher_get := fun url _ _ =>
    if contains "unreachable" url then Raise "ConnectionError"
    else Return (url, {[ "mime" := "text/html" ]});
  zstd_decompress := fun _ => None;
  extract_text := fun _ _ url => Return (parsed_page url);
  spider_importable := true;
  run_scrapy_spider := fun urls _ _ _ _ _ w => spider urls w;
  strftime_ymd := fun _ => "1970-01-01";
  fromisoformat := fun _ => None
|}.

Definition item (url : string) : DiscoveryItem.t :=
  {| DiscoveryItem.url := url;
     DiscoveryItem.canonical_url := url;
     DiscoveryItem.title := Some "Discovered title";
     DiscoveryItem.published_at := Some "2024-01-01";
     DiscoveryItem.language := Some "en";
     DiscoveryItem.authors := ["A. Writer"];
     DiscoveryItem.extra := ∅ |}.

Definition params (extra : gmap string extra_val) : BuilderParams.t :=
  {| BuilderParams.date_from := "2024-01-01";
     BuilderParams.date_to := "2024-01-31";
     BuilderParams.keywords := ["vaccine"; "mandate"];
     BuilderParams.extra := extra |}.

Definition sequential : gmap string extra_val :=
  {[ "use_concurrent_processing" := EBool false ]}.

Definition manifest : Manifest.t :=
  {| Manifest.source := "mediacloudcorpus"; Manifest.params := None;
     Manifest.history := []; Manifest.doc_count := 0 |}.

(** A service that refuses the first call and then reports no stories. *)
Definition flaky (n : nat) : reply (list Story.t * option string) :=
  match n with
  | O => Raise "HTTPError 403 Forbidden"
  | _ => Return ([], None)
  end.

(** [t] between double quotes *)
Definition quoted (t : string) : string :=
  Builder.dquote +:+ t +:+ Builder.dquote.

Definition story (url : string) (publish_date : option timestamp) : Story.t :=
  {| Story.url := Some url; Story.guid := None;
     Story.publish_date := publish_date; Story.title := Some "A story";
     Story.language := None; Story.author := None;
     Story.stories_id := None; Story.media_id := None;
     Story.media_name := None; Story.media_url := None;
     Story.collection := None; Story.collection_id := None |}.
End Demo.

(** ** Notions the statements below are phrased with *)

Module Notions.
Import PyStr.

(** [pat] occurs in [s] up to the case of letters. *)
Definition occurs_ci (pat s : string) : Prop :=
  exists pre mid post, s = pre +:+ mid +:+ post /\ lower mid = lower pat.

(** The wait the retry policy's table prescribes, read top to bottom. *)
Inductive prescribed_wait (error_str : string) : Z -> Prop :=
| wait_403 :
    occurs_ci "403" error_str -> prescribed_wait error_str 60
| wait_timeout :
    ~ occurs_ci "403" error_str ->
    occurs_ci "timeout" error_str \/ occurs_ci "read timed out" error_str ->
    prescribed_wait error_str 30
| wait_connection :
    ~ occurs_ci "403" error_str ->
    ~ occurs_ci "timeout" error_str ->
    ~ occurs_ci "read timed out" error_str ->
    occurs_ci "connection" error_str \/ occurs_ci "network" error_str ->
    prescribed_wait error_str 45
| wait_other :
    ~ occurs_ci "403" error_str ->
    ~ occurs_ci "timeout" error_str ->
    ~ occurs_ci "read timed out" error_str ->
    ~ occurs_ci "connection" error_str ->
    ~ occurs_ci "network" error_str ->
    prescribed_wait error_str 15.

(** [t] starts and ends with the quote [q]. *)
Definition wrapped (q t : string) : Prop :=
  (exists rest, t = q +:+ rest) /\ (exists front, t = front +:+ q).

(** A term that is already between double or single quotes. *)
Definition already_quoted (t : string) : Prop :=
  wrapped Builder.dquote t \/ wrapped Builder.squote t.

(** A term that reads as a query of its own: it holds " OR " or " AND ",
    whatever the case of the letters, or a parenthesis. *)
Definition holds_operator (t : string) : Prop :=
  occurs_ci " OR " t \/ occurs_ci " AND " t
  \/ occurs_ci "(" t \/ occurs_ci ")" t.

(** A setting that is at most, resp. at least, the rational [q]; [nan]
    is neither. *)
Definition at_most (x : pyfloat) (q : Q) : Prop :=
  match x with
  | Rational y => (y <= q)%Q
  | Infinity positive => positive = false
  | NaN => False
  end.

Definition at_least (x : pyfloat) (q : Q) : Prop :=
  match x with
  | Rational y => (q <= y)%Q
  | Infinity positive => positive = true
  | NaN => False
  end.

(** A value of [extra] that is a non-empty list, resp. mapping. *)
Definition nonempty_list (v : option extra_val) : bool :=
  match v with Some (EList (_ :: _)) => true | _ => false end.
Definition nonempty_map (v : option extra_val) : bool :=
  match v with Some (EMap (_ :: _)) => true | _ => false end.

(** A field the extractor or the discovery item supplied. *)
Definition supplied (v : option string) : bool :=
  match v with Some s => nonempty s | None => false end.

(** The test [k not in TRACKERS] of the list comprehension in
    [canonicalize]. *)
Definition kept_pair (kv : string * string) : bool :=
  bool_decide (fst kv ∉ Builder.TRACKERS).

(** Whether the pipeline gets as far as writing the document of a
    frontier entry: the fetch and the extraction return and the text has
    at least 400 characters. *)
Definition passes_gate `{Collaborators} (force_refresh : bool)
    (entry : string * string) : bool :=
  match Builder.fetch_raw (fst entry) (snd entry) force_refresh with
  | Return (raw_bytes, _, raw_ext) =>
      match Builder.parse_text raw_bytes raw_ext (fst entry) with
      | Return parsed =>
          let text := default EmptyString (Parsed.text parsed) in
          nonempty text && negb (Z.of_nat (String.length text) <? 400)
      | Raise _ => false
      end
  | Raise _ => false
  end.

(** The Python type of a sort key: a date, a string or the integer 0. *)
Inductive key_kind : Type := DateKey | TextKey | ZeroKey.

Definition kind_of (k : Builder.sort_key) : key_kind :=
  match k with
  | Builder.KeyTs (TsDate _) => DateKey
  | Builder.KeyTs (TsStr _) => TextKey
  | Builder.KeyZero => ZeroKey
  end.

Definition story_kind (s : Story.t) : key_kind :=
  kind_of (Builder.get_publish_timestamp s).

(** [descending a b]: [a] may come before [b] in the sorted result, its
    key being comparable with the key of [b] and not below it. *)
Definition descending (a b : Story.t) : Prop :=
  Builder.key_lt (Builder.get_publish_timestamp a)
    (Builder.get_publish_timestamp b) = Some false.
End Notions.

(** ** The discovery adapter as a whole (discover, lines 48-251) *)

From Stdlib Require Import Qround.
From stdpp Require Import pretty.

Local Open Scope Z_scope.

Module Discover.
Import PyStr Builder.

(** *** Literal test urls (lines 52-65) *)

(** The item built for the test url of index [i]; fields the constructor
    call leaves out keep their defaults (no language, no authors). *)
Definition test_item (params : BuilderParams.t) (i : nat) (url : string)
    : DiscoveryItem.t :=
  {| DiscoveryItem.url := url;
     DiscoveryItem.canonical_url := url;
     DiscoveryItem.title := Some ("Test Article " +:+ pretty (S i));
     DiscoveryItem.published_at := Some (BuilderParams.date_from params);
     DiscoveryItem.language := None;
     DiscoveryItem.authors := [];
     DiscoveryItem.extra := {[ "source" := EStr "test" ]} |}.

(** What [enumerate(test_urls)] runs over, when [test_urls] is truthy:
    the entries of a list, the characters of a string, the keys of a
    mapping; [None] for a truthy number, whose [len] is a [TypeError]. *)
Definition test_urls_of (v : extra_val) : option (list string) :=
  match v with
  | EList l => Some l
  | EStr s => Some (chars s)
  | EMap m => Some (map fst m)
  | ENone | EBool _ | EInt _ | ENum _ => None
  end.

(** *** Queries against the service, through the search cache
    (lines 89-192) *)

(** The search cache, restricted to the collection and date range of the
    call: the stories it holds for a query, fresh entries only. *)
Record gathered := {
  all_stories : list Story.t;
  cache : gmap string (list Story.t);
  api_calls : list (string * option string);  (* story_list(q, token) calls *)
  retry_waits : list Z;                       (* wait_for_retry calls *)
  polite_waits : nat                          (* wait_if_needed calls *)
}.

Definition gathered_start (cache : gmap string (list Story.t)) : gathered :=
  {| all_stories := []; cache := cache; api_calls := [];
     retry_waits := []; polite_waits := 0 |}.

(** Modelled from the spec: the search cache's
    [getSearchResults(query, ...) -> results?], a miss being [None]
    ([MediaCloudSearchCache] is not among the sources). *)
Definition get_search_results (q : string) (g : gathered)
    : option (list Story.t) :=
  cache g !! q.

(** Modelled from the spec: the search cache's
    [cacheSearchResults(query, ..., results)]. *)
Definition cache_search_results (q : string) (stories : list Story.t)
    (c : gmap string (list Story.t)) : gmap string (list Story.t) :=
  <[ q := stories ]> c.

(** The body of [for q in queries]; [None] when the pagination loop is
    still running after [fuel] passes. *)
Definition gather_query (fuel : nat) (use_cache : bool)
    (max_stories : option Z) (collection_name : string)
    (collection_id : extra_val)
    (story_list : string -> nat -> reply (list Story.t * option string))
    (q : string) (g : gathered) : option gathered :=
  match (if use_cache then get_search_results q g else None) with
  | Some cached_stories =>
      Some {| all_stories := all_stories g ++ cached_stories;
              cache := cache g; api_calls := api_calls g;
              retry_waits := retry_waits g; polite_waits := polite_waits g |}
  | None =>
      let st := paginate fuel max_stories (length (all_stories g))
                  collection_name collection_id (story_list q) page_start in
      if more_stories st then None
      else
        Some {| all_stories := all_stories g ++ query_stories st;
                cache :=
                  match query_stories st with
                  | [] => cache g
                  | _ => if use_cache
                         then cache_search_results q (query_stories st) (cache g)
                         else cache g
                  end;
                api_calls := api_calls g ++ map (fun t => (q, t)) (calls st);
                retry_waits := retry_waits g ++ waits st;
                polite_waits := S (polite_waits g) |}
  end.

Fixpoint gather (fuel : nat) (use_cache : bool) (max_stories : option Z)
    (collection_name : string) (collection_id : extra_val)
    (story_list : string -> nat -> reply (list Story.t * option string))
    (queries : list string) (g : gathered) : option gathered :=
  match queries with
  | [] => Some g
  | q :: rest =>
      match gather_query fuel use_cache max_stories collection_name
              collection_id story_list q g with
      | Some g' =>
          gather fuel use_cache max_stories collection_name collection_id
            story_list rest g'
      | None => None
      end
  end.

(** The cap that [max_stories and n >= max_stories] tests a count [n]
    against: none for an absent or falsy value; the value itself for an
    integer; for a finite float, the least integer at or above it, or
    [-1] for a negative one, which every count reaches, as it reaches
    [-inf]; none for [inf] and [nan], which no count reaches.  The outer
    [None] is a
    truthy value that has no order with an integer, on which the test is
    a [TypeError]. *)
Definition max_stories_of (extra : gmap string extra_val)
    : option (option Z) :=
  match extra !! "max_stories" with
  | None => Some None
  | Some v =>
      if truthy v then
        match v with
        | EInt n => Some (Some n)
        | EBool _ => Some (Some 1)
        | ENum (Rational q) =>
            Some (Some (if Qlt_bool q 0 then -1 else Qceiling q))
        | ENum (Infinity positive) =>
            Some (if positive then None else Some (-1))
        | ENum NaN => Some None
        | ENone | EStr _ | EList _ | EMap _ => None
        end
      else Some None
  end.

Section Adapter.
Context `{Collaborators}.
(** The builder's own [collection_id] and [collection_name], Python's
    [str] on a configured value, and the service: what [story_list] does
    on the call number [n] made for a query. *)
Variables (self_collection_id : option extra_val)
          (self_collection_name : option string)
          (py_str : extra_val -> string)
          (story_list : string -> nat -> reply (list Story.t * option string)).

(** [self.collection_name or extra.get('collection_name', str(collection_id))],
    a configured name being a string *)
Definition collection_name_of (extra : gmap string extra_val)
    (collection_id : extra_val) : string :=
  match self_collection_name with
  | Some s => if nonempty s then s
              else match extra !! "collection_name" with
                   | Some (EStr n) => n
                   | _ => py_str collection_id
                   end
  | None => match extra !! "collection_name" with
            | Some (EStr n) => n
            | _ => py_str collection_id
            end
  end.

(** [list(self.discover(params))]: the items, or the exception; the outer
    [None] when a pagination loop is still running after [fuel] passes.
    Dates are taken as valid ([ensure_date] returns). *)
Definition discover (fuel : nat) (params : BuilderParams.t)
    (cache : gmap string (list Story.t))
    : option (reply (list DiscoveryItem.t) * gathered) :=
  let extra := BuilderParams.extra params in
  let idle := gathered_start cache in
  match or_val (extra !! "test_urls") None with
  | Some v =>
      match test_urls_of v with
      | Some urls => Some (Return (imap (test_item params) urls), idle)
      | None => Some (Raise "TypeError", idle)
      end
  | None =>
      let queries := _prepare_queries params in
      match or_val self_collection_id (extra !! "collection_id") with
      | Some collection_id =>
          if truthy collection_id then
            let use_cache := negb (flag extra "force_refresh_cache" false) in
            let gathering max_stories :=
              match gather fuel use_cache max_stories
                      (collection_name_of extra collection_id) collection_id
                      story_list queries idle with
              | Some g => Some (discover_items (all_stories g), g)
              | None => None
              end in
            match max_stories_of extra with
            | Some max_stories => gathering max_stories
            | None =>
                (* the first query that misses the cache raises *)
                if forallb (fun q => use_cache
                                     && bool_decide (is_Some (cache !! q)))
                     queries
                then gathering None
                else Some (Raise "TypeError", idle)
            end
          else
            Some (Raise "collection_id must be provided either in constructor or params.extra",
                  idle)
      | None =>
          Some (Raise "collection_id must be provided either in constructor or params.extra",
                idle)
      end
  end.
End Adapter.
End Discover.

(** ** Entry of the run (run, lines 423-438) *)

Module Entry.

(** The keys an override may carry. *)
Record override := {
  keywords : option (list string);
  date_from : option string;
  date_to : option string;
  extra : option (gmap string extra_val)
}.

(** The parameters rebuilt from [params.__dict__] with the keys of the
    override on top. *)
Definition merge (params : BuilderParams.t) (o : override) : BuilderParams.t :=
  {| BuilderParams.date_from :=
       default (BuilderParams.date_from params) (date_from o);
     BuilderParams.date_to := default (BuilderParams.date_to params) (date_to o);
     BuilderParams.keywords :=
       default (BuilderParams.keywords params) (keywords o);
     BuilderParams.extra := default (BuilderParams.extra params) (extra o) |}.

(** [if override:], an override with no key being an empty mapping *)
Definition given (o : override) : bool :=
  bool_decide (is_Some (keywords o)) || bool_decide (is_Some (date_from o))
  || bool_decide (is_Some (date_to o)) || bool_decide (is_Some (extra o)).

(** The effective parameters of a run (lines 424-432): those given or
    else the manifest's, with the override on top.  The import of line
    427 makes [BuilderParams] a local name of [run], bound only where the
    parameters come from the manifest: with parameters given, applying a
    non-empty override is an [UnboundLocalError]. *)
Definition resolve_params (params : option BuilderParams.t)
    (manifest : option Manifest.t) (o : option override)
    : reply BuilderParams.t :=
  let overridden := match o with Some o => given o | None => false end in
  match params with
  | Some p => if overridden then Raise "UnboundLocalError" else Return p
  | None =>
      match manifest with
      | None => Raise "No manifest found; first run must provide params."
      | Some m =>
          match Manifest.params m with
          | Some p =>
              match o with
              | Some o => Return (merge p o)
              | None => Return p
              end
          | None => Raise "KeyError: 'params'"
          end
      end
  end.

(** Modelled from the spec: the manifest is loaded at run start, or
    initialized if absent; this is the manifest of a corpus that has none
    yet, once [run] has filled in the source name. *)
Definition fresh_manifest : Manifest.t :=
  {| Manifest.source := "mediacloudcorpus"; Manifest.params := None;
     Manifest.history := []; Manifest.doc_count := 0 |}.

(** [run(params=..., override=...)] given what [discover] yields for the
    effective parameters; the manifest is the one last saved. *)
Definition run_entry `{Collaborators}
    (discovered : BuilderParams.t -> reply (list DiscoveryItem.t))
    (params : option BuilderParams.t) (o : option override) (w : World.t)
    : reply run_return * World.t :=
  match resolve_params params (World.saved w) o with
  | Raise e => (Raise e, w)
  | Return p =>
      match discovered p with
      | Raise e => (Raise e, w)
      | Return found =>
          Builder.run found p (default fresh_manifest (World.saved w)) w
      end
  end.

End Entry.

(** ** Further notions for the statements below *)

Module MoreNotions.
Import PyStr Builder.

(** What stops a frontier entry short of the quality gate: the text of
    the exception raised by the fetch or by the extraction. *)
Definition failure_of `{Collaborators} (force_refresh : bool)
    (entry : string * string) : option string :=
  match fetch_raw (fst entry) (snd entry) force_refresh with
  | Raise e => Some e
  | Return (raw_bytes, _, raw_ext) =>
      match parse_text raw_bytes raw_ext (fst entry) with
      | Raise e => Some e
      | Return _ => None
      end
  end.

(** The test an item passes to survive both blacklists. *)
Definition allowed `{Collaborators} (params : BuilderParams.t)
    (item : DiscoveryItem.t) : bool :=
  negb (_is_domain_blacklisted (DiscoveryItem.url item)
          (string_list (BuilderParams.extra params !! "domain_blacklist")))
  && negb (_is_url_blacklisted (DiscoveryItem.url item)
             (string_list (BuilderParams.extra params !! "url_blacklist"))).

(** The collaborators with another spider in place of theirs. *)
Definition with_spider (C : Collaborators)
    (spider : list string -> BuilderParams.t -> gmap string DiscoveryItem.t ->
              pyfloat -> pyfloat -> bool -> World.t ->
              reply (gmap string Z) * World.t) : Collaborators :=
  {| sha1_hex := sha1_hex (Collaborators := C);
     check_bracketed_host := check_bracketed_host (Collaborators := C);
     fetcher_get := fetcher_get (Collaborators := C);
     zstd_decompress := zstd_decompress (Collaborators := C);
     extract_text := extract_text (Collaborators := C);
     spider_importable := spider_importable (Collaborators := C);
     run_scrapy_spider := spider;
     strftime_ymd := strftime_ymd (Collaborators := C);
     fromisoformat := fromisoformat (Collaborators := C) |}.

(** The collaborators at a later time: hashing, parsing and formatting
    are functions of their arguments, while the fetcher and the text
    extractor may answer a url otherwise than they did before. *)
Definition later (C : Collaborators)
    (fetch : string -> string -> bool -> reply (string * gmap string string))
    (extract : string -> string -> string -> reply Parsed.t) : Collaborators :=
  {| sha1_hex := sha1_hex (Collaborators := C);
     check_bracketed_host := check_bracketed_host (Collaborators := C);
     fetcher_get := fetch;
     zstd_decompress := zstd_decompress (Collaborators := C);
     extract_text := extract;
     spider_importable := spider_importable (Collaborators := C);
     run_scrapy_spider := run_scrapy_spider (Collaborators := C);
     strftime_ymd := strftime_ymd (Collaborators := C);
     fromisoformat := fromisoformat (Collaborators := C) |}.

(** A story the conversion keeps: it has a url or, failing that, a guid,
    and its title is a string. *)
Definition kept_story (s : Story.t) : bool :=
  (Notions.supplied (Story.url s) || Notions.supplied (Story.guid s))
  && bool_decide (is_Some (Story.title s)).

(** A string that does not start with a character of the class [f]. *)
Definition head_ok (f : ascii -> bool) (s : string) : bool :=
  match s with
  | EmptyString => true
  | String c _ => negb (f c)
  end.

(** A string with no white space at either end. *)
Definition trimmed (s : string) : bool :=
  head_ok PyStr.is_space s && head_ok PyStr.is_space (PyStr.reverse s).

(** A blacklist of [extra] is absent, a list of strings or a value the
    filters make nothing of; a non-empty string or mapping, which Python
    would iterate over as patterns, is not. *)
Definition blacklist_is_list (v : option extra_val) : bool :=
  match v with
  | Some (EStr (String _ _)) | Some (EMap (_ :: _)) => false
  | _ => true
  end.

Definition blacklists_are_lists (params : BuilderParams.t) : bool :=
  blacklist_is_list (BuilderParams.extra params !! "domain_blacklist")
  && blacklist_is_list (BuilderParams.extra params !! "url_blacklist").

(** The token the loop hands to the service on its call number [n] for
    a query: none on the first call, then the token that came with the
    last answer. *)
Fixpoint token_for (story_list : nat -> reply (list Story.t * option string))
    (n : nat) : option string :=
  match n with
  | O => None
  | S n' =>
      match story_list n' with
      | Return (_, token) => token
      | Raise _ => token_for story_list n'
      end
  end.

(** The stories of the answers to the first [n] calls, in order. *)
Definition returned (story_list : nat -> reply (list Story.t * option string))
    (n : nat) : list Story.t :=
  flat_map (fun i => match story_list i with
                     | Return (pages, _) => pages
                     | Raise _ => []
                     end) (seq 0 n).

(** The waits the retry policy prescribes for the failures among the
    first [n] calls. *)
Definition waits_for (story_list : nat -> reply (list Story.t * option string))
    (n : nat) : list Z :=
  omap (fun i => match story_list i with
                 | Raise error_str => Some (Retry.retry_wait error_str)
                 | Return _ => None
                 end) (seq 0 n).

(** What holds of the state of the pagination loop between two passes:
    the calls made so far carried the tokens of [token_for], the next
    call will, the waits are those of the failures, and the stories kept
    are the first of those returned, all of them while the loop runs or
    when no cap is set. *)
Definition threaded (max_stories : option Z) (collection_name : string)
    (collection_id : extra_val)
    (story_list : nat -> reply (list Story.t * option string))
    (st : page_state) : Prop :=
  let n := length (calls st) in
  calls st = map (token_for story_list) (seq 0 n)
  /\ pagination_token st = token_for story_list n
  /\ waits st = waits_for story_list n
  /\ query_stories st
     `prefix_of` map (tag_story collection_name collection_id)
                   (returned story_list n)
  /\ (more_stories st = true \/ max_stories = None ->
      query_stories st
      = map (tag_story collection_name collection_id) (returned story_list n)).

(** A call that ends the pagination: it comes back with no story or
    with no token for a next page. *)
Definition last_page (answer : reply (list Story.t * option string)) : bool :=
  match answer with
  | Return ([], _) | Return (_, None) => true
  | _ => false
  end.

(** A service that answers call [n] with the page [n] of a listing and a
    token for the next page, the last page excepted. *)
Definition listing (pages : list (list Story.t)) (n : nat)
    : reply (list Story.t * option string) :=
  match pages !! n with
  | Some page =>
      Return (page, if decide (S n < length pages)%nat
                    then Some (pretty (S n)) else None)
  | None => Return ([], None)
  end.

(** A service that is down. *)
Definition down (error_str : string) (n : nat)
    : reply (list Story.t * option string) :=
  Raise error_str.

End MoreNotions.

(** ** Sample inputs *)

Module Samples.

(** A domain pattern in capitals, a url pattern and the sequential
    mode. *)
Definition choosy : gmap string extra_val :=
  {[ "domain_blacklist" := EList ["X.COM"];
     "url_blacklist" := EList ["/ads/"];
     "use_concurrent_processing" := EBool false ]}.

Definition finds : list DiscoveryItem.t :=
  [Demo.item "https://x.com/long"; Demo.item "https://y.org/Ads/1";
   Demo.item "https://y.org/long"].

(** A service with one page of one story for every query, and a cache
    that holds another story for the query of [Demo.params]. *)
Definition one_page (q : string) : nat -> reply (list Story.t * option string) :=
  MoreNotions.listing [[Demo.story "https://x.com/1" None]].

Definition cached_story : Story.t := Demo.story "https://x.com/0" None.

Definition warm_cache : gmap string (list Story.t) :=
  {[ "(" +:+ Demo.quoted "vaccine" +:+ " OR " +:+ Demo.quoted "mandate" +:+ ")"
     := [cached_story] ]}.

Definition in_collection : gmap string extra_val :=
  {[ "collection_id" := EInt 7 ]}.

(** The collaborators of [Demo] on a machine without the spider module. *)
Definition no_spider : Collaborators := {|
  sha1_hex := sha1_hex (Collaborators := Demo.collaborators);
  check_bracketed_host :=
    check_bracketed_host (Collaborators := Demo.collaborators);
  fetcher_get := fetcher_get (Collaborators := Demo.collaborators);
  zstd_decompress := zstd_decompress (Collaborators := Demo.collaborators);
  extract_text := extract_text (Collaborators := Demo.collaborators);
  spider_importable := false;
  run_scrapy_spider :=
    run_scrapy_spider (Collaborators := Demo.collaborators);
  strftime_ymd := strftime_ymd (Collaborators := Demo.collaborators);
  fromisoformat := fromisoformat (Collaborators := Demo.collaborators)
|}.

Definition shuffled_url : string :=
  "  HTTPS://User@X.com:8080/a?b=1&utm_source=mail&a=2#top".

Definition literal_urls : gmap string extra_val :=
  {[ "test_urls" := EList ["https://x.com/long"; "https://x.com/short"] ]}.

End Samples.

(** * Properties *)

(** ** Facts about the string primitives *)

Module StrFacts.
Import PyStr Notions.

Lemma append_nil (t : string) : EmptyString +:+ t = t.
Proof. reflexivity. Qed.

Lemma append_cons (c : ascii) (s t : string) :
  String c s +:+ t = String c (s +:+ t).
Proof. reflexivity. Qed.

Ltac push_append := rewrite ?append_cons, ?append_nil in *.

Lemma append_empty_r (s : string) : s +:+ EmptyString = s.
Proof. induction s as [|c s IH]; push_append; [reflexivity | now f_equal]. Qed.

Lemma append_assoc (a b c : string) : (a +:+ b) +:+ c = a +:+ (b +:+ c).
Proof. induction a as [|x a IH]; push_append; [reflexivity | now f_equal]. Qed.

Lemma startswith_iff (p s : string) :
  startswith p s = true <-> exists post, s = p +:+ post.
Proof.
  revert s; induction p as [|a p IH]; intros s; simpl.
  - split; [intros _; now exists s | reflexivity].
  - destruct s as [|b s].
    + split; [discriminate | intros [post Hpost]; discriminate].
    + destruct (Ascii.eqb_spec a b) as [->|Hne].
      * rewrite IH. split; intros [post Hpost]; exists post; push_append.
        -- now rewrite Hpost.
        -- now injection Hpost.
      * split; [discriminate |].
        intros [post Hpost]; push_append; injection Hpost as Hb _; congruence.
Qed.

Lemma contains_iff (p s : string) :
  contains p s = true <-> exists pre post, s = pre +:+ p +:+ post.
Proof.
  induction s as [|c s IH].
  - cbn [contains]. rewrite orb_false_r, startswith_iff. split.
    + intros [post Hpost]. now exists EmptyString, post.
    + intros [[|x pre] [post Hpost]]; push_append;
        [now exists post | discriminate].
  - cbn [contains]. rewrite orb_true_iff, startswith_iff, IH. split.
    + intros [[post Hpost] | (pre & post & Hs)].
      * now exists EmptyString, post.
      * exists (String c pre), post. push_append. now rewrite Hs.
    + intros ([|x pre] & post & Hs); push_append.
      * left. now exists post.
      * right. exists pre, post. now injection Hs.
Qed.

Lemma lower_app (a b : string) : lower (a +:+ b) = lower a +:+ lower b.
Proof.
  unfold lower. induction a as [|x a IH]; push_append; simpl; push_append;
    [reflexivity | now f_equal].
Qed.

Lemma lower_split (s x y : string) :
  lower s = x +:+ y ->
  exists a b, s = a +:+ b /\ lower a = x /\ lower b = y.
Proof.
  revert s; induction x as [|c x IH]; intros s Hs.
  - now exists EmptyString, s.
  - destruct s as [|d s]; [discriminate |].
    unfold lower in Hs; simpl in Hs. push_append. injection Hs as Hc Hrest.
    destruct (IH s Hrest) as (a & b & -> & Ha & Hb).
    exists (String d a), b. repeat split; [| exact Hb].
    unfold lower; simpl. now rewrite Hc, <- Ha.
Qed.

(** The case-blind occurrence is what [pat.lower() in s.lower()] tests. *)
Lemma occurs_ci_iff (pat s : string) :
  occurs_ci pat s <-> contains (lower pat) (lower s) = true.
Proof.
  rewrite contains_iff. split.
  - intros (pre & mid & post & -> & Hmid).
    exists (lower pre), (lower post).
    now rewrite !lower_app, Hmid.
  - intros (pre & post & Hs).
    destruct (lower_split _ _ _ Hs) as (a & b & -> & _ & Hb).
    destruct (lower_split _ _ _ Hb) as (m & c & -> & Hm & _).
    now exists a, m, c.
Qed.

Lemma upper_app (a b : string) : upper (a +:+ b) = upper a +:+ upper b.
Proof.
  unfold upper. induction a as [|x a IH]; push_append; simpl; push_append;
    [reflexivity | now f_equal].
Qed.

Lemma upper_split (s x y : string) :
  upper s = x +:+ y ->
  exists a b, s = a +:+ b /\ upper a = x /\ upper b = y.
Proof.
  revert s; induction x as [|c x IH]; intros s Hs.
  - now exists EmptyString, s.
  - destruct s as [|d s]; [discriminate |].
    unfold upper in Hs; simpl in Hs. push_append. injection Hs as Hc Hrest.
    destruct (IH s Hrest) as (a & b & -> & Ha & Hb).
    exists (String d a), b. repeat split; [| exact Hb].
    unfold upper; simpl. now rewrite Hc, <- Ha.
Qed.

(** Putting a text in upper case and then in lower case is putting it in
    lower case, and the other way round. *)
Lemma lower_upper (s : string) : lower (upper s) = lower s.
Proof.
  unfold lower, upper. induction s as [|c s IH]; [reflexivity |].
  simpl. rewrite IH. f_equal.
  destruct c as [[] [] [] [] [] [] [] []]; vm_compute; reflexivity.
Qed.

Lemma upper_lower (s : string) : upper (lower s) = upper s.
Proof.
  unfold lower, upper. induction s as [|c s IH]; [reflexivity |].
  simpl. rewrite IH. f_equal.
  destruct c as [[] [] [] [] [] [] [] []]; vm_compute; reflexivity.
Qed.

(** For a pattern in upper case, [pat in s.upper()] is the case-blind
    occurrence. *)
Lemma occurs_ci_upper (pat s : string) :
  upper pat = pat ->
  occurs_ci pat s <-> contains pat (upper s) = true.
Proof.
  intros Hpat. rewrite contains_iff. split.
  - intros (pre & mid & post & -> & Hmid).
    exists (upper pre), (upper post). rewrite !upper_app. do 2 f_equal.
    now rewrite <- (upper_lower mid), Hmid, upper_lower.
  - intros (pre & post & Hs).
    destruct (upper_split _ _ _ Hs) as (a & b & -> & _ & Hb).
    destruct (upper_split _ _ _ Hb) as (m & c & -> & Hm & _).
    exists a, m, c. split; [reflexivity |].
    now rewrite <- (lower_upper m), Hm.
Qed.

Lemma rev_str_app (s acc : string) : rev_str acc s = reverse s +:+ acc.
Proof.
  unfold reverse. revert acc; induction s as [|c s IH]; intros acc.
  - reflexivity.
  - cbn [rev_str]. rewrite (IH (String c acc)), (IH (String c EmptyString)).
    now rewrite append_assoc, append_cons, append_nil.
Qed.

Lemma reverse_cons (c : ascii) (s : string) :
  reverse (String c s) = reverse s +:+ String c EmptyString.
Proof. unfold reverse at 1. cbn [rev_str]. apply rev_str_app. Qed.

Lemma reverse_app (a b : string) : reverse (a +:+ b) = reverse b +:+ reverse a.
Proof.
  induction a as [|c a IH].
  - now rewrite append_nil, append_empty_r.
  - now rewrite append_cons, !reverse_cons, IH, append_assoc.
Qed.

Lemma reverse_involutive (s : string) : reverse (reverse s) = s.
Proof.
  induction s as [|c s IH]; [reflexivity |].
  rewrite reverse_cons, reverse_app, IH. reflexivity.
Qed.

Lemma endswith_iff (p s : string) :
  endswith p s = true <-> exists front, s = front +:+ p.
Proof.
  unfold endswith. rewrite startswith_iff. split.
  - intros [post Hpost]. exists (reverse post).
    now rewrite <- (reverse_involutive s), Hpost, reverse_app,
      reverse_involutive.
  - intros [front ->]. exists (reverse front). apply reverse_app.
Qed.

(** The two quote tests of [_quote_term]. *)
Lemma wrapped_iff (q t : string) :
  wrapped q t <-> startswith q t && endswith q t = true.
Proof.
  unfold wrapped. now rewrite andb_true_iff, startswith_iff, endswith_iff.
Qed.

Lemma lower_char_digit (c d : ascii) :
  is_digit d = true -> lower_char c = d -> c = d.
Proof.
  intros Hd <-. unfold lower_char in *.
  destruct (is_upper c) eqn:Hu; [| reflexivity].
  exfalso. revert Hu Hd.
  destruct c as [[] [] [] [] [] [] [] []]; vm_compute; congruence.
Qed.

(** Digits have no case: for "403" the plain test of the source is the
    case-blind one. *)
Lemma occurs_403 (s : string) :
  occurs_ci "403" s <-> contains "403" s = true.
Proof.
  rewrite contains_iff. split.
  - intros (pre & mid & post & -> & Hmid). exists pre, post.
    destruct mid as [|a [|b [|c [|d mid]]]]; try discriminate.
    unfold lower in Hmid; simpl in Hmid. injection Hmid as Ha Hb Hc.
    apply lower_char_digit in Ha, Hb, Hc; try reflexivity.
    now subst.
  - intros (pre & post & ->). now exists pre, "403", post.
Qed.

(** [<] on strings is a strict total order. *)
Lemma code_inj (x y : ascii) : code x = code y -> x = y.
Proof.
  unfold code. intros Hxy.
  rewrite <- (ascii_N_embedding x), <- (ascii_N_embedding y). now rewrite Hxy.
Qed.

Lemma ltb_irrefl (a : string) : ltb a a = false.
Proof.
  induction a as [|x a IH]; simpl; [reflexivity |].
  now rewrite N.ltb_irrefl.
Qed.

Lemma ltb_trans (a b c : string) :
  ltb a b = true -> ltb b c = true -> ltb a c = true.
Proof.
  revert b c; induction a as [|x a IH]; intros [|y b] [|z c]; simpl;
    try discriminate; try reflexivity.
  destruct (N.ltb_spec (code x) (code y)), (N.ltb_spec (code y) (code x)),
    (N.ltb_spec (code y) (code z)), (N.ltb_spec (code z) (code y)),
    (N.ltb_spec (code x) (code z)), (N.ltb_spec (code z) (code x));
    try discriminate; try reflexivity; try lia.
  apply IH.
Qed.

Lemma ltb_total (a b : string) :
  ltb a b = false -> ltb b a = false -> a = b.
Proof.
  revert b; induction a as [|x a IH]; intros [|y b]; simpl;
    try discriminate; try reflexivity.
  destruct (N.ltb_spec (code x) (code y)), (N.ltb_spec (code y) (code x));
    try discriminate; try lia.
  intros Hab Hba. f_equal; [apply code_inj; lia | now apply IH].
Qed.

End StrFacts.

(** ** Rate limiter / retry policy *)

Module RetryFacts.
Import PyStr Notions StrFacts Builder.

Lemma occurs_lowercase (pat s : string) :
  lower pat = pat ->
  occurs_ci pat s <-> contains pat (lower s) = true.
Proof. intros Hpat. now rewrite occurs_ci_iff, Hpat. Qed.

Lemma not_true_iff (P : Prop) (b : bool) : (P <-> b = true) -> b = false -> ~ P.
Proof. intros HP Hb HP'. apply HP in HP'. congruence. Qed.

(** The handler's wait is the one the table prescribes. *)
Lemma retry_wait_prescribed (error_str : string) :
  prescribed_wait error_str (Retry.retry_wait error_str).
Proof.
  pose proof (occurs_403 error_str) as H403.
  pose proof (occurs_lowercase "timeout" error_str eq_refl) as Hto.
  pose proof (occurs_lowercase "read timed out" error_str eq_refl) as Hrt.
  pose proof (occurs_lowercase "connection" error_str eq_refl) as Hco.
  pose proof (occurs_lowercase "network" error_str eq_refl) as Hnw.
  unfold Retry.retry_wait.
  destruct (contains "403" error_str) eqn:E403.
  { apply wait_403. now apply H403. }
  pose proof (not_true_iff _ _ H403 eq_refl) as N403.
  destruct (contains "timeout" (lower error_str)) eqn:Eto; cbn [orb].
  { apply wait_timeout; [exact N403 | left; now apply Hto]. }
  pose proof (not_true_iff _ _ Hto eq_refl) as Nto.
  destruct (contains "read timed out" (lower error_str)) eqn:Ert.
  { apply wait_timeout; [exact N403 | right; now apply Hrt]. }
  pose proof (not_true_iff _ _ Hrt eq_refl) as Nrt.
  destruct (contains "connection" (lower error_str)) eqn:Eco; cbn [orb].
  { apply wait_connection; auto. left; now apply Hco. }
  pose proof (not_true_iff _ _ Hco eq_refl) as Nco.
  destruct (contains "network" (lower error_str)) eqn:Enw.
  { apply wait_connection; auto. right; now apply Hnw. }
  pose proof (not_true_iff _ _ Hnw eq_refl) as Nnw.
  now apply wait_other.
Qed.

(** The table prescribes one wait only. *)
Lemma prescribed_wait_unique (error_str : string) (a b : Z) :
  prescribed_wait error_str a -> prescribed_wait error_str b -> a = b.
Proof.
  intros Ha Hb; inversion Ha; inversion Hb; subst; try reflexivity; tauto.
Qed.

(** An iteration that reaches the service hands it the current token. *)
Lemma page_iteration_calls max_stories n_all collection_name collection_id
    story_list st :
  limit_reached max_stories n_all (query_stories st) = false ->
  calls (page_iteration max_stories n_all collection_name collection_id
           story_list st)
  = calls st ++ [pagination_token st].
Proof.
  intros Hlimit. unfold page_iteration. rewrite Hlimit.
  destruct (story_list (length (calls st))) as [e | [pages token]];
    [reflexivity |].
  destruct pages; [reflexivity |].
  now destruct (append_pages _ _ _ _ _ _).
Qed.

(** C6: the wait after a failed discovery call is the one the table
    prescribes for the text of the error, matched without regard to case
    and first row first (403: 60 s; timeout or read timed out: 30 s;
    connection or network: 45 s; anything else: 15 s); the iteration
    leaves the token, the stories gathered and the loop flag as they
    were, so the next call asks for the same page again. *)
Theorem retry_policy_waits_and_retries
    (error_str : string) (max_stories : option Z) (n_all : nat)
    (collection_name : string) (collection_id : extra_val)
    (story_list : nat -> reply (list Story.t * option string))
    (st : page_state) :
  (forall secs : Z,
      prescribed_wait error_str secs <-> secs = Retry.retry_wait error_str) /\
  (limit_reached max_stories n_all (query_stories st) = false ->
   story_list (length (calls st)) = Raise error_str ->
   let st' := page_iteration max_stories n_all collection_name collection_id
                story_list st in
   waits st' = waits st ++ [Retry.retry_wait error_str] /\
   pagination_token st' = pagination_token st /\
   query_stories st' = query_stories st /\
   more_stories st' = more_stories st /\
   calls (page_iteration max_stories n_all collection_name collection_id
            story_list st')
   = calls st ++ [pagination_token st; pagination_token st]).
Proof.
  split.
  - intros secs; split.
    + intros Hsecs.
      exact (prescribed_wait_unique _ _ _ Hsecs (retry_wait_prescribed _)).
    + intros ->. apply retry_wait_prescribed.
  - intros Hlimit Hraise st'.
    assert (Hst' : st' =
      {| query_stories := query_stories st;
         pagination_token := pagination_token st;
         more_stories := more_stories st;
         api_call_count := S (api_call_count st);
         calls := calls st ++ [pagination_token st];
         waits := waits st ++ [Retry.retry_wait error_str] |}).
    { subst st'. unfold page_iteration. now rewrite Hlimit, Hraise. }
    rewrite page_iteration_calls; rewrite Hst'; cbn; try assumption.
    repeat split. now rewrite <- app_assoc.
Qed.

Lemma retry_policy_waits_and_retries_witness :
  prescribed_wait "HTTPError 403 Forbidden" 60 /\
  waits (page_iteration None 0 "news" (EInt 7) Demo.flaky page_start) = [60] /\
  calls (page_iteration None 0 "news" (EInt 7) Demo.flaky
           (page_iteration None 0 "news" (EInt 7) Demo.flaky page_start)) = [None; None].
Proof.
  destruct (retry_policy_waits_and_retries
              "HTTPError 403 Forbidden" None 0 "news" (EInt 7) Demo.flaky
              page_start)
    as [Htable Hretry].
  split; [apply Htable; reflexivity |].
  destruct (Hretry eq_refl eq_refl) as (Hw & _ & _ & _ & Hc).
  split; [exact Hw | exact Hc].
Defined.

End RetryFacts.

(** ** Query compilation *)

Module QueryFacts.
Import PyStr Notions Builder.

(** A term is never dropped by [_quote_term]: it comes back stripped,
    either as it is or between double quotes with inner quotes escaped. *)
Lemma _quote_term_cases (term : string) :
  _quote_term term = strip term \/
  _quote_term term
  = dquote +:+ replace_char "034" (backslash +:+ dquote) (strip term) +:+ dquote.
Proof.
  unfold _quote_term.
  destruct (existsb _ _); [now left |].
  destruct (_ || _); [now left | now right].
Qed.

Lemma queries_take_precedence (params : BuilderParams.t) (qs : list string) :
  BuilderParams.extra params !! "queries" = Some (EList qs) ->
  nonempty_list (BuilderParams.extra params !! "queries") = true ->
  _prepare_queries params
  = map strip (filter (fun q => nonempty (strip q)) qs).
Proof.
  intros Hq Hne. unfold _prepare_queries. rewrite Hq in *.
  destruct qs; [discriminate | reflexivity].
Qed.

Lemma keywords_map_second (params : BuilderParams.t)
    (m : list (string * list string)) :
  nonempty_list (BuilderParams.extra params !! "queries") = false ->
  BuilderParams.extra params !! "keywords" = Some (EMap m) ->
  nonempty_map (BuilderParams.extra params !! "keywords") = true ->
  _prepare_queries params = [_compile_keywords_map_to_query m].
Proof.
  intros Hq Hk Hne. unfold _prepare_queries. rewrite Hk in *.
  destruct m; [discriminate |].
  destruct (BuilderParams.extra params !! "queries") as [[| | | | |[|]|]|];
    try reflexivity; discriminate.
Qed.

Lemma flat_keywords_last (params : BuilderParams.t) :
  nonempty_list (BuilderParams.extra params !! "queries") = false ->
  nonempty_map (BuilderParams.extra params !! "keywords") = false ->
  _prepare_queries params
  = match quoted_terms (BuilderParams.keywords params) with
    | [] => []
    | terms => [or_group terms]
    end.
Proof.
  intros Hq Hk. unfold _prepare_queries.
  destruct (BuilderParams.extra params !! "queries") as [[| | | | |[|]|]|];
    try discriminate;
    destruct (BuilderParams.extra params !! "keywords") as [[| | | | | |[|]]|];
    try discriminate;
    now destruct (BuilderParams.keywords params).
Qed.

(** The operator test of [_quote_term] is the case-blind occurrence of
    one of its four patterns. *)
Lemma holds_operator_iff (t : string) :
  holds_operator t
  <-> existsb (fun op => contains op (upper t)) [" OR "; " AND "; "("; ")"]
      = true.
Proof.
  unfold holds_operator. cbn [existsb].
  rewrite !orb_true_iff.
  rewrite !(StrFacts.occurs_ci_upper _ t) by reflexivity.
  assert (Hnever : false = true <-> False) by (split; [discriminate | tauto]).
  rewrite Hnever. tauto.
Qed.

Lemma already_quoted_iff (t : string) :
  already_quoted t
  <-> (startswith dquote t && endswith dquote t)
      || (startswith squote t && endswith squote t) = true.
Proof.
  unfold already_quoted. now rewrite orb_true_iff, !StrFacts.wrapped_iff.
Qed.

(** What [_quote_term] does to a term. *)
Lemma quote_term_behaviour (term : string) :
  let t := strip term in
  (holds_operator t \/ already_quoted t -> _quote_term term = t)
  /\ (~ holds_operator t -> ~ already_quoted t ->
      _quote_term term
      = dquote +:+ replace_char "034" (backslash +:+ dquote) t +:+ dquote).
Proof.
  cbn zeta. unfold _quote_term.
  pose proof (holds_operator_iff (strip term)) as Hop.
  pose proof (already_quoted_iff (strip term)) as Hquoted.
  destruct (existsb _ _).
  - split; [reflexivity |]. intros Hno. exfalso. apply Hno. now apply Hop.
  - destruct (_ || _).
    + split; [reflexivity |].
      intros _ Hno. exfalso. apply Hno. now apply Hquoted.
    + split; [| reflexivity].
      intros [Hyes | Hyes]; [apply Hop in Hyes | apply Hquoted in Hyes];
        discriminate.
Qed.

(** C8, as the code has it: first match wins.  A non-empty list
    extra['queries'] gives its entries stripped of surrounding white
    space, blank entries dropped; else a non-empty mapping
    extra['keywords'] gives the single query built by
    _compile_keywords_map_to_query (the OR of the groups, each group the
    OR of its non-blank terms passed through _quote_term); else the flat
    keyword list gives the single OR-group of its non-blank terms passed
    through _quote_term, and no query when no term is left; a list
    ["vaccine", "mandate"] gives ("vaccine" OR "mandate").  _quote_term
    strips the term and puts it between double quotes, the double quotes
    inside it escaped, unless the stripped term is already between double
    or single quotes or holds " OR ", " AND " (in any case) or a
    parenthesis: then the stripped term is used as it is. *)
Theorem prepare_queries_precedence (params : BuilderParams.t) :
  let extra := BuilderParams.extra params in
  (forall qs,
      extra !! "queries" = Some (EList qs) ->
      nonempty_list (extra !! "queries") = true ->
      _prepare_queries params
      = map strip (filter (fun q => nonempty (strip q)) qs)) /\
  (forall m,
      nonempty_list (extra !! "queries") = false ->
      extra !! "keywords" = Some (EMap m) ->
      nonempty_map (extra !! "keywords") = true ->
      _prepare_queries params = [_compile_keywords_map_to_query m]
      /\ _compile_keywords_map_to_query m
         = match flat_map (fun '(_, words) =>
                             match quoted_terms words with
                             | [] => []
                             | terms => [or_group terms]
                             end) m with
           | [] => EmptyString
           | groups => or_group groups
           end) /\
  (nonempty_list (extra !! "queries") = false ->
   nonempty_map (extra !! "keywords") = false ->
   _prepare_queries params
   = match quoted_terms (BuilderParams.keywords params) with
     | [] => []
     | terms => [or_group terms]
     end) /\
  (forall words,
      quoted_terms words
      = map _quote_term (filter (fun t => nonempty (strip t)) words)) /\
  (nonempty_list (extra !! "queries") = false ->
   nonempty_map (extra !! "keywords") = false ->
   BuilderParams.keywords params = ["vaccine"; "mandate"] ->
   _prepare_queries params
   = ["(" +:+ Demo.quoted "vaccine" +:+ " OR " +:+ Demo.quoted "mandate" +:+ ")"]) /\
  (forall term,
      let t := strip term in
      (holds_operator t \/ already_quoted t -> _quote_term term = t)
      /\ (~ holds_operator t -> ~ already_quoted t ->
          _quote_term term
          = dquote +:+ replace_char "034" (backslash +:+ dquote) t
            +:+ dquote)).
Proof.
  intros extra; subst extra.
  split; [| split; [| split; [| split; [| split]]]].
  - apply queries_take_precedence.
  - intros m Hq Hk Hne. split; [now apply keywords_map_second |].
    unfold _compile_keywords_map_to_query. now destruct (flat_map _ m).
  - apply flat_keywords_last.
  - reflexivity.
  - intros Hq Hk Hkw. rewrite (flat_keywords_last _ Hq Hk), Hkw.
    reflexivity.
  - apply quote_term_behaviour.
Qed.

Lemma prepare_queries_precedence_witness :
  _prepare_queries (Demo.params ∅)
  = ["(" +:+ Demo.quoted "vaccine" +:+ " OR " +:+ Demo.quoted "mandate" +:+ ")"]
  /\ _prepare_queries
       (Demo.params {[ "queries" := EList ["  climate AND policy "; "   "] ]})
     = ["climate AND policy"].
Proof.
  split.
  - destruct (prepare_queries_precedence (Demo.params ∅))
      as (_ & _ & _ & _ & Hexample & _).
    apply Hexample; reflexivity.
  - destruct (prepare_queries_precedence
                (Demo.params
                   {[ "queries" := EList ["  climate AND policy "; "   "] ]}))
      as (Hqueries & _).
    apply (Hqueries ["  climate AND policy "; "   "]); reflexivity.
Defined.

(** C8 as stated fails: an explicit query list is not used as it is. *)
Lemma queries_not_used_as_is :
  _prepare_queries (Demo.params {[ "queries" := EList [" a "; " "] ]}) = ["a"]
  /\ _prepare_queries (Demo.params {[ "queries" := EList [" a "; " "] ]})
     <> [" a "; " "].
Proof. split; [reflexivity | discriminate]. Qed.

(** A flat keyword list of blank terms gives no query at all. *)
Lemma blank_keywords_give_no_query :
  _prepare_queries
    {| BuilderParams.date_from := "2024-01-01";
       BuilderParams.date_to := "2024-01-31";
       BuilderParams.keywords := ["  "];
       BuilderParams.extra := ∅ |} = [].
Proof. reflexivity. Qed.

End QueryFacts.

(** ** Result ordering *)

Module SortFacts.
Import PyStr Notions Builder StrFacts.

(** Two keys compare exactly when they have the same Python type. *)
Lemma key_lt_defined (a b : sort_key) :
  is_Some (key_lt a b) <-> kind_of a = kind_of b.
Proof.
  destruct a as [[x|x]|], b as [[y|y]|]; simpl; split;
    intros H; try discriminate; try reflexivity; try (now eexists);
    destruct H as [? H]; discriminate.
Qed.

Lemma insert_story_perm (x : Story.t) (l r : list Story.t) :
  insert_story x l = Some r -> Permutation r (x :: l).
Proof.
  revert r; induction l as [|y l IH]; intros r; simpl.
  - intros [= <-]. reflexivity.
  - destruct (key_lt _ _) as [[|]|]; [| intros [= <-]; reflexivity | discriminate].
    destruct (insert_story x l) as [r'|]; [| discriminate].
    intros [= <-]. rewrite (IH r' eq_refl). apply perm_swap.
Qed.

Lemma sort_ascending_perm (l r : list Story.t) :
  sort_ascending l = Some r -> Permutation r l.
Proof.
  revert r; induction l as [|x l IH]; intros r; simpl.
  - intros [= <-]. reflexivity.
  - destruct (sort_ascending l) as [sorted|]; [| discriminate].
    intros Hins. rewrite (insert_story_perm _ _ _ Hins).
    constructor. now apply IH.
Qed.

(** An insertion compares the new story with the head of the list. *)
Lemma insert_story_head_kind (x y : Story.t) (l r : list Story.t) :
  insert_story x (y :: l) = Some r -> story_kind y = story_kind x.
Proof.
  simpl. intros Hins. apply key_lt_defined.
  destruct (key_lt _ _); [now eexists | discriminate].
Qed.

(** The sort only succeeds on keys of one type. *)
Lemma sort_ascending_one_kind (l r : list Story.t) :
  sort_ascending l = Some r ->
  forall x y, In x l -> In y l -> story_kind x = story_kind y.
Proof.
  revert r; induction l as [|a l IH]; intros r; simpl; [tauto |].
  destruct (sort_ascending l) as [sorted|] eqn:Hsorted; [| discriminate].
  intros Hins.
  assert (Hhead : forall y, In y l -> story_kind y = story_kind a).
  { intros y Hy.
    destruct sorted as [|h sorted'].
    - apply sort_ascending_perm in Hsorted.
      apply Permutation_nil in Hsorted. subst l. destruct Hy.
    - rewrite <- (insert_story_head_kind _ _ _ _ Hins).
      apply (IH _ eq_refl); [exact Hy |].
      apply (Permutation_in _ (sort_ascending_perm _ _ Hsorted)).
      now left. }
  intros x y [<-|Hx] [<-|Hy]; auto.
  - symmetry; auto.
  - now apply (IH _ eq_refl).
Qed.

(** Any list holding keys of two types makes the sort raise. *)
Lemma sort_stories_mixed_raises (l : list Story.t) (x y : Story.t) :
  In x l -> In y l -> story_kind x <> story_kind y ->
  sort_stories l = None.
Proof.
  intros Hx Hy Hkinds. unfold sort_stories.
  destruct (sort_ascending (rev l)) as [sorted|] eqn:Hsorted; [| reflexivity].
  exfalso. apply Hkinds.
  apply (sort_ascending_one_kind _ _ Hsorted); rewrite <- in_rev; assumption.
Qed.

Lemma key_lt_asym (a b : sort_key) :
  key_lt a b = Some true -> key_lt b a = Some false.
Proof.
  destruct a as [[x|x]|], b as [[y|y]|]; cbn; try discriminate.
  - intros [= Hxy]. f_equal. lia.
  - intros [= Hxy]. f_equal.
    destruct (ltb y x) eqn:Hyx; [exfalso | reflexivity].
    assert (ltb x x = true) by eauto using ltb_trans.
    rewrite ltb_irrefl in *. discriminate.
Qed.

(** If [a] is not below [b] and [b] is not below [c], then [a] is not
    below [c]. *)
Lemma key_lt_not_below_trans (a b c : sort_key) :
  key_lt a b = Some false -> key_lt b c = Some false ->
  key_lt a c = Some false.
Proof.
  destruct a as [[x|x]|], b as [[y|y]|], c as [[z|z]|]; cbn;
    try discriminate; try reflexivity.
  - intros [= Hxy] [= Hyz]. f_equal. lia.
  - intros [= Hxy] [= Hyz]. f_equal.
    destruct (ltb x z) eqn:Hxz; [exfalso | reflexivity].
    destruct (ltb y x) eqn:Hyx.
    + assert (ltb y z = true) by eauto using ltb_trans. congruence.
    + assert (x = y) by now apply ltb_total. subst. congruence.
Qed.

(** Insertion keeps an ascending list ascending. *)
Lemma insert_story_sorted (x : Story.t) (l : list Story.t) :
  (forall y, In y l -> story_kind y = story_kind x) ->
  StronglySorted (fun a b => descending b a) l ->
  exists r,
    insert_story x l = Some r
    /\ StronglySorted (fun a b => descending b a) r.
Proof.
  induction l as [|y l IH]; intros Hkind Hsorted.
  - exists [x]. split; [reflexivity |]. repeat constructor.
  - cbn [insert_story].
    assert (Hy : is_Some (key_lt (get_publish_timestamp y)
                            (get_publish_timestamp x))).
    { apply key_lt_defined. apply Hkind. now left. }
    destruct Hy as [[|] Hy]; rewrite Hy.
    + apply StronglySorted_inv in Hsorted as [Hl Hyl].
      destruct IH as (r & Hr & Hsr); [intros z Hz; apply Hkind; now right
                                     | exact Hl |].
      rewrite Hr. exists (y :: r). split; [reflexivity |].
      constructor; [exact Hsr |].
      apply List.Forall_forall. intros z Hz.
      apply (Permutation_in _ (insert_story_perm _ _ _ Hr)) in Hz.
      destruct Hz as [<- | Hz].
      * unfold descending. now apply key_lt_asym.
      * rewrite List.Forall_forall in Hyl. now apply Hyl.
    + exists (x :: y :: l). split; [reflexivity |].
      constructor; [exact Hsorted |].
      constructor; [exact Hy |].
      apply StronglySorted_inv in Hsorted as [_ Hyl].
      apply List.Forall_forall. intros z Hz. rewrite List.Forall_forall in Hyl.
      unfold descending in *. eauto using key_lt_not_below_trans.
Qed.

Lemma sort_ascending_sorted (l : list Story.t) :
  (forall x y, In x l -> In y l -> story_kind x = story_kind y) ->
  exists r,
    sort_ascending l = Some r
    /\ StronglySorted (fun a b => descending b a) r.
Proof.
  induction l as [|x l IH]; intros Hkind.
  - exists []. split; [reflexivity | constructor].
  - destruct IH as (s & Hs & Hsorted).
    { intros a b Ha Hb. apply Hkind; now right. }
    cbn [sort_ascending]. rewrite Hs.
    apply insert_story_sorted; [| exact Hsorted].
    intros y Hy. apply Hkind; [right | now left].
    exact (Permutation_in _ (sort_ascending_perm _ _ Hs) Hy).
Qed.

Lemma sorted_snoc {A : Type} (R : A -> A -> Prop) (m : list A) (a : A) :
  StronglySorted R m -> Forall (fun b => R b a) m ->
  StronglySorted R (m ++ [a]).
Proof.
  induction 1 as [|b m Hm IH Hb]; intros Hall; cbn [app].
  - repeat constructor.
  - apply Forall_cons in Hall as [Hba Hall].
    constructor; [now apply IH |].
    apply Forall_app. split; [exact Hb | now repeat constructor].
Qed.

Lemma sorted_rev {A : Type} (R : A -> A -> Prop) (l : list A) :
  StronglySorted (fun a b => R b a) l -> StronglySorted R (rev l).
Proof.
  induction 1 as [|a l Hl IH Ha]; [constructor |].
  cbn [rev]. apply sorted_snoc; [exact IH |].
  apply Forall_forall. intros b Hb. rewrite Forall_forall in Ha.
  apply Ha. apply list_elem_of_In. apply list_elem_of_In in Hb.
  now apply in_rev.
Qed.

(** Where all the keys have one type (every story dated, with dates of
    one type, or every story undated) the sort returns the stories by
    descending publish date. *)
Lemma sort_stories_one_kind (l : list Story.t) :
  (forall x y, In x l -> In y l -> story_kind x = story_kind y) ->
  exists r,
    sort_stories l = Some r
    /\ Permutation r l
    /\ StronglySorted descending r.
Proof.
  intros Hkind.
  destruct (sort_ascending_sorted (rev l)) as (s & Hs & Hsorted).
  { intros x y Hx Hy. apply Hkind; now apply in_rev. }
  unfold sort_stories. rewrite Hs. exists (rev s).
  split; [reflexivity |]. split.
  - rewrite <- Permutation_rev, (sort_ascending_perm _ _ Hs).
    symmetry. apply Permutation_rev.
  - now apply sorted_rev.
Qed.

(** C9 at a list mixing a dated and an undated story: the sort compares
    a date with the integer 0 and raises, so [discover] hands nothing
    downstream. *)
Theorem discover_mixed_timestamps_raises `{Collaborators} :
  sort_stories
    [Demo.story "https://x.com/new" (Some (TsDate 739000));
     Demo.story "https://x.com/undated" None] = None
  /\ discover_items
       [Demo.story "https://x.com/new" (Some (TsDate 739000));
        Demo.story "https://x.com/undated" None]
     = Raise "TypeError: '<' not supported between instances".
Proof. split; reflexivity. Qed.

End SortFacts.

(** ** Canonicalizer *)

Module CanonFacts.
Import PyStr Notions Builder StrFacts.

Lemma pair_ltb_irrefl (a : string * string) : pair_ltb a a = false.
Proof. unfold pair_ltb. now rewrite !ltb_irrefl, andb_false_r. Qed.

Lemma pair_ltb_trans (a b c : string * string) :
  pair_ltb a b = true -> pair_ltb b c = true -> pair_ltb a c = true.
Proof.
  unfold pair_ltb. destruct a as [a1 a2], b as [b1 b2], c as [c1 c2]; simpl.
  rewrite !orb_true_iff, !andb_true_iff, !String.eqb_eq.
  intros [Hab | [-> Hab]] [Hbc | [-> Hbc]]; eauto using ltb_trans.
Qed.

Lemma pair_ltb_total (a b : string * string) :
  pair_ltb a b = false -> pair_ltb b a = false -> a = b.
Proof.
  unfold pair_ltb. destruct a as [a1 a2], b as [b1 b2]; simpl.
  rewrite !orb_false_iff, !andb_false_iff, !String.eqb_neq.
  intros [H1 H2] [H3 H4].
  assert (a1 = b1) as -> by now apply ltb_total.
  f_equal. apply ltb_total; tauto.
Qed.

Lemma pair_ltb_asym (a b : string * string) :
  pair_ltb a b = true -> pair_ltb b a = false.
Proof.
  intros Hab. destruct (pair_ltb b a) eqn:Hba; [| reflexivity].
  rewrite <- (pair_ltb_irrefl a). symmetry. eauto using pair_ltb_trans.
Qed.

(** Insertions commute, whatever the list. *)
Lemma insert_pair_comm (x y : string * string) (l : list (string * string)) :
  insert_pair x (insert_pair y l) = insert_pair y (insert_pair x l).
Proof.
  induction l as [|z l IH].
  - cbn [insert_pair].
    destruct (pair_ltb y x) eqn:Hyx, (pair_ltb x y) eqn:Hxy; try reflexivity.
    + apply pair_ltb_asym in Hyx. congruence.
    + now rewrite (pair_ltb_total _ _ Hxy Hyx).
  - cbn [insert_pair].
    destruct (pair_ltb z y) eqn:Hzy, (pair_ltb z x) eqn:Hzx;
      cbn [insert_pair]; rewrite ?Hzy, ?Hzx.
    + now rewrite IH.
    + assert (Hxy : pair_ltb x y = true).
      { destruct (pair_ltb x z) eqn:Hxz; [eauto using pair_ltb_trans |].
        now rewrite (pair_ltb_total _ _ Hxz Hzx). }
      rewrite Hxy. cbn [insert_pair]. now rewrite ?Hzy.
    + assert (Hyx : pair_ltb y x = true).
      { destruct (pair_ltb y z) eqn:Hyz; [eauto using pair_ltb_trans |].
        now rewrite (pair_ltb_total _ _ Hyz Hzy). }
      rewrite Hyx. cbn [insert_pair]. now rewrite ?Hzx.
    + destruct (pair_ltb y x) eqn:Hyx, (pair_ltb x y) eqn:Hxy;
        cbn [insert_pair]; rewrite ?Hzx, ?Hzy; try reflexivity.
      * apply pair_ltb_asym in Hyx. congruence.
      * now rewrite (pair_ltb_total _ _ Hxy Hyx).
Qed.

(** [q.sort()] forgets the order the parameters came in. *)
Lemma sort_pairs_permutation (q1 q2 : list (string * string)) :
  Permutation q1 q2 -> sort_pairs q1 = sort_pairs q2.
Proof.
  unfold sort_pairs. induction 1; simpl.
  - reflexivity.
  - now f_equal.
  - apply insert_pair_comm.
  - congruence.
Qed.

(** The query of the canonical form depends on the multiset of
    parameters only. *)
Lemma query_order_irrelevant (q1 q2 : list (string * string)) :
  Permutation q1 q2 ->
  Url.urlencode (sort_pairs (filter kept_pair q1))
  = Url.urlencode (sort_pairs (filter kept_pair q2)).
Proof.
  intros Hperm. f_equal. apply sort_pairs_permutation.
  now rewrite Hperm.
Qed.

(** What is removed from the query is the denylist, no more and no less. *)
Lemma trackers_stripped (q : list (string * string)) (k v : string) :
  (k, v) ∈ filter kept_pair q <->
  (k, v) ∈ q /\
  k <> "utm_source" /\ k <> "utm_medium" /\ k <> "utm_campaign" /\
  k <> "utm_term" /\ k <> "utm_content" /\ k <> "gclid" /\ k <> "fbclid".
Proof.
  rewrite list_elem_of_filter. unfold kept_pair, TRACKERS.
  rewrite bool_decide_spec. simpl.
  rewrite !not_elem_of_union, !not_elem_of_singleton. tauto.
Qed.

Lemma sort_pairs_keeps (q : list (string * string)) :
  Permutation (sort_pairs q) q.
Proof.
  unfold sort_pairs. induction q as [|x q IH]; simpl; [reflexivity |].
  rewrite <- IH at 2. generalize (foldr insert_pair [] q) as l.
  induction l as [|y l IHl]; simpl; [reflexivity |].
  destruct (pair_ltb y x); [| reflexivity].
  rewrite IHl. apply perm_swap.
Qed.

(** The two urls of the specification's example have one canonical form. *)
Lemma canonicalize_order_example `{Collaborators} :
  canonicalize "https://x.com/a?b=1&utm_source=y" = Some "https://x.com/a?b=1"
  /\ canonicalize "https://x.com/a?utm_source=y&b=1" = Some "https://x.com/a?b=1".
Proof. split; vm_compute; reflexivity. Qed.

(** C5 at a url whose path ends in a space before the fragment: the
    canonical form keeps the space, which the next canonicalization
    strips, so canonicalizing twice is not canonicalizing once. *)
Theorem canonicalize_twice_differs `{Collaborators} :
  canonicalize "http://x.com/a #f" = Some "http://x.com/a "
  /\ canonicalize "http://x.com/a " = Some "http://x.com/a"
  /\ (canonicalize "http://x.com/a #f" ≫= canonicalize)
     <> canonicalize "http://x.com/a #f".
Proof.
  assert (H1 : canonicalize "http://x.com/a #f" = Some "http://x.com/a ")
    by (vm_compute; reflexivity).
  assert (H2 : canonicalize "http://x.com/a " = Some "http://x.com/a")
    by (vm_compute; reflexivity).
  split; [exact H1 | split; [exact H2 |]].
  rewrite H1. simpl. rewrite H2. discriminate.
Qed.

(** The same happens at an IPv6 literal: the brackets are dropped and
    the form that results has no host any more. *)
Lemma canonicalize_ipv6_differs {C : Collaborators} :
  check_bracketed_host "::1" = true ->
  canonicalize "http://[::1]/" = Some "http://::1/"
  /\ canonicalize "http://::1/" = Some "http:///".
Proof.
  intros Hok. split; [| vm_compute; reflexivity].
  assert (Hnetloc : Url.netloc_ok check_bracketed_host "[::1]" = true).
  { unfold Url.netloc_ok.
    change (Url.has_char "[" "[::1]") with true.
    change (Url.has_char "]" "[::1]") with true.
    change (Url.bracketed_host "[::1]") with "::1". exact Hok. }
  assert (Hsplit : Url.urlsplit check_bracketed_host "http://[::1]/"
                   = Some {| Url.sr_scheme := "http"; Url.sr_netloc := "[::1]";
                             Url.sr_path := "/"; Url.sr_query := EmptyString;
                             Url.sr_fragment := EmptyString |}).
  { unfold Url.urlsplit.
    change (Url.split_scheme _) with ("http", "//[::1]/").
    cbv beta iota zeta.
    change (Url.splitnetloc "[::1]/") with ("[::1]", "/").
    cbv beta iota zeta. rewrite Hnetloc. reflexivity. }
  unfold canonicalize, Url.urlparse.
  change (strip "http://[::1]/") with "http://[::1]/".
  rewrite Hsplit. vm_compute. reflexivity.
Qed.

End CanonFacts.

(** ** Fetch and quality gate *)

Module GateFacts.
Import PyStr Notions Builder.

Section Item.
Context `{Collaborators}.
Variables (discovered_by_url : gmap string DiscoveryItem.t)
          (params : BuilderParams.t) (manifest : Manifest.t)
          (force_refresh : bool).

Local Abbreviation step :=
  (process_item discovered_by_url params manifest force_refresh).

Lemma nonempty_length (s : string) :
  nonempty s = true <-> String.length s <> 0%nat.
Proof. destruct s; simpl; split; congruence. Qed.

(** Every pass through the loop body hands its url to the fetcher. *)
Lemma process_item_fetches (entry : string * string) (c : counters) (w : World.t) :
  World.fetches (snd (step entry (c, w))) = World.fetches w ++ [fst entry].
Proof.
  destruct entry as [url stable_id]. unfold process_item.
  destruct (fetch_raw _ _ _) as [e | [[raw_bytes fetch_meta] raw_ext]];
    [reflexivity |].
  destruct (parse_text _ _ _) as [e | parsed]; [reflexivity |].
  destruct (negb _); [reflexivity |].
  destruct (_ <? _); reflexivity.
Qed.

(** An entry that does not pass the gate leaves the store alone. *)
Lemma process_item_stopped (entry : string * string) (c : counters) (w : World.t) :
  passes_gate force_refresh entry = false ->
  added (fst (step entry (c, w))) = added c
  /\ World.writes (snd (step entry (c, w))) = World.writes w
  /\ World.docs (snd (step entry (c, w))) = World.docs w.
Proof.
  destruct entry as [url stable_id]. unfold passes_gate, process_item. simpl.
  destruct (fetch_raw _ _ _) as [e | [[raw_bytes fetch_meta] raw_ext]];
    [now intros _ |].
  destruct (parse_text _ _ _) as [e | parsed]; [now intros _ |].
  destruct (nonempty _); simpl; [| now intros _].
  destruct (_ <? _); simpl; [now intros _ | discriminate].
Qed.

(** An entry that passes the gate is written under its stable id. *)
Lemma process_item_written (entry : string * string) (c : counters) (w : World.t) :
  passes_gate force_refresh entry = true ->
  added (fst (step entry (c, w))) = added c + 1
  /\ (exists doc,
         World.writes (snd (step entry (c, w))) = World.writes w ++ [doc]
         /\ Document.stable_id doc = snd entry)
  /\ World.docs (snd (step entry (c, w))) = {[ snd entry ]} ∪ World.docs w.
Proof.
  destruct entry as [url stable_id]. unfold passes_gate, process_item. simpl.
  destruct (fetch_raw _ _ _) as [e | [[raw_bytes fetch_meta] raw_ext]];
    [discriminate |].
  destruct (parse_text _ _ _) as [e | parsed]; [discriminate |].
  destruct (nonempty _); simpl; [| discriminate].
  destruct (_ <? _); simpl; [discriminate | intros _].
  repeat split. eexists; split; reflexivity.
Qed.

(** C4: once the page is fetched and parsed, a missing or empty text
    counts as skipped_text_extraction and nothing is written, this
    before any look at the length; a text of exactly 399 characters
    counts as skipped_quality and nothing is written; a text of exactly
    400 characters is written under the stable id and counts as added. *)
Theorem quality_gate_boundary
    (url stable_id raw_bytes raw_ext : string)
    (fetch_meta : gmap string string) (parsed : Parsed.t)
    (c : counters) (w : World.t) :
  fetch_raw url stable_id force_refresh = Return (raw_bytes, fetch_meta, raw_ext) ->
  parse_text raw_bytes raw_ext url = Return parsed ->
  let text := default EmptyString (Parsed.text parsed) in
  let out := step (url, stable_id) (c, w) in
  (text = EmptyString ->
   skipped_text_extraction (fst out) = skipped_text_extraction c + 1
   /\ skipped_quality (fst out) = skipped_quality c
   /\ added (fst out) = added c
   /\ World.writes (snd out) = World.writes w
   /\ World.docs (snd out) = World.docs w) /\
  (String.length text = 399%nat ->
   skipped_quality (fst out) = skipped_quality c + 1
   /\ skipped_text_extraction (fst out) = skipped_text_extraction c
   /\ added (fst out) = added c
   /\ World.writes (snd out) = World.writes w
   /\ World.docs (snd out) = World.docs w) /\
  (String.length text = 400%nat ->
   added (fst out) = added c + 1
   /\ skipped_quality (fst out) = skipped_quality c
   /\ skipped_text_extraction (fst out) = skipped_text_extraction c
   /\ (exists doc,
          World.writes (snd out) = World.writes w ++ [doc]
          /\ Document.stable_id doc = stable_id
          /\ Document.text doc = text)
   /\ World.has_doc (snd out) stable_id = true).
Proof.
  intros Hfetch Hparse text out. subst out. unfold process_item.
  rewrite Hfetch, Hparse. fold text.
  split; [| split].
  - intros ->. simpl. repeat split.
  - intros Hlen.
    assert (Hne : nonempty text = true) by (apply nonempty_length; lia).
    rewrite Hne, Hlen. simpl. repeat split.
  - intros Hlen.
    assert (Hne : nonempty text = true) by (apply nonempty_length; lia).
    rewrite Hne, Hlen. simpl. repeat split.
    + eexists; repeat split.
    + unfold World.has_doc. simpl. apply bool_decide_eq_true. set_solver.
Qed.

(** C3, as the code has it: in the document written for an entry that
    passes the gate, the extractor's title, language and authors are
    used when it supplied them and the discovery item's otherwise; for
    published_at it is the discovery item's value that is used when
    there is one, and the extractor's otherwise. *)
Theorem merged_metadata_precedence
    (url stable_id raw_bytes raw_ext : string)
    (fetch_meta : gmap string string) (parsed : Parsed.t)
    (c : counters) (w : World.t) :
  fetch_raw url stable_id force_refresh = Return (raw_bytes, fetch_meta, raw_ext) ->
  parse_text raw_bytes raw_ext url = Return parsed ->
  (400 <= String.length (default EmptyString (Parsed.text parsed)))%nat ->
  let found := discovered_by_url !! url in
  exists doc,
    World.writes (snd (step (url, stable_id) (c, w))) = World.writes w ++ [doc]
    /\ Meta.title (Document.meta doc)
       = (if supplied (Parsed.title parsed) then Parsed.title parsed
          else found ≫= DiscoveryItem.title)
    /\ Meta.language (Document.meta doc)
       = (if supplied (Parsed.language parsed) then Parsed.language parsed
          else found ≫= DiscoveryItem.language)
    /\ Meta.authors (Document.meta doc)
       = match Parsed.authors parsed with
         | Some (a :: l) => a :: l
         | _ => default [] (DiscoveryItem.authors <$> found)
         end
    /\ Meta.published_at (Document.meta doc)
       = (if supplied (found ≫= DiscoveryItem.published_at)
          then found ≫= DiscoveryItem.published_at
          else Parsed.published_at parsed).
Proof.
  intros Hfetch Hparse Hlen found. unfold process_item.
  rewrite Hfetch, Hparse.
  set (text := default EmptyString (Parsed.text parsed)) in *.
  assert (Hne : nonempty text = true) by (apply nonempty_length; lia).
  assert (Hlong : (Z.of_nat (String.length text) <? 400) = false)
    by (apply Z.ltb_ge; lia).
  rewrite Hne, Hlong. simpl. eexists. split; [reflexivity |].
  simpl. fold found. unfold or_str, supplied.
  repeat split.
  - destruct (Parsed.title parsed) as [s|]; [destruct (nonempty s) |];
      reflexivity.
  - destruct (Parsed.language parsed) as [s|]; [destruct (nonempty s) |];
      reflexivity.
  - destruct (Parsed.authors parsed) as [[|a l]|], found; reflexivity.
  - destruct found as [d|]; simpl; [| reflexivity].
    destruct (DiscoveryItem.published_at d) as [s|];
      [destruct (nonempty s) |]; reflexivity.
Qed.

End Item.

#[local] Existing Instance Demo.collaborators.

Lemma quality_gate_boundary_witness :
  let step url := process_item ∅ (Demo.params ∅) Demo.manifest false
                    (url, "id") (counters_start, World.empty) in
  skipped_text_extraction (fst (step "https://x.com/empty")) = 1
  /\ World.writes (snd (step "https://x.com/empty")) = []
  /\ skipped_quality (fst (step "https://x.com/short")) = 1
  /\ World.writes (snd (step "https://x.com/short")) = []
  /\ added (fst (step "https://x.com/long")) = 1
  /\ World.has_doc (snd (step "https://x.com/long")) "id" = true.
Proof.
  intros step.
  edestruct (quality_gate_boundary ∅ (Demo.params ∅) Demo.manifest false
               "https://x.com/empty" "id") as (Hempty & _ & _);
    [vm_compute; reflexivity | vm_compute; reflexivity |].
  edestruct (quality_gate_boundary ∅ (Demo.params ∅) Demo.manifest false
               "https://x.com/short" "id") as (_ & Hshort & _);
    [vm_compute; reflexivity | vm_compute; reflexivity |].
  edestruct (quality_gate_boundary ∅ (Demo.params ∅) Demo.manifest false
               "https://x.com/long" "id") as (_ & _ & Hlong);
    [vm_compute; reflexivity | vm_compute; reflexivity |].
  destruct (Hempty eq_refl) as (He1 & _ & _ & He2 & _).
  destruct (Hshort eq_refl) as (Hs1 & _ & _ & Hs2 & _).
  destruct (Hlong eq_refl) as (Hl1 & _ & _ & _ & Hl2).
  exact (conj He1 (conj He2 (conj Hs1 (conj Hs2 (conj Hl1 Hl2))))).
Defined.

Lemma merged_metadata_precedence_witness :
  exists doc,
    World.writes
      (snd (process_item (by_url [Demo.item "https://x.com/long"])
              (Demo.params ∅) Demo.manifest false
              ("https://x.com/long", "id") (counters_start, World.empty)))
    = [doc]
    /\ Meta.title (Document.meta doc) = Some "Parsed title"
    /\ Meta.language (Document.meta doc) = Some "en"
    /\ Meta.authors (Document.meta doc) = ["A. Writer"]
    /\ Meta.published_at (Document.meta doc) = Some "2024-01-01".
Proof.
  edestruct (merged_metadata_precedence
               (by_url [Demo.item "https://x.com/long"])
               (Demo.params ∅) Demo.manifest false
               "https://x.com/long" "id")
    as (doc & Hw & Ht & Hl & Ha & Hp);
    [vm_compute; reflexivity | vm_compute; reflexivity
     | vm_compute; apply le_n |].
  exists doc. exact (conj Hw (conj Ht (conj Hl (conj Ha Hp)))).
Defined.

(** C3 as stated fails for published_at: the extractor supplied a date
    and the document carries the discovery item's. *)
Lemma extractor_date_does_not_win :
  supplied (Parsed.published_at (Demo.parsed_page "https://x.com/long")) = true
  /\ map (fun doc => Meta.published_at (Document.meta doc))
       (World.writes
          (snd (process_item (by_url [Demo.item "https://x.com/long"])
                  (Demo.params ∅) Demo.manifest false
                  ("https://x.com/long", "id") (counters_start, World.empty))))
     = [Some "2024-01-01"]
  /\ Parsed.published_at (Demo.parsed_page "https://x.com/long")
     = Some "2024-02-02".
Proof. vm_compute. repeat split. Qed.

End GateFacts.

(** ** Frontier differ and the sequential run *)

Module FrontierFacts.
Import PyStr Notions Builder GateFacts.

Section Loop.
Context `{Collaborators}.
Variables (discovered_by_url : gmap string DiscoveryItem.t)
          (params : BuilderParams.t) (manifest : Manifest.t)
          (force_refresh : bool).

Local Abbreviation step :=
  (process_item discovered_by_url params manifest force_refresh).
Local Abbreviation loop := (foldl (fun acc entry => step entry acc)).
Local Abbreviation passing :=
  (filter (fun e => passes_gate force_refresh e = true)).

(** The loop fetches every url of the frontier, in order. *)
Lemma loop_fetches (frontier : list (string * string)) (acc : counters * World.t) :
  World.fetches (snd (loop acc frontier))
  = World.fetches (snd acc) ++ map fst frontier.
Proof.
  revert acc; induction frontier as [|entry rest IH]; intros [c w]; simpl.
  - now rewrite app_nil_r.
  - rewrite IH. destruct (step entry (c, w)) as [c' w'] eqn:Hstep.
    pose proof (process_item_fetches discovered_by_url params manifest
                  force_refresh entry c w) as Hf.
    rewrite Hstep in Hf. simpl in *. rewrite Hf. now rewrite <- app_assoc.
Qed.

(** The loop writes the entries that pass the gate, in order and
    under their stable ids, and nothing else. *)
Lemma loop_writes (frontier : list (string * string)) (acc : counters * World.t) :
  exists new,
    World.writes (snd (loop acc frontier)) = World.writes (snd acc) ++ new
    /\ map Document.stable_id new = map snd (passing frontier)
    /\ World.docs (snd (loop acc frontier))
       = list_to_set (map snd (passing frontier)) ∪ World.docs (snd acc)
    /\ added (fst (loop acc frontier))
       = added (fst acc) + Z.of_nat (length (passing frontier)).
Proof.
  revert acc; induction frontier as [|entry rest IH]; intros [c w].
  - exists []. cbn. rewrite app_nil_r, (left_id_L ∅ (∪)), Z.add_0_r.
    now repeat split.
  - cbn [foldl]. destruct (step entry (c, w)) as [c' w'] eqn:Hstep.
    destruct (IH (c', w')) as (new & Hw & Hids & Hdocs & Hadded).
    cbn [fst snd] in *.
    destruct (passes_gate force_refresh entry) eqn:Hgate.
    + destruct (process_item_written discovered_by_url params manifest
                  force_refresh entry c w Hgate)
        as (Ha & (doc & Hdoc & Hid) & Hd).
      rewrite Hstep in Ha, Hdoc, Hd. cbn [fst snd] in *.
      rewrite filter_cons_True by exact Hgate.
      exists (doc :: new). rewrite Hw, Hdoc, Hdocs, Hd, Hadded, Ha.
      split; [now rewrite <- app_assoc |].
      split; [cbn; now rewrite Hid, Hids |].
      split; [cbn; now rewrite (assoc_L (∪)), (comm_L (∪) _ {[ entry.2 ]}) |].
      cbn [length]. lia.
    + destruct (process_item_stopped discovered_by_url params manifest
                  force_refresh entry c w Hgate) as (Ha & Hwr & Hd).
      rewrite Hstep in Ha, Hwr, Hd. cbn [fst snd] in *.
      rewrite filter_cons_False by (rewrite Hgate; discriminate).
      exists new. rewrite Hw, Hwr, Hdocs, Hd, Hadded, Ha. now repeat split.
Qed.

(** The sequential path: [discovered] counts the distinct urls,
    [skipped_duplicate] is that count less the frontier's length, and
    the store gains the documents of the entries that pass the gate. *)
Lemma process_sequential_spec (frontier : list (string * string)) (w : World.t) :
  let out := _process_sequential frontier discovered_by_url params manifest
               force_refresh w in
  RunResult.discovered (fst out) = Z.of_nat (size discovered_by_url)
  /\ RunResult.skipped_duplicate (fst out)
     = Z.of_nat (size discovered_by_url) - Z.of_nat (length frontier)
  /\ RunResult.added (fst out) = Z.of_nat (length (passing frontier))
  /\ World.fetches (snd out) = World.fetches w ++ map fst frontier
  /\ (exists new,
         World.writes (snd out) = World.writes w ++ new
         /\ map Document.stable_id new = map snd (passing frontier))
  /\ World.docs (snd out)
     = list_to_set (map snd (passing frontier)) ∪ World.docs w.
Proof.
  unfold _process_sequential.
  pose proof (loop_fetches frontier (counters_start, w)) as Hf.
  destruct (loop_writes frontier (counters_start, w))
    as (new & Hw & Hids & Hdocs & Hadded).
  destruct (loop (counters_start, w) frontier) as [c w'].
  cbn in *.
  split; [reflexivity |]. split; [reflexivity |]. split; [lia |].
  split; [assumption |]. split; [now exists new | assumption].
Qed.
End Loop.

(** The frontier is the discovered pairs whose id the store lacks. *)
Lemma frontier_of_spec (pairs : list (string * string)) (w : World.t)
    (u s : string) :
  (u, s) ∈ frontier_of pairs w <-> (u, s) ∈ pairs /\ World.has_doc w s = false.
Proof.
  unfold frontier_of. rewrite list_elem_of_filter. cbn.
  destruct (World.has_doc w s); cbn; intuition discriminate.
Qed.

(** With pairwise distinct urls the dictionary has one entry per item. *)
Lemma by_url_size (discovered : list DiscoveryItem.t) :
  NoDup (map DiscoveryItem.url discovered) ->
  size (by_url discovered) = length discovered.
Proof.
  unfold by_url.
  assert (Hgen : forall (l : list DiscoveryItem.t) (m : gmap string DiscoveryItem.t),
             NoDup (map DiscoveryItem.url l) ->
             (forall d, d ∈ l -> m !! DiscoveryItem.url d = None) ->
             size (foldl (fun m d => <[ DiscoveryItem.url d := d ]> m) m l)
             = (size m + length l)%nat).
  { induction l as [|d l IH]; intros m Hnd Hfresh; simpl; [lia |].
    apply NoDup_cons in Hnd as [Hd Hnd].
    rewrite IH; [| exact Hnd |].
    - rewrite map_size_insert_None; [lia |]. apply Hfresh. now left.
    - intros d' Hd'. rewrite lookup_insert_ne.
      + apply Hfresh. now right.
      + intros Heq. apply Hd. rewrite Heq. apply list_elem_of_fmap.
        now exists d'. }
  intros Hnd. rewrite Hgen; [now rewrite map_size_empty | exact Hnd |].
  intros d _. apply lookup_empty.
Qed.

Lemma pairs_of_length `{Collaborators} (discovered : list DiscoveryItem.t)
    (pairs : list (string * string)) :
  pairs_of discovered = Some pairs -> length pairs = length discovered.
Proof.
  unfold pairs_of. intros Hpairs. symmetry.
  apply mapM_Some_1 in Hpairs. eapply Forall2_length, Hpairs.
Qed.

(** Where no url is discovered twice, [skipped_duplicate] is the number
    of discovered pairs whose id the store already holds. *)
Lemma skipped_duplicate_distinct_urls `{Collaborators}
    (discovered : list DiscoveryItem.t) (pairs : list (string * string))
    (params : BuilderParams.t) (manifest : Manifest.t) (fr : bool)
    (w : World.t) :
  NoDup (map DiscoveryItem.url discovered) ->
  pairs_of discovered = Some pairs ->
  RunResult.skipped_duplicate
    (fst (_process_sequential (frontier_of pairs w) (by_url discovered)
            params manifest fr w))
  = Z.of_nat (length (filter (fun us => World.has_doc w (snd us) = true) pairs)).
Proof.
  intros Hnd Hpairs.
  destruct (process_sequential_spec (by_url discovered) params manifest fr
              (frontier_of pairs w) w) as (_ & -> & _).
  rewrite (by_url_size _ Hnd), <- (pairs_of_length _ _ Hpairs).
  unfold frontier_of. clear Hpairs Hnd.
  induction pairs as [|[u s] pairs IH]; [reflexivity |].
  rewrite !filter_cons. cbn [snd].
  destruct (World.has_doc w s) eqn:Hs; cbn [negb];
    repeat case_decide; try done; cbn [length] in *; lia.
Qed.

(** A sequential run fetches the urls of the frontier and writes under
    ids the store did not hold. *)
Lemma run_sequential_writes_new_ids `{Collaborators}
    (found : list DiscoveryItem.t) (params : BuilderParams.t)
    (manifest : Manifest.t) (w : World.t) (pairs : list (string * string)) :
  flag (BuilderParams.extra params) "use_concurrent_processing" true = false ->
  pairs_of (_apply_filters found params) = Some pairs ->
  exists r w' new,
    run found params manifest w = (Return (SequentialReturn r), w')
    /\ World.fetches w' = World.fetches w ++ map fst (frontier_of pairs w)
    /\ World.writes w' = World.writes w ++ new
    /\ (forall doc, doc ∈ new ->
          World.has_doc w (Document.stable_id doc) = false
          /\ exists u, (u, Document.stable_id doc) ∈ pairs).
Proof.
  intros Hmode Hpairs. unfold run. rewrite Hpairs, Hmode.
  match goal with
  | |- context [_process_sequential ?f ?d ?p ?m ?fr w] =>
      destruct (process_sequential_spec d p m fr f w)
        as (_ & _ & _ & Hf & (new & Hw & Hids) & _);
      destruct (_process_sequential f d p m fr w) as [r w'] eqn:Hseq
  end.
  simpl in *. exists r, w', new. repeat split; try assumption.
  - assert (Hin : Document.stable_id doc ∈ map Document.stable_id new)
      by (apply list_elem_of_fmap; now exists doc).
    rewrite Hids in Hin. apply list_elem_of_fmap in Hin as ([u s] & -> & Hin).
    apply list_elem_of_filter in Hin as [_ Hin].
    now apply frontier_of_spec in Hin.
  - assert (Hin : Document.stable_id doc ∈ map Document.stable_id new)
      by (apply list_elem_of_fmap; now exists doc).
    rewrite Hids in Hin. apply list_elem_of_fmap in Hin as ([u s] & -> & Hin).
    apply list_elem_of_filter in Hin as [_ Hin].
    apply frontier_of_spec in Hin. exists u. tauto.
Qed.

Lemma filter_none {A : Type} (P : A -> Prop) `{forall x, Decision (P x)}
    (l : list A) :
  (forall x, x ∈ l -> ~ P x) -> filter P l = [].
Proof.
  induction l as [|x l IH]; intros Hnone; [reflexivity |].
  rewrite filter_cons_False by (apply Hnone; now left).
  apply IH. intros y Hy. apply Hnone. now right.
Qed.

(** Running again over the same discoveries adds nothing: what the first
    run wrote is no longer in the frontier, and what it skipped or
    failed on is skipped or fails again. *)
Lemma run_sequential_twice `{Collaborators}
    (found : list DiscoveryItem.t) (params : BuilderParams.t)
    (manifest manifest' : Manifest.t) (w w1 : World.t) (r1 : RunResult.t) :
  flag (BuilderParams.extra params) "use_concurrent_processing" true = false ->
  run found params manifest w = (Return (SequentialReturn r1), w1) ->
  exists r2 w2,
    run found params manifest' w1 = (Return (SequentialReturn r2), w2)
    /\ RunResult.added r2 = 0
    /\ World.writes w2 = World.writes w1
    /\ World.docs w2 = World.docs w1.
Proof.
  intros Hmode. unfold run. rewrite Hmode.
  destruct (pairs_of (_apply_filters found params)) as [pairs|];
    [| discriminate].
  set (fr := flag (BuilderParams.extra params) "force_refresh_cache" false).
  set (dbu := by_url (_apply_filters found params)).
  match goal with
  | |- context [_process_sequential ?f dbu params ?m fr w] =>
      destruct (process_sequential_spec dbu params m fr f w)
        as (_ & _ & _ & _ & _ & Hdocs1);
      destruct (_process_sequential f dbu params m fr w) as [r w'] eqn:Hseq1
  end.
  intros Hrun; injection Hrun as -> ->. simpl in Hdocs1.
  assert (Hnone :
    filter (fun e => passes_gate fr e = true) (frontier_of pairs w1) = []).
  { apply filter_none. intros [u s] Hin Hpass.
    apply frontier_of_spec in Hin as [Hin Hlacks].
    unfold World.has_doc in Hlacks. apply bool_decide_eq_false in Hlacks.
    apply Hlacks. rewrite Hdocs1. apply elem_of_union_l.
    apply elem_of_list_to_set, list_elem_of_fmap. exists (u, s).
    split; [reflexivity |]. apply list_elem_of_filter. split; [exact Hpass |].
    apply frontier_of_spec. split; [exact Hin |].
    unfold World.has_doc. apply bool_decide_eq_false. intros Hold.
    apply Hlacks. rewrite Hdocs1. now apply elem_of_union_r. }
  match goal with
  | |- context [_process_sequential ?f dbu params ?m fr w1] =>
      destruct (process_sequential_spec dbu params m fr f w1)
        as (_ & _ & Hadded & _ & (new & Hw & Hids) & Hdocs2);
      destruct (_process_sequential f dbu params m fr w1) as [r2 w2] eqn:Hseq2
  end.
  simpl in *. rewrite Hnone in *. simpl in *.
  exists r2, w2. repeat split; try assumption.
  - destruct new; [now rewrite app_nil_r in Hw | discriminate].
  - rewrite Hdocs2. apply (left_id_L ∅ (∪)).
Qed.

#[local] Existing Instance Demo.collaborators.

(** C1 at a url discovered twice and not yet in the store: one url is
    counted as discovered, both copies enter the frontier and
    skipped_duplicate is 1 - 2 = -1, though no discovered pair is in the
    store and the discovered pairs less the frontier are 2 - 2 = 0. *)
Theorem repeated_url_skipped_duplicate :
  let found := [Demo.item "https://x.com/a"; Demo.item "https://x.com/a"] in
  let pairs := default [] (pairs_of found) in
  length pairs = 2%nat
  /\ length (frontier_of pairs World.empty) = 2%nat
  /\ match run found (Demo.params Demo.sequential) Demo.manifest World.empty with
     | (Return (SequentialReturn r), _) =>
         RunResult.discovered r = 1
         /\ RunResult.skipped_duplicate r = -1
         /\ RunResult.added r = 2
     | _ => False
     end.
Proof. vm_compute. repeat split. Qed.

End FrontierFacts.

(** ** Batch orchestrator *)

Module OrchestratorFacts.
Import PyStr Notions Builder GateFacts FrontierFacts.

(** Summing a batch into the totals creates no key. *)
Lemma accumulate_keeps_missing (total result : gmap string Z) (key : string) :
  total !! key = None -> accumulate total result !! key = None.
Proof.
  intros Hkey. unfold accumulate. now rewrite map_lookup_imap, Hkey.
Qed.

Lemma total_result_start_added : total_result_start !! "added" = None.
Proof. vm_compute. reflexivity. Qed.

Section Attempt.
Context `{Collaborators}.
Variables (discovered_by_url : gmap string DiscoveryItem.t)
          (params : BuilderParams.t) (manifest : Manifest.t)
          (force_refresh : bool).

Lemma run_batches_keeps_missing (todo : list (list string))
    (cr dd : pyfloat) (total result : gmap string Z) (w w' : World.t)
    (key : string) :
  run_batches todo discovered_by_url params cr dd force_refresh total w
  = (Return result, w') ->
  total !! key = None -> result !! key = None.
Proof.
  revert total w; induction todo as [|batch rest IH]; intros total w;
    cbn [run_batches].
  - intros [= <- <-]. trivial.
  - destruct (run_scrapy_spider _ _ _ _ _ _ _) as [[e | r] w1];
      [discriminate |].
    intros Hrun Hkey. eapply IH; [exact Hrun |].
    now apply accumulate_keeps_missing.
Qed.

(** The [try] block always ends in an exception: the import fails, a
    batch raises, or the totals have no "added" counter to read. *)
Lemma concurrent_attempt_raises (frontier : list (string * string))
    (cr dd : pyfloat) (w : World.t) :
  exists e w1,
    concurrent_attempt frontier discovered_by_url params manifest
      force_refresh cr dd w = (Raise e, w1).
Proof.
  unfold concurrent_attempt.
  destruct spider_importable; cbn [negb]; [| eauto].
  destruct (run_batches _ _ _ _ _ _ _ _) as [[e | result] w1] eqn:Hrun;
    [eauto |].
  pose proof (run_batches_keeps_missing _ _ _ _ _ _ _ "added" Hrun
                total_result_start_added) as Hadded.
  unfold concurrent_history. rewrite Hadded. cbn. eauto.
Qed.

(** The concurrent pass cannot complete.  The totals are kept
    under "added_count" and "failed_count" and read under "added", so
    after the last batch the [try] block raises and the whole frontier
    goes through the sequential path as well: what the run returns is
    always the sequential path's result, never the concurrent totals. *)
Lemma concurrent_pass_never_completes
    (frontier : list (string * string)) (w : World.t) :
  let sequential_from w1 :=
    _process_sequential frontier discovered_by_url params manifest
      force_refresh w1 in
  (forall total w',
      _process_concurrent frontier discovered_by_url params manifest
        force_refresh w <> (Return (ConcurrentReturn total), w'))
  /\ (_process_concurrent frontier discovered_by_url params manifest
        force_refresh w = (Raise "TypeError", w)
      \/ exists w1,
           _process_concurrent frontier discovered_by_url params manifest
             force_refresh w
           = (Return (SequentialReturn (fst (sequential_from w1))),
              snd (sequential_from w1)))
  /\ total_result_start !! "added" = None
  /\ (forall total result : gmap string Z,
         total !! "added" = None ->
         accumulate total result !! "added" = None).
Proof.
  intros sequential_from.
  assert (Hcases :
    _process_concurrent frontier discovered_by_url params manifest
      force_refresh w = (Raise "TypeError", w)
    \/ exists w1,
         _process_concurrent frontier discovered_by_url params manifest
           force_refresh w
         = (Return (SequentialReturn (fst (sequential_from w1))),
            snd (sequential_from w1))).
  { unfold _process_concurrent.
    destruct (concurrent_settings _) as [[cr dd]|]; [| now left].
    destruct (concurrent_attempt_raises frontier cr dd w) as (e & w1 & ->).
    right. exists w1. subst sequential_from. cbn beta.
    now destruct (_process_sequential _ _ _ _ _ w1). }
  split; [| split; [exact Hcases | split]].
  - intros total w' Hdone.
    destruct Hcases as [Hc | [w1 Hc]]; rewrite Hc in Hdone; discriminate.
  - exact total_result_start_added.
  - intros total result. apply accumulate_keeps_missing.
Qed.





(** C7, as the code has it: the two settings are read before the [try]
    block, and one that is not a number raises a TypeError there, with
    nothing processed and no fallback.  Past that point, when the [try]
    block raises, whatever the batch it had reached, the run returns the
    result of the sequential path started on the entire frontier: every
    url of the frontier is fetched again, in order, and the counts are
    those of the whole frontier. *)
Theorem fallback_reruns_whole_frontier
    (frontier : list (string * string)) (w : World.t) :
  let extra := BuilderParams.extra params in
  (numeric (default (EInt 16) (extra !! "concurrent_requests")) = None
   \/ numeric (default (ENum (1 # 10)) (extra !! "download_delay")) = None ->
   _process_concurrent frontier discovered_by_url params manifest
     force_refresh w = (Raise "TypeError", w))
  /\ (forall cr dd e w1,
        concurrent_settings extra = Some (cr, dd) ->
        concurrent_attempt frontier discovered_by_url params manifest
          force_refresh cr dd w = (Raise e, w1) ->
        exists r w2,
          _process_sequential frontier discovered_by_url params manifest
            force_refresh w1 = (r, w2)
          /\ _process_concurrent frontier discovered_by_url params manifest
               force_refresh w = (Return (SequentialReturn r), w2)
          /\ World.fetches w2 = World.fetches w1 ++ map fst frontier
          /\ RunResult.added r
             = Z.of_nat (length (filter
                                   (fun entry =>
                                      passes_gate force_refresh entry = true)
                                   frontier))
          /\ RunResult.skipped_duplicate r
             = Z.of_nat (size discovered_by_url)
               - Z.of_nat (length frontier)).
Proof.
  intros extra. split.
  - intros Hbad. unfold _process_concurrent, concurrent_settings. fold extra.
    destruct Hbad as [-> | ->]; [reflexivity |].
    now destruct (numeric (default (EInt 16) _)).
  - intros cr dd e w1 Hsettings Hattempt.
    destruct (process_sequential_spec discovered_by_url params manifest
                force_refresh frontier w1)
      as (_ & Hdup & Hadded & Hfetches & _).
    unfold _process_concurrent. fold extra. rewrite Hsettings, Hattempt.
    destruct (_process_sequential _ _ _ _ _ w1) as [r w2].
    exists r, w2. cbn [fst snd] in *.
    split; [reflexivity |]. split; [reflexivity |].
    split; [exact Hfetches |]. split; [exact Hadded | exact Hdup].
Qed.
End Attempt.

#[local] Existing Instance Demo.collaborators.


Lemma fallback_reruns_whole_frontier_witness :
  let urls := ["https://x.com/1"; "https://x.com/2"; "https://x.com/3";
               "https://x.com/boom"] in
  let frontier := map (fun u => (u, "id:" +:+ u)) urls in
  exists r w2,
    _process_concurrent frontier ∅ (Demo.params ∅) Demo.manifest false
      World.empty = (Return (SequentialReturn r), w2)
    /\ World.fetches w2
       = ["https://x.com/1"; "https://x.com/2"; "https://x.com/3"] ++ urls
    /\ RunResult.added r = 4.
Proof.
  intros urls frontier.
  destruct (fallback_reruns_whole_frontier ∅ (Demo.params ∅) Demo.manifest
              false frontier World.empty) as [_ Hfallback].
  edestruct Hfallback as (r & w2 & _ & Hrun & Hfetches & Hadded & _);
    [vm_compute; reflexivity | vm_compute; reflexivity |].
  exists r, w2. exact (conj Hrun (conj Hfetches Hadded)).
Defined.

(** C7 as stated fails: with a setting that is a string the concurrent
    path raises before its [try] block, and the run raises with nothing
    processed instead of falling back. *)
Lemma ill_typed_setting_raises_without_fallback :
  let params := Demo.params {[ "concurrent_requests" := EStr "2" ]} in
  _process_concurrent [("https://x.com/1", "id")] ∅ params Demo.manifest
    false World.empty = (Raise "TypeError", World.empty)
  /\ run [Demo.item "https://x.com/1"] params Demo.manifest World.empty
     = (Raise "TypeError", World.empty).
Proof. split; vm_compute; reflexivity. Qed.

(** With a spider that works, a single url is still processed twice. *)
Lemma working_spider_still_falls_back :
  match _process_concurrent [("https://x.com/1", "id")] ∅ (Demo.params ∅)
          Demo.manifest false World.empty with
  | (Return (SequentialReturn r), w') =>
      World.fetches w' = ["https://x.com/1"; "https://x.com/1"]
      /\ RunResult.added r = 1
  | _ => False
  end.
Proof. vm_compute. split; reflexivity. Qed.

End OrchestratorFacts.

(** ** Concurrency settings and batches *)

Module BatchFacts.
Import PyStr Notions Builder.

(** Clamping leaves a number that is not [nan] on the right side of the
    bound. *)
Lemma py_min_le (a : pyfloat) : a <> NaN -> at_most (py_min a 1%Q) 1.
Proof.
  intros Ha. destruct a as [q | [|] |]; [| apply Qle_refl | reflexivity |
                                          contradiction].
  unfold py_min, py_lt, Qlt_bool.
  destruct (Qle_bool q 1) eqn:Hle; cbn [negb at_most].
  - now apply Qle_bool_iff.
  - apply Qle_refl.
Qed.

Lemma py_max_ge (a : pyfloat) : a <> NaN -> at_least (py_max a 5%Q) 5.
Proof.
  intros Ha. destruct a as [q | [|] |]; [| reflexivity | apply Qle_refl |
                                          contradiction].
  unfold py_max, py_lt, Qlt_bool.
  destruct (Qle_bool 5 q) eqn:Hle; cbn [negb at_least].
  - now apply Qle_bool_iff.
  - apply Qle_refl.
Qed.

(** A batch is the next three urls, or what is left of them. *)
Lemma batch_urls_take (urls : list string) (i : nat) :
  batch_urls urls i = take 3 (drop (i * 3) urls).
Proof.
  unfold batch_urls, batch_size.
  destruct (Nat.le_gt_cases (i * 3 + 3) (length urls)) as [Hfull | Hshort].
  - now replace ((i * 3 + 3) `min` length urls - i * 3)%nat with 3%nat by lia.
  - rewrite !take_ge; [reflexivity | |]; rewrite length_drop; lia.
Qed.

Lemma concat_batches_take (urls : list string) (k : nat) :
  concat (map (batch_urls urls) (seq 0 k)) = take (k * 3) urls.
Proof.
  induction k as [|k IH]; [reflexivity |].
  rewrite seq_S, map_app, concat_app, IH. cbn [map concat plus].
  rewrite app_nil_r, batch_urls_take, take_take_drop.
  f_equal. lia.
Qed.

Lemma total_batches_bounds (urls : list string) :
  (length urls <= total_batches urls * 3 < length urls + 3)%nat.
Proof.
  unfold total_batches, batch_size.
  pose proof (Nat.div_mod_eq (length urls + 3 - 1) 3) as Hdiv.
  pose proof (Nat.mod_upper_bound (length urls + 3 - 1) 3) as Hmod.
  lia.
Qed.

(** The batches, one after the other, are the frontier's urls. *)
Lemma concat_batches (urls : list string) : concat (batches urls) = urls.
Proof.
  unfold batches. rewrite concat_batches_take. apply take_ge.
  pose proof (total_batches_bounds urls). lia.
Qed.

Lemma batches_lookup (urls : list string) (i : nat) (b : list string) :
  batches urls !! i = Some b ->
  (i < total_batches urls)%nat /\ b = take 3 (drop (i * 3) urls).
Proof.
  unfold batches. intros Hb.
  change (map (batch_urls urls) ?l) with (batch_urls urls <$> l) in Hb.
  apply list_lookup_fmap_Some in Hb as (j & -> & Hj).
  apply lookup_seq in Hj as [-> Hlt]. split; [exact Hlt |].
  apply batch_urls_take.
Qed.

Lemma batches_length (urls : list string) :
  length (batches urls) = total_batches urls.
Proof. unfold batches. now rewrite length_map, length_seq. Qed.

Section Settings.
Context `{C : Collaborators}.
Variables (discovered_by_url : gmap string DiscoveryItem.t)
          (params : BuilderParams.t) (manifest : Manifest.t)
          (force_refresh : bool).

(** The loop over the batches consults the spider on its batches only,
    and only with the settings it was given. *)
Lemma run_batches_with_spider
    (spider : list string -> BuilderParams.t -> gmap string DiscoveryItem.t ->
              pyfloat -> pyfloat -> bool -> World.t ->
              reply (gmap string Z) * World.t)
    (todo : list (list string)) (cr dd : pyfloat) (total : gmap string Z)
    (w : World.t) :
  (forall b w0,
      b ∈ todo ->
      spider b params discovered_by_url cr dd force_refresh w0
      = run_scrapy_spider b params discovered_by_url cr dd force_refresh w0) ->
  run_batches (H := MoreNotions.with_spider C spider) todo discovered_by_url
    params cr dd force_refresh total w
  = run_batches todo discovered_by_url params cr dd force_refresh total w.
Proof.
  revert total w; induction todo as [|batch rest IH]; intros total w Hsame;
    [reflexivity |].
  cbn [run_batches].
  change (run_scrapy_spider (Collaborators := MoreNotions.with_spider C spider))
    with spider.
  rewrite (Hsame batch w) by now left.
  destruct (run_scrapy_spider batch _ _ _ _ _ w) as [[e | result] w1];
    [reflexivity |].
  apply IH. intros b w0 Hb. apply Hsame. now right.
Qed.

(** C10, as the code has it: whatever numbers other than nan are
    configured (or left out), the settings are a concurrency of at most 1
    and a download delay of at least 5 seconds; the concurrent path
    consults the spider on the batches only, and only with these two
    settings; and the batches cut the frontier's urls in order into runs
    of 3, the last batch holding the 1 to 3 urls that remain. *)
Theorem concurrent_settings_and_batches
    (frontier : list (string * string)) (w : World.t) (c d : pyfloat) :
  let extra := BuilderParams.extra params in
  let urls := map fst frontier in
  numeric (default (EInt 16) (extra !! "concurrent_requests")) = Some c ->
  numeric (default (ENum (1 # 10)) (extra !! "download_delay")) = Some d ->
  c <> NaN -> d <> NaN ->
  exists cr dd,
    concurrent_settings extra = Some (cr, dd)
    /\ at_most cr 1 /\ at_least dd 5
    /\ (forall spider,
          (forall b w0,
              b ∈ batches urls ->
              spider b params discovered_by_url cr dd force_refresh w0
              = run_scrapy_spider b params discovered_by_url cr dd
                  force_refresh w0) ->
          _process_concurrent (H := MoreNotions.with_spider C spider) frontier
            discovered_by_url params manifest force_refresh w
          = _process_concurrent frontier discovered_by_url params manifest
              force_refresh w)
    /\ concat (batches urls) = urls
    /\ (forall i b,
          batches urls !! i = Some b ->
          (1 <= length b <= 3)%nat
          /\ ((S i < length (batches urls))%nat -> length b = 3%nat)).
Proof.
  intros extra urls Hc Hd Hcn Hdn.
  assert (Hsettings : concurrent_settings extra
                      = Some (py_min c 1%Q, py_max d 5%Q)).
  { unfold concurrent_settings. now rewrite Hc, Hd. }
  exists (py_min c 1%Q), (py_max d 5%Q).
  split; [exact Hsettings |]. split; [now apply py_min_le |].
  split; [now apply py_max_ge |]. split; [| split].
  - intros spider Hsame. unfold _process_concurrent. fold extra.
    rewrite Hsettings. unfold concurrent_attempt. fold urls.
    rewrite (run_batches_with_spider spider) by exact Hsame.
    reflexivity.
  - apply concat_batches.
  - intros i b Hb. apply batches_lookup in Hb as [Hi ->].
    rewrite batches_length, length_take, length_drop.
    pose proof (total_batches_bounds urls). lia.
Qed.

End Settings.

#[local] Existing Instance Demo.collaborators.

Lemma concurrent_settings_and_batches_witness :
  let extra : gmap string extra_val :=
    {[ "concurrent_requests" := EInt 8; "download_delay" := ENum (1 # 2) ]} in
  let urls := ["https://x.com/1"; "https://x.com/2"; "https://x.com/3";
               "https://x.com/4"] in
  concurrent_settings extra = Some (Rational 1, Rational 5)
  /\ concat (batches urls) = urls.
Proof.
  intros extra urls.
  destruct (concurrent_settings_and_batches ∅ (Demo.params extra)
              Demo.manifest false (map (fun u => (u, "id:" +:+ u)) urls)
              World.empty (Rational 8) (Rational (1 # 2)))
    as (cr & dd & Hsettings & _ & _ & _ & Hconcat & _);
    [reflexivity | reflexivity | discriminate | discriminate |].
  split; [vm_compute; reflexivity | exact Hconcat].
Defined.

(** The settings exist whenever the two configured values are numbers
    or are left out. *)
Lemma concurrent_settings_defined (extra : gmap string extra_val) :
  (forall v, extra !! "concurrent_requests" = Some v -> is_Some (numeric v)) ->
  (forall v, extra !! "download_delay" = Some v -> is_Some (numeric v)) ->
  is_Some (concurrent_settings extra).
Proof.
  intros Hcr Hdd. unfold concurrent_settings.
  assert (Hc : is_Some (numeric (default (EInt 16)
                                   (extra !! "concurrent_requests")))).
  { destruct (extra !! "concurrent_requests") as [v|]; [now apply Hcr |].
    now eexists. }
  assert (Hd : is_Some (numeric (default (ENum (1 # 10))
                                   (extra !! "download_delay")))).
  { destruct (extra !! "download_delay") as [v|]; [now apply Hdd |].
    now eexists. }
  destruct Hc as [c ->], Hd as [d ->]. now eexists.
Qed.

(** Four urls make a batch of three and a batch of one. *)
Lemma last_batch_is_short :
  batches ["a"; "b"; "c"; "d"] = [["a"; "b"; "c"]; ["d"]]
  /\ ~ Forall (fun b : list string => length b = 3%nat)
         (batches ["a"; "b"; "c"; "d"]).
Proof.
  split; [reflexivity |].
  intros Hall. apply Forall_cons in Hall as [_ Hall].
  apply Forall_cons in Hall as [Hd _]. discriminate.
Qed.

(** C10 as stated fails: four urls make a batch of three and a batch of
    one; a setting that is nan stays nan, which is neither at most 1 nor
    at least 5; and with a setting that is a string there are no
    settings at all, the comparison being a TypeError. *)
Lemma configuration_not_always_clamped :
  (batches ["a"; "b"; "c"; "d"] = [["a"; "b"; "c"]; ["d"]]
   /\ ~ Forall (fun b : list string => length b = 3%nat)
          (batches ["a"; "b"; "c"; "d"]))
  /\ (concurrent_settings
        {[ "concurrent_requests" := ENum NaN; "download_delay" := ENum NaN ]}
      = Some (NaN, NaN)
      /\ ~ at_most NaN 1 /\ ~ at_least NaN 5)
  /\ concurrent_settings {[ "concurrent_requests" := EStr "2" ]} = None.
Proof.
  split; [exact last_batch_is_short |].
  split; [| vm_compute; reflexivity].
  split; [vm_compute; reflexivity |]. split; intros [].
Qed.

End BatchFacts.

(** ** The sequential path, entry by entry *)

Module SequentialFacts.
Import PyStr Notions MoreNotions Builder GateFacts FrontierFacts.

Section Loop.
Context `{Collaborators}.
Variables (discovered_by_url : gmap string DiscoveryItem.t)
          (params : BuilderParams.t) (manifest : Manifest.t)
          (force_refresh : bool).

Local Abbreviation step :=
  (process_item discovered_by_url params manifest force_refresh).
Local Abbreviation loop := (foldl (fun acc entry => step entry acc)).

(** The number of entries the counters account for. *)
Local Abbreviation tally c :=
  (added c + skipped_quality c + skipped_text_extraction c
   + Z.of_nat (length (failed_urls c))).

(** One pass through the loop body moves exactly one counter, and the
    failure list grows exactly when the fetch or the extraction raised. *)
Lemma process_item_tally (entry : string * string) (c : counters) (w : World.t) :
  let c' := fst (step entry (c, w)) in
  tally c' = tally c + 1
  /\ 0 <= added c' - added c
  /\ 0 <= skipped_quality c' - skipped_quality c
  /\ 0 <= skipped_text_extraction c' - skipped_text_extraction c
  /\ failed_urls c'
     = failed_urls c
       ++ match failure_of force_refresh entry with
          | Some e => [(fst entry, e)]
          | None => []
          end.
Proof.
  destruct entry as [url stable_id]. unfold process_item, failure_of.
  cbn [fst snd].
  destruct (fetch_raw _ _ _) as [e | [[raw_bytes fetch_meta] raw_ext]].
  { cbn. rewrite length_app. cbn. repeat split; lia. }
  destruct (parse_text _ _ _) as [e | parsed].
  { cbn. rewrite length_app. cbn. repeat split; lia. }
  destruct (negb _); [cbn; rewrite app_nil_r; repeat split; lia |].
  destruct (_ <? _); cbn; rewrite app_nil_r; repeat split; lia.
Qed.

Lemma loop_tally (frontier : list (string * string)) (acc : counters * World.t) :
  let c' := fst (loop acc frontier) in
  tally c' = tally (fst acc) + Z.of_nat (length frontier)
  /\ added (fst acc) <= added c'
  /\ skipped_quality (fst acc) <= skipped_quality c'
  /\ skipped_text_extraction (fst acc) <= skipped_text_extraction c'
  /\ failed_urls c'
     = failed_urls (fst acc)
       ++ omap (fun entry =>
                  (fun e => (fst entry, e)) <$> failure_of force_refresh entry)
            frontier.
Proof.
  revert acc; induction frontier as [|entry rest IH]; intros [c w].
  - cbn [foldl fst omap length]. rewrite app_nil_r.
    split; [lia |]. split; [lia |]. split; [lia |]. split; [lia | reflexivity].
  - cbn [foldl]. destruct (step entry (c, w)) as [c1 w1] eqn:Hstep.
    pose proof (process_item_tally entry c w) as Hone.
    rewrite Hstep in Hone. cbn [fst] in Hone.
    destruct Hone as (Ht & Ha & Hq & Hx & Hf).
    destruct (IH (c1, w1)) as (Ht' & Ha' & Hq' & Hx' & Hf').
    cbn [fst] in *.
    split; [cbn [length]; lia |]. split; [lia |]. split; [lia |].
    split; [lia |]. rewrite Hf', Hf, <- app_assoc. f_equal.
    destruct (failure_of force_refresh entry) eqn:Hfail; cbn;
      rewrite Hfail; reflexivity.
Qed.

Lemma sequential_counts_nonneg
    (frontier : list (string * string)) (w : World.t) :
  0 <= added (fst (loop (counters_start, w) frontier)).
Proof.
  destruct (loop_tally frontier (counters_start, w)) as (_ & Ha & _).
  exact Ha.
Qed.

(** X1: the counts of a sequential pass partition the frontier: every
    entry is counted once, as added, skipped for its text, skipped for its
    quality or failed; no count is negative, and with the duplicates they
    add up to the number of discovered urls. *)
Theorem sequential_counts_partition_frontier
    (frontier : list (string * string)) (w : World.t) :
  let r := fst (_process_sequential frontier discovered_by_url params
                  manifest force_refresh w) in
  RunResult.added r + RunResult.skipped_quality r
  + RunResult.skipped_text_extraction r + RunResult.failed r
  = Z.of_nat (length frontier)
  /\ 0 <= RunResult.added r /\ 0 <= RunResult.skipped_quality r
  /\ 0 <= RunResult.skipped_text_extraction r /\ 0 <= RunResult.failed r
  /\ RunResult.failed r = Z.of_nat (length (RunResult.failed_details r))
  /\ RunResult.discovered r
     = RunResult.added r + RunResult.skipped_quality r
       + RunResult.skipped_text_extraction r + RunResult.failed r
       + RunResult.skipped_duplicate r.
Proof.
  unfold _process_sequential.
  pose proof (loop_tally frontier (counters_start, w)) as Htally.
  destruct (loop (counters_start, w) frontier) as [c w'].
  cbn in Htally |- *. destruct Htally as (Ht & Ha & Hq & Hx & _).
  repeat split; lia.
Qed.

(** X2: the failure details of a sequential pass are, in the order of the
    frontier, the urls whose fetch or extraction raised, each with the
    text of its exception; entries the quality gate turned down are not
    among them. *)
Theorem failed_details_are_the_raised_entries
    (frontier : list (string * string)) (w : World.t) :
  RunResult.failed_details
    (fst (_process_sequential frontier discovered_by_url params manifest
            force_refresh w))
  = omap (fun entry =>
            (fun e => (fst entry, e)) <$> failure_of force_refresh entry)
      frontier.
Proof.
  unfold _process_sequential.
  pose proof (loop_tally frontier (counters_start, w)) as Htally.
  destruct (loop (counters_start, w) frontier) as [c w'].
  cbn in Htally |- *. now destruct Htally as (_ & _ & _ & _ & ->).
Qed.

(** What one pass through the loop body does to the store. *)
Lemma process_item_store (entry : string * string) (c : counters) (w : World.t) :
  let w' := snd (step entry (c, w)) in
  exists new,
    World.writes w' = World.writes w ++ new
    /\ World.index w'
       = World.index w ++ map (fun d => index_record (Document.meta d)) new
    /\ World.saved w' = World.saved w
    /\ Forall (fun d =>
                 passes_gate force_refresh entry = true
                 /\ Document.stable_id d = snd entry
                 /\ Meta.doc_id (Document.meta d) = snd entry
                 /\ Meta.uri (Document.meta d) = fst entry
                 /\ 400 <= Z.of_nat (String.length (Document.text d))) new.
Proof.
  destruct entry as [url stable_id]. unfold process_item, passes_gate.
  cbn [fst snd].
  destruct (fetch_raw _ _ _) as [e | [[raw_bytes fetch_meta] raw_ext]].
  { exists []. cbn. now rewrite !app_nil_r. }
  destruct (parse_text _ _ _) as [e | parsed].
  { exists []. cbn. now rewrite !app_nil_r. }
  destruct (nonempty _) eqn:Hne; cbn [negb andb].
  2:{ exists []. cbn. now rewrite !app_nil_r. }
  destruct (_ <? _) eqn:Hlen; cbn [negb].
  { exists []. cbn. now rewrite !app_nil_r. }
  eexists [_]. cbn. split; [reflexivity |]. split; [reflexivity |].
  split; [reflexivity |]. repeat constructor. now apply Z.ltb_ge.
Qed.

Lemma loop_store (frontier : list (string * string)) (acc : counters * World.t) :
  let w' := snd (loop acc frontier) in
  exists new,
    World.writes w' = World.writes (snd acc) ++ new
    /\ World.index w'
       = World.index (snd acc)
         ++ map (fun d => index_record (Document.meta d)) new
    /\ World.saved w' = World.saved (snd acc)
    /\ Forall (fun d =>
                 exists entry,
                   entry ∈ frontier
                   /\ passes_gate force_refresh entry = true
                   /\ Document.stable_id d = snd entry
                   /\ Meta.doc_id (Document.meta d) = snd entry
                   /\ Meta.uri (Document.meta d) = fst entry
                   /\ 400 <= Z.of_nat (String.length (Document.text d))) new.
Proof.
  revert acc; induction frontier as [|entry rest IH]; intros [c w].
  - exists []. cbn. rewrite !app_nil_r. repeat split. constructor.
  - cbn [foldl]. destruct (step entry (c, w)) as [c1 w1] eqn:Hstep.
    pose proof (process_item_store entry c w) as Hone.
    rewrite Hstep in Hone. cbn [snd] in Hone.
    destruct Hone as (new1 & Hw1 & Hi1 & Hs1 & Hall1).
    destruct (IH (c1, w1)) as (new2 & Hw2 & Hi2 & Hs2 & Hall2).
    cbn [snd] in *. exists (new1 ++ new2).
    rewrite Hw2, Hw1, Hi2, Hi1, Hs2, Hs1, map_app, <- !app_assoc.
    split; [reflexivity |]. split; [reflexivity |]. split; [reflexivity |].
    apply Forall_app. split.
    + eapply Forall_impl; [exact Hall1 |]. intros d Hd. exists entry.
      split; [now left | exact Hd].
    + eapply Forall_impl; [exact Hall2 |].
      intros d (e & He & Hd). exists e. split; [now right | exact Hd].
Qed.

Lemma process_sequential_store
    (frontier : list (string * string)) (w : World.t) :
  let w' := snd (_process_sequential frontier discovered_by_url params
                   manifest force_refresh w) in
  exists new,
    World.writes w' = World.writes w ++ new
    /\ World.index w'
       = World.index w ++ map (fun d => index_record (Document.meta d)) new
    /\ Forall (fun d =>
                 exists entry,
                   entry ∈ frontier
                   /\ passes_gate force_refresh entry = true
                   /\ Document.stable_id d = snd entry
                   /\ Meta.doc_id (Document.meta d) = snd entry
                   /\ Meta.uri (Document.meta d) = fst entry
                   /\ 400 <= Z.of_nat (String.length (Document.text d))) new.
Proof.
  unfold _process_sequential.
  destruct (loop_store frontier (counters_start, w))
    as (new & Hw & Hi & _ & Hall).
  destruct (loop (counters_start, w) frontier) as [c w'].
  cbn in *. exists new. split; [exact Hw |]. split; [exact Hi | exact Hall].
Qed.

(** X3: whatever a sequential pass writes comes from the frontier and
    passed the gate: each document is stored under the stable id of a
    frontier entry, carries that id and the entry's url in its metadata,
    and has a text of at least 400 characters. *)
Theorem written_documents_passed_the_gate
    (frontier : list (string * string)) (w : World.t) :
  let w' := snd (_process_sequential frontier discovered_by_url params
                   manifest force_refresh w) in
  exists new,
    World.writes w' = World.writes w ++ new
    /\ forall d,
         d ∈ new ->
         exists url stable_id,
           (url, stable_id) ∈ frontier
           /\ passes_gate force_refresh (url, stable_id) = true
           /\ Document.stable_id d = stable_id
           /\ Meta.doc_id (Document.meta d) = stable_id
           /\ Meta.uri (Document.meta d) = url
           /\ 400 <= Z.of_nat (String.length (Document.text d)).
Proof.
  destruct (process_sequential_store frontier w) as (new & Hw & _ & Hall).
  exists new. split; [exact Hw |].
  intros d Hd. rewrite Forall_forall in Hall.
  destruct (Hall d Hd) as ([url stable_id] & Hin & Hrest).
  exists url, stable_id. split; [exact Hin | exact Hrest].
Qed.

(** X4: the index follows the writes: a sequential pass appends to the
    index one record per document it writes, in the same order, built from
    the metadata stored with that document (same id and url). *)
Theorem index_follows_writes
    (frontier : list (string * string)) (w : World.t) :
  let w' := snd (_process_sequential frontier discovered_by_url params
                   manifest force_refresh w) in
  exists new,
    World.writes w' = World.writes w ++ new
    /\ World.index w'
       = World.index w ++ map (fun d => index_record (Document.meta d)) new
    /\ map IndexRecord.id (drop (length (World.index w)) (World.index w'))
       = map Document.stable_id new
    /\ map IndexRecord.url (drop (length (World.index w)) (World.index w'))
       = map (fun d => Meta.uri (Document.meta d)) new.
Proof.
  destruct (process_sequential_store frontier w) as (new & Hw & Hi & Hall).
  exists new. split; [exact Hw |]. split; [exact Hi |].
  rewrite Hi, drop_app_length.
  clear Hw Hi. induction Hall as [|d new (e & _ & _ & Hid & Hdoc & _) _ IH].
  - split; reflexivity.
  - destruct IH as [IH1 IH2]. cbn. rewrite IH1, IH2, Hdoc, Hid.
    split; reflexivity.
Qed.

(** The metadata of a written document, as the loop body builds it. *)
Lemma process_item_meta (entry : string * string) (c : counters) (w : World.t) :
  exists new,
    World.writes (snd (step entry (c, w))) = World.writes w ++ new
    /\ Forall (fun d =>
                 Meta.source (Document.meta d) = Manifest.source manifest
                 /\ Meta.keywords (Document.meta d)
                    = BuilderParams.keywords params
                 /\ Meta.extra (Document.meta d)
                    = default ∅ (DiscoveryItem.extra
                                   <$> discovered_by_url
                                       !! Meta.uri (Document.meta d))
                      ∪ BuilderParams.extra params) new.
Proof.
  destruct entry as [url stable_id]. unfold process_item.
  destruct (fetch_raw _ _ _) as [e | [[raw_bytes fetch_meta] raw_ext]];
    [exists []; cbn; now rewrite app_nil_r |].
  destruct (parse_text _ _ _) as [e | parsed];
    [exists []; cbn; now rewrite app_nil_r |].
  destruct (negb _); [exists []; cbn; now rewrite app_nil_r |].
  destruct (_ <? _); [exists []; cbn; now rewrite app_nil_r |].
  eexists [_]. cbn. split; [reflexivity |].
  repeat constructor. cbn. now destruct (discovered_by_url !! url).
Qed.

Lemma loop_meta (frontier : list (string * string)) (acc : counters * World.t) :
  exists new,
    World.writes (snd (loop acc frontier)) = World.writes (snd acc) ++ new
    /\ Forall (fun d =>
                 Meta.source (Document.meta d) = Manifest.source manifest
                 /\ Meta.keywords (Document.meta d)
                    = BuilderParams.keywords params
                 /\ Meta.extra (Document.meta d)
                    = default ∅ (DiscoveryItem.extra
                                   <$> discovered_by_url
                                       !! Meta.uri (Document.meta d))
                      ∪ BuilderParams.extra params) new.
Proof.
  revert acc; induction frontier as [|entry rest IH]; intros [c w].
  - exists []. cbn. rewrite app_nil_r. split; [reflexivity | constructor].
  - cbn [foldl]. destruct (process_item_meta entry c w) as (new1 & Hw1 & Hall1).
    destruct (step entry (c, w)) as [c1 w1].
    destruct (IH (c1, w1)) as (new2 & Hw2 & Hall2).
    cbn [snd] in *. exists (new1 ++ new2).
    rewrite Hw2, Hw1, <- app_assoc. split; [reflexivity |].
    now apply Forall_app.
Qed.

(** X27: the metadata stored with a document merges the extras with the
    item's own on top: every document a sequential pass writes carries
    the manifest's source and the run's keywords, and under each key of
    its [extra] the value of the discovery item found under its url when
    that item has the key, the run-level value otherwise; the
    [collection_id] of its index record is read from that merge. *)
Theorem stored_metadata_merges_extras
    (frontier : list (string * string)) (w : World.t) :
  exists new,
    World.writes (snd (_process_sequential frontier discovered_by_url params
                         manifest force_refresh w))
    = World.writes w ++ new
    /\ forall d,
         d ∈ new ->
         let meta := Document.meta d in
         let found := discovered_by_url !! Meta.uri meta in
         let merged key :=
           match found ≫= (fun item => DiscoveryItem.extra item !! key) with
           | Some v => Some v
           | None => BuilderParams.extra params !! key
           end in
         Meta.source meta = Manifest.source manifest
         /\ Meta.keywords meta = BuilderParams.keywords params
         /\ (forall key, Meta.extra meta !! key = merged key)
         /\ IndexRecord.collection_id (index_record meta)
            = merged "collection_id".
Proof.
  destruct (loop_meta frontier (counters_start, w)) as (new & Hw & Hall).
  unfold _process_sequential.
  destruct (loop (counters_start, w) frontier) as [c w'].
  cbn in *. exists new. split; [exact Hw |].
  intros d Hd. rewrite Forall_forall in Hall.
  destruct (Hall d Hd) as (Hsource & Hkeywords & Hextra).
  assert (Hkey : forall key,
             Meta.extra (Document.meta d) !! key
             = match discovered_by_url !! Meta.uri (Document.meta d)
                     ≫= (fun item => DiscoveryItem.extra item !! key) with
               | Some v => Some v
               | None => BuilderParams.extra params !! key
               end).
  { intros key. rewrite Hextra, lookup_union.
    destruct (discovered_by_url !! Meta.uri (Document.meta d)) as [item|];
      cbn.
    - destruct (DiscoveryItem.extra item !! key) as [v|];
        [apply union_Some_l | apply (left_id_L None union)].
    - rewrite lookup_empty. apply (left_id_L None union). }
  split; [exact Hsource |]. split; [exact Hkeywords |].
  split; [exact Hkey | apply Hkey].
Qed.

End Loop.

(** Any run that returns went through the sequential path: directly, or
    as the fallback of the concurrent path on the store the spider left. *)
Lemma run_returned `{Collaborators} (found : list DiscoveryItem.t)
    (params : BuilderParams.t) (manifest : Manifest.t) (w w' : World.t)
    (ret : run_return) :
  run found params manifest w = (Return ret, w') ->
  exists pairs w1,
    pairs_of (_apply_filters found params) = Some pairs
    /\ (flag (BuilderParams.extra params) "use_concurrent_processing" true
        = false -> w1 = w)
    /\ (ret, w')
       = (SequentialReturn
            (fst (_process_sequential (frontier_of pairs w)
                    (by_url (_apply_filters found params)) params
                    {| Manifest.source := Manifest.source manifest;
                       Manifest.params := Some params;
                       Manifest.history := Manifest.history manifest;
                       Manifest.doc_count := Manifest.doc_count manifest |}
                    (flag (BuilderParams.extra params) "force_refresh_cache"
                       false) w1)),
          snd (_process_sequential (frontier_of pairs w)
                 (by_url (_apply_filters found params)) params
                 {| Manifest.source := Manifest.source manifest;
                    Manifest.params := Some params;
                    Manifest.history := Manifest.history manifest;
                    Manifest.doc_count := Manifest.doc_count manifest |}
                 (flag (BuilderParams.extra params) "force_refresh_cache"
                    false) w1)).
Proof.
  unfold run.
  destruct (pairs_of _) as [pairs|]; [| discriminate].
  destruct (flag _ "use_concurrent_processing" true) eqn:Hmode.
  - unfold _process_concurrent.
    destruct (concurrent_settings _) as [[cr dd]|]; [| discriminate].
    match goal with
    | |- context [concurrent_attempt ?f ?d ?p ?m ?fr cr dd w] =>
        destruct (OrchestratorFacts.concurrent_attempt_raises d p m fr f cr dd w)
          as (e & w1 & ->)
    end.
    match goal with
    | |- context [_process_sequential ?f ?d ?p ?m ?fr w1] =>
        destruct (_process_sequential f d p m fr w1) as [r w2] eqn:Hseq
    end.
    intros [= <- <-]. exists pairs, w1.
    split; [reflexivity |]. split; [discriminate |].
    cbv zeta in Hseq. now rewrite Hseq.
  - match goal with
    | |- context [_process_sequential ?f ?d ?p ?m ?fr w] =>
        destruct (_process_sequential f d p m fr w) as [r w2] eqn:Hseq
    end.
    intros [= <- <-]. exists pairs, w.
    split; [reflexivity |]. split; [reflexivity |].
    cbv zeta in Hseq. now rewrite Hseq.
Qed.

(** X5: whenever a run returns, in either mode, the manifest it saved is
    the one it was given with the run's parameters recorded, the
    document count raised by [added] and exactly one record appended to
    the history, whose counts are those of the returned result; earlier
    records are untouched. *)
Theorem run_appends_one_history_record `{Collaborators}
    (found : list DiscoveryItem.t) (params : BuilderParams.t)
    (manifest : Manifest.t) (w w' : World.t) (ret : run_return) :
  run found params manifest w = (Return ret, w') ->
  exists r m record,
    ret = SequentialReturn r
    /\ World.saved w' = Some m
    /\ Manifest.params m = Some params
    /\ Manifest.source m = Manifest.source manifest
    /\ Manifest.history m = Manifest.history manifest ++ [record]
    /\ Manifest.doc_count m = Manifest.doc_count manifest + RunResult.added r
    /\ Manifest.doc_count manifest <= Manifest.doc_count m
    /\ HistoryRecord.discovered record = RunResult.discovered r
    /\ HistoryRecord.added record = RunResult.added r
    /\ HistoryRecord.skipped_quality record = RunResult.skipped_quality r
    /\ HistoryRecord.skipped_text_extraction record
       = RunResult.skipped_text_extraction r
    /\ HistoryRecord.skipped_duplicate record = RunResult.skipped_duplicate r
    /\ HistoryRecord.failed record = RunResult.failed r.
Proof.
  intros Hrun. destruct (run_returned _ _ _ _ _ _ Hrun) as (pairs & w1 & _ & _ & Heq).
  match type of Heq with
  | _ = (SequentialReturn (fst (_process_sequential ?f ?d ?p ?m ?fr w1)), _) =>
      pose proof (sequential_counts_nonneg d p m fr f w1) as Hnonneg;
      revert Heq Hnonneg; unfold _process_sequential;
      destruct (foldl _ (counters_start, w1) f) as [c w2]
  end.
  cbn. intros [= -> ->] Hnonneg.
  eexists _, _, _. repeat (split; [reflexivity |]).
  split; [cbn; lia |]. repeat (split; [reflexivity |]). reflexivity.
Qed.

#[local] Existing Instance Demo.collaborators.

Lemma run_appends_one_history_record_witness :
  exists w' m record,
    snd (run [Demo.item "https://x.com/long"; Demo.item "https://x.com/short"]
           (Demo.params Demo.sequential) Demo.manifest World.empty) = w'
    /\ World.saved w' = Some m
    /\ Manifest.history m = [record]
    /\ Manifest.doc_count m = 1
    /\ HistoryRecord.skipped_quality record = 1.
Proof.
  edestruct (run_appends_one_history_record
               [Demo.item "https://x.com/long"; Demo.item "https://x.com/short"]
               (Demo.params Demo.sequential) Demo.manifest World.empty)
    as (r & m & record & Hret & Hsaved & _ & _ & Hhistory & Hcount & _ & _
        & _ & Hquality & _);
    [vm_compute; reflexivity |].
  injection Hret as <-.
  eexists _, m, record.
  exact (conj eq_refl (conj Hsaved (conj Hhistory (conj Hcount Hquality)))).
Defined.

End SequentialFacts.
(** ** Blacklist filters *)

Module FilterFacts.
Import PyStr Notions MoreNotions Builder StrFacts.

Section Filters.
Context `{Collaborators}.

Lemma existsb_occurs (bl : list string) (s : string) :
  existsb (fun pat => contains (lower pat) (lower s)) bl = true
  <-> exists pat, pat ∈ bl /\ occurs_ci pat s.
Proof.
  rewrite existsb_exists. split.
  - intros (pat & Hin & Hpat). exists pat.
    split; [now apply list_elem_of_In | now apply occurs_ci_iff].
  - intros (pat & Hin & Hpat). exists pat.
    split; [now apply list_elem_of_In | now apply occurs_ci_iff].
Qed.

Lemma url_blacklisted_iff (url : string) (bl : list string) :
  _is_url_blacklisted url bl = true
  <-> exists pat, pat ∈ bl /\ occurs_ci pat url.
Proof. apply existsb_occurs. Qed.

Lemma domain_blacklisted_iff (url : string) (bl : list string) :
  _is_domain_blacklisted url bl = true
  <-> exists pat p,
        pat ∈ bl /\ Url.urlparse check_bracketed_host url = Some p
        /\ occurs_ci pat (Url.netloc p).
Proof.
  unfold _is_domain_blacklisted.
  destruct (Url.urlparse check_bracketed_host url) as [p|].
  - rewrite existsb_occurs. split.
    + intros (pat & Hin & Hpat). now exists pat, p.
    + intros (pat & p' & Hin & [= <-] & Hpat). now exists pat.
  - split; [discriminate | intros (_ & _ & _ & [=] & _)].
Qed.

(** The two passes of [_apply_filters] are one filter. *)
Lemma apply_filters_filter (items : list DiscoveryItem.t)
    (params : BuilderParams.t) :
  _apply_filters items params = filter (fun item => allowed params item) items.
Proof.
  unfold _apply_filters, allowed.
  set (dbl := string_list (BuilderParams.extra params !! "domain_blacklist")).
  set (ubl := string_list (BuilderParams.extra params !! "url_blacklist")).
  assert (Hd : forall l : list DiscoveryItem.t,
             match dbl with
             | [] => l
             | _ => filter (fun item =>
                              negb (_is_domain_blacklisted
                                      (DiscoveryItem.url item) dbl)) l
             end
             = filter (fun item =>
                         negb (_is_domain_blacklisted
                                 (DiscoveryItem.url item) dbl)) l).
  { intros l. destruct dbl as [|b dbl]; [| reflexivity].
    symmetry. induction l as [|x l IH]; [reflexivity |].
    rewrite filter_cons_True, IH; [reflexivity |].
    unfold _is_domain_blacklisted. now destruct (Url.urlparse _ _). }
  assert (Hu : forall l : list DiscoveryItem.t,
             match ubl with
             | [] => l
             | _ => filter (fun item =>
                              negb (_is_url_blacklisted
                                      (DiscoveryItem.url item) ubl)) l
             end
             = filter (fun item =>
                         negb (_is_url_blacklisted
                                 (DiscoveryItem.url item) ubl)) l).
  { intros l. destruct ubl as [|b ubl]; [| reflexivity].
    symmetry. induction l as [|x l IH]; [reflexivity |].
    rewrite filter_cons_True, IH; [reflexivity | exact I]. }
  rewrite Hu, Hd, list_filter_filter.
  apply list_filter_iff. intros item.
  destruct (_is_domain_blacklisted _ dbl), (_is_url_blacklisted _ ubl);
    cbn; tauto.
Qed.

(** X6: the filters keep, in their order, exactly the items that no
    pattern turns down: an item survives if and only if no pattern of the
    domain blacklist occurs, whatever the case of its letters, in the
    network location of its url (a url that does not parse is never
    turned down on its domain) and no pattern of the url blacklist
    occurs in the url itself. *)
Theorem filters_keep_exactly_the_allowed (items : list DiscoveryItem.t)
    (params : BuilderParams.t) :
  blacklists_are_lists params = true ->
  sublist (_apply_filters items params) items
  /\ forall item,
       item ∈ _apply_filters items params
       <-> item ∈ items
           /\ (forall pat p,
                 pat ∈ string_list
                         (BuilderParams.extra params !! "domain_blacklist") ->
                 Url.urlparse check_bracketed_host (DiscoveryItem.url item)
                 = Some p ->
                 ~ occurs_ci pat (Url.netloc p))
           /\ (forall pat,
                 pat ∈ string_list
                         (BuilderParams.extra params !! "url_blacklist") ->
                 ~ occurs_ci pat (DiscoveryItem.url item)).
Proof.
  intros _. rewrite apply_filters_filter. split; [apply sublist_filter |].
  intros item. rewrite list_elem_of_filter. unfold allowed.
  split.
  - intros [Hallowed Hin]. split; [exact Hin |].
    apply andb_prop_elim in Hallowed as [Hd Hu].
    apply negb_prop_elim in Hd. apply negb_prop_elim in Hu.
    split.
    + intros pat p Hpat Hparse Hocc. apply Hd, Is_true_true.
      apply domain_blacklisted_iff. now exists pat, p.
    + intros pat Hpat Hocc. apply Hu, Is_true_true.
      apply url_blacklisted_iff. now exists pat.
  - intros (Hin & Hd & Hu). split; [| exact Hin].
    apply andb_prop_intro. split; apply negb_prop_intro; intros Hb;
      apply Is_true_true in Hb.
    + apply domain_blacklisted_iff in Hb as (pat & p & Hpat & Hparse & Hocc).
      exact (Hd pat p Hpat Hparse Hocc).
    + apply url_blacklisted_iff in Hb as (pat & Hpat & Hocc).
      exact (Hu pat Hpat Hocc).
Qed.

(** X7: filtering is idempotent: filtering the survivors again with
    the same parameters removes nothing more. *)
Theorem filters_idempotent (items : list DiscoveryItem.t)
    (params : BuilderParams.t) :
  blacklists_are_lists params = true ->
  _apply_filters (_apply_filters items params) params
  = _apply_filters items params.
Proof.
  intros _. rewrite !apply_filters_filter, list_filter_filter.
  apply list_filter_iff. tauto.
Qed.

Lemma occurs_empty (s : string) : occurs_ci EmptyString s.
Proof. exists EmptyString, EmptyString, s. split; reflexivity. Qed.

(** X8: an empty pattern matches everything: with an empty string in the
    url blacklist no item survives, and with one in the domain blacklist
    only the items whose url does not parse survive. *)
Theorem empty_pattern_drops_everything (items : list DiscoveryItem.t)
    (params : BuilderParams.t) :
  blacklists_are_lists params = true ->
  (EmptyString
     ∈ string_list (BuilderParams.extra params !! "url_blacklist") ->
   _apply_filters items params = [])
  /\ (EmptyString
        ∈ string_list (BuilderParams.extra params !! "domain_blacklist") ->
      forall item,
        item ∈ _apply_filters items params ->
        Url.urlparse check_bracketed_host (DiscoveryItem.url item) = None).
Proof.
  intros _. rewrite apply_filters_filter. split.
  - intros Hin. apply FrontierFacts.filter_none. intros item _ Hallowed.
    unfold allowed in Hallowed.
    apply andb_prop_elim in Hallowed as [_ Hu]. apply negb_prop_elim in Hu.
    apply Hu, Is_true_true, url_blacklisted_iff.
    exists EmptyString. split; [exact Hin | apply occurs_empty].
  - intros Hin item Hitem. apply list_elem_of_filter in Hitem as [Hallowed _].
    unfold allowed in Hallowed.
    apply andb_prop_elim in Hallowed as [Hd _]. apply negb_prop_elim in Hd.
    destruct (Url.urlparse check_bracketed_host (DiscoveryItem.url item))
      as [p|] eqn:Hparse; [| reflexivity].
    exfalso. apply Hd, Is_true_true, domain_blacklisted_iff.
    exists EmptyString, p.
    split; [exact Hin |]. split; [exact Hparse | apply occurs_empty].
Qed.

Lemma pairs_of_elem (discovered : list DiscoveryItem.t)
    (pairs : list (string * string)) (u s : string) :
  pairs_of discovered = Some pairs ->
  (u, s) ∈ pairs ->
  exists item, item ∈ discovered /\ DiscoveryItem.url item = u /\ sid u = Some s.
Proof.
  unfold pairs_of. intros Hpairs Hin. apply mapM_Some_1 in Hpairs.
  apply list_elem_of_lookup in Hin as [i Hi].
  destruct (Forall2_lookup_r _ _ _ _ _ Hpairs Hi) as (item & Hitem & Hsid).
  exists item. split; [now apply list_elem_of_lookup_2 in Hitem |].
  destruct (sid (DiscoveryItem.url item)) as [s'|] eqn:Hs; [| discriminate].
  cbn in Hsid. injection Hsid as <- <-. split; [reflexivity | exact Hs].
Qed.

(** X9: a sequential run touches only what the filters let through:
    every url it fetches and every document it writes belongs to a
    discovered item that passed both blacklists and whose id the store
    did not hold. *)
Theorem run_touches_only_allowed_items
    (found : list DiscoveryItem.t) (params : BuilderParams.t)
    (manifest : Manifest.t) (w w' : World.t) (ret : run_return) :
  blacklists_are_lists params = true ->
  flag (BuilderParams.extra params) "use_concurrent_processing" true = false ->
  run found params manifest w = (Return ret, w') ->
  exists urls new,
    World.fetches w' = World.fetches w ++ urls
    /\ World.writes w' = World.writes w ++ new
    /\ (forall u,
          u ∈ urls ->
          exists item s,
            item ∈ found /\ DiscoveryItem.url item = u
            /\ allowed params item = true
            /\ sid u = Some s /\ World.has_doc w s = false)
    /\ (forall d,
          d ∈ new ->
          exists item,
            item ∈ found
            /\ DiscoveryItem.url item = Meta.uri (Document.meta d)
            /\ allowed params item = true
            /\ sid (DiscoveryItem.url item) = Some (Document.stable_id d)
            /\ World.has_doc w (Document.stable_id d) = false).
Proof.
  intros _ Hmode Hrun.
  destruct (SequentialFacts.run_returned _ _ _ _ _ _ Hrun)
    as (pairs & w1 & Hpairs & Hw1 & Heq).
  rewrite (Hw1 Hmode) in Heq. clear Hw1 w1.
  assert (Hentry : forall u s,
             (u, s) ∈ frontier_of pairs w ->
             exists item,
               item ∈ found /\ DiscoveryItem.url item = u
               /\ allowed params item = true
               /\ sid u = Some s /\ World.has_doc w s = false).
  { intros u s Hin. apply FrontierFacts.frontier_of_spec in Hin as [Hin Hlacks].
    destruct (pairs_of_elem _ _ _ _ Hpairs Hin) as (item & Hitem & Hurl & Hsid).
    rewrite apply_filters_filter in Hitem.
    apply list_elem_of_filter in Hitem as [Hallowed Hitem].
    exists item. split; [exact Hitem |]. split; [exact Hurl |].
    split; [now apply Is_true_true |]. split; [exact Hsid | exact Hlacks]. }
  match type of Heq with
  | _ = (_, snd (_process_sequential ?f ?d ?p ?m ?fr w)) =>
      destruct (FrontierFacts.process_sequential_spec d p m fr f w)
        as (_ & _ & _ & Hfetches & _);
      destruct (SequentialFacts.process_sequential_store d p m fr f w)
        as (new & Hwrites & _ & Hall)
  end.
  injection Heq as _ ->.
  exists (map fst (frontier_of pairs w)), new.
  split; [exact Hfetches |]. split; [exact Hwrites |]. split.
  - intros u Hu. apply list_elem_of_fmap in Hu as ([u' s] & -> & Hin).
    destruct (Hentry u' s Hin) as (item & Hrest). now exists item, s.
  - intros d Hd. rewrite Forall_forall in Hall.
    destruct (Hall d Hd) as ([u s] & Hin & _ & Hid & _ & Huri & _).
    destruct (Hentry u s Hin) as (item & Hitem & Hurl & Hallowed & Hsid & Hl).
    cbn [fst snd] in *. exists item. rewrite Huri, Hid, Hurl.
    split; [exact Hitem |]. split; [reflexivity |].
    split; [exact Hallowed |]. split; [exact Hsid | exact Hl].
Qed.

End Filters.

#[local] Existing Instance Demo.collaborators.

Lemma filters_keep_exactly_the_allowed_witness :
  blacklists_are_lists (Demo.params Samples.choosy) = true
  /\ _apply_filters Samples.finds (Demo.params Samples.choosy)
     = [Demo.item "https://y.org/long"]
  /\ sublist (_apply_filters Samples.finds (Demo.params Samples.choosy))
       Samples.finds.
Proof.
  split; [reflexivity |]. split; [vm_compute; reflexivity |].
  exact (proj1 (filters_keep_exactly_the_allowed Samples.finds
                  (Demo.params Samples.choosy) eq_refl)).
Defined.

Lemma filters_idempotent_witness :
  _apply_filters (_apply_filters Samples.finds (Demo.params Samples.choosy))
    (Demo.params Samples.choosy)
  = _apply_filters Samples.finds (Demo.params Samples.choosy).
Proof.
  exact (filters_idempotent Samples.finds (Demo.params Samples.choosy)
           eq_refl).
Defined.

Lemma empty_pattern_drops_everything_witness :
  _apply_filters Samples.finds
    (Demo.params {[ "url_blacklist" := EList [EmptyString] ]}) = [].
Proof.
  refine (proj1 (empty_pattern_drops_everything Samples.finds
                   (Demo.params {[ "url_blacklist" := EList [EmptyString] ]})
                   eq_refl) _).
  vm_compute. left.
Defined.

Lemma run_touches_only_allowed_items_witness :
  exists urls,
    World.fetches (snd (run Samples.finds (Demo.params Samples.choosy) Demo.manifest
                          World.empty))
    = World.fetches World.empty ++ urls
    /\ forall u, u ∈ urls ->
         exists item, item ∈ Samples.finds /\ DiscoveryItem.url item = u
                      /\ allowed (Demo.params Samples.choosy) item = true.
Proof.
  edestruct (run_touches_only_allowed_items Samples.finds (Demo.params Samples.choosy)
               Demo.manifest World.empty)
    as (urls & new & Hfetches & _ & Hurls & _);
    [reflexivity | vm_compute; reflexivity | vm_compute; reflexivity |].
  exists urls. split; [exact Hfetches |].
  intros u Hu. destruct (Hurls u Hu) as (item & s & Hitem & Hurl & Hallowed & _).
  exists item. exact (conj Hitem (conj Hurl Hallowed)).
Defined.

End FilterFacts.
(** ** Quoting of terms and blank queries *)

Module QuoteFacts.
Import PyStr Notions MoreNotions Builder StrFacts.

Lemma drop_while_head (f : ascii -> bool) (s : string) :
  head_ok f (drop_while f s) = true.
Proof.
  induction s as [|c s IH]; [reflexivity |].
  cbn [drop_while]. destruct (f c) eqn:Hc; [exact IH |].
  cbn. now rewrite Hc.
Qed.

Lemma drop_while_fixed (f : ascii -> bool) (s : string) :
  head_ok f s = true -> drop_while f s = s.
Proof.
  destruct s as [|c s]; [reflexivity |]. cbn.
  now destruct (f c).
Qed.

Lemma drop_while_suffix (f : ascii -> bool) (s : string) :
  exists pre, s = pre +:+ drop_while f s.
Proof.
  induction s as [|c s [pre IH]]; [now exists EmptyString |].
  cbn [drop_while]. destruct (f c).
  - exists (String c pre). now rewrite append_cons, <- IH.
  - now exists EmptyString.
Qed.

Lemma head_ok_prefix (f : ascii -> bool) (a b : string) :
  head_ok f (a +:+ b) = true -> head_ok f a = true.
Proof. destruct a as [|c a]; [reflexivity |]. now rewrite append_cons. Qed.

Lemma strip_trimmed (s : string) : trimmed s = true -> strip s = s.
Proof.
  unfold trimmed, strip, rstrip_by, lstrip_by.
  intros [Hhead Htail]%andb_prop.
  rewrite (drop_while_fixed _ _ Hhead), (drop_while_fixed _ _ Htail).
  apply reverse_involutive.
Qed.

Lemma trimmed_strip (s : string) : trimmed (strip s) = true.
Proof.
  unfold trimmed, strip, rstrip_by, lstrip_by.
  rewrite reverse_involutive, drop_while_head, andb_true_r.
  destruct (drop_while_suffix is_space (reverse (drop_while is_space s)))
    as [pre Hpre].
  apply (f_equal reverse) in Hpre.
  rewrite reverse_involutive, reverse_app in Hpre.
  apply (head_ok_prefix _ _ (reverse pre)). rewrite <- Hpre.
  apply drop_while_head.
Qed.

Lemma strip_idempotent (s : string) : strip (strip s) = strip s.
Proof. apply strip_trimmed, trimmed_strip. Qed.

Lemma between_quotes (x : string) :
  let q := dquote +:+ x +:+ dquote in
  trimmed q = true /\ startswith dquote q = true /\ endswith dquote q = true.
Proof.
  cbn zeta. unfold trimmed, endswith, dquote.
  rewrite !reverse_app, !append_cons, !append_nil.
  change (reverse (String "034" EmptyString)) with (String "034" EmptyString).
  rewrite !append_cons. repeat split.
Qed.

(** A stripped term that carries an operator or is already between
    quotes is returned as it is. *)
Lemma quote_term_fixed (t : string) :
  strip t = t ->
  existsb (fun op => contains op (upper t)) [" OR "; " AND "; "("; ")"] = true
  \/ (startswith dquote t && endswith dquote t)
     || (startswith squote t && endswith squote t) = true ->
  _quote_term t = t.
Proof.
  intros Hstrip Htest. unfold _quote_term. rewrite Hstrip.
  destruct (existsb _ _); [reflexivity |].
  destruct Htest as [[=] | ->]. reflexivity.
Qed.

(** X10: quoting is idempotent, and what it returns has no white space
    at either end: a term that went through [_quote_term] comes back
    unchanged from a second pass, so quoted terms are never quoted
    twice. *)
Theorem quote_term_idempotent (term : string) :
  _quote_term (_quote_term term) = _quote_term term
  /\ strip (_quote_term term) = _quote_term term.
Proof.
  assert (Hstripped : strip (_quote_term term) = _quote_term term).
  { destruct (QueryFacts._quote_term_cases term) as [-> | ->].
    - apply strip_idempotent.
    - apply strip_trimmed, between_quotes. }
  split; [| exact Hstripped].
  apply quote_term_fixed; [exact Hstripped |].
  unfold _quote_term. cbv zeta.
  set (t := strip term).
  destruct (existsb (fun op => contains op (upper t))
              [" OR "; " AND "; "("; ")"]) eqn:Hop; [now left |].
  destruct ((startswith dquote t && endswith dquote t)
            || (startswith squote t && endswith squote t)) eqn:Hquoted;
    [now right |].
  right.
  destruct (between_quotes (replace_char "034" (backslash +:+ dquote) t))
    as (_ & -> & ->).
  reflexivity.
Qed.

Lemma or_group_nonempty (terms : list string) : or_group terms <> EmptyString.
Proof. unfold or_group. now rewrite append_cons. Qed.

Lemma quoted_terms_nil (words : list string) :
  quoted_terms words = [] <-> Forall (fun t => strip t = EmptyString) words.
Proof.
  unfold quoted_terms. induction words as [|t words IH].
  - split; [constructor | reflexivity].
  - rewrite filter_cons. destruct (strip t) eqn:Ht; cbn.
    + rewrite IH. split.
      * intros Hall. now constructor.
      * intros Hall. now inversion Hall.
    + rewrite decide_True by exact I. cbn. split; [discriminate |].
      intros Hall. inversion Hall as [|? ? Hblank]; subst.
      rewrite Ht in Hblank. discriminate.
Qed.

Lemma compile_empty (m : list (string * list string)) :
  _compile_keywords_map_to_query m = EmptyString
  <-> Forall (fun kv => Forall (fun t => strip t = EmptyString) (snd kv)) m.
Proof.
  unfold _compile_keywords_map_to_query.
  set (group := fun '(_, words) =>
                  match quoted_terms words with
                  | [] => []
                  | terms => [or_group terms]
                  end).
  assert (Hnil : flat_map group m = []
                 <-> Forall (fun kv : string * list string =>
                               Forall (fun t => strip t = EmptyString) (snd kv))
                       m).
  { induction m as [|[lang words] m IH].
    - split; [constructor | reflexivity].
    - cbn [flat_map]. split.
      + intros [Hhead Htail]%app_eq_nil. constructor.
        * cbn [snd]. apply quoted_terms_nil. unfold group in Hhead.
          cbv beta iota in Hhead.
          destruct (quoted_terms words); [reflexivity | discriminate].
        * now apply IH.
      + intros Hall. inversion Hall as [|? ? Hwords Hrest]; subst.
        cbn [snd] in Hwords.
        apply quoted_terms_nil in Hwords. apply IH in Hrest.
        unfold group at 1. cbv beta iota. now rewrite Hwords, Hrest. }
  rewrite <- Hnil. destruct (flat_map group m) as [|g gs].
  - split; reflexivity.
  - split; [intros Habs; now apply or_group_nonempty in Habs | discriminate].
Qed.

(** X11: an empty query can only come from a keyword mapping whose words
    are all blank: explicit queries are never blank, blank flat keywords
    give no query at all, but a non-empty mapping always gives exactly
    one query, which is the empty string when no word is left. *)
Theorem empty_query_only_from_blank_mapping (params : BuilderParams.t) :
  EmptyString ∈ _prepare_queries params
  <-> nonempty_list (BuilderParams.extra params !! "queries") = false
      /\ exists m,
           BuilderParams.extra params !! "keywords" = Some (EMap m)
           /\ m <> []
           /\ Forall (fun kv =>
                        Forall (fun t => strip t = EmptyString) (snd kv)) m.
Proof.
  destruct (nonempty_list (BuilderParams.extra params !! "queries")) eqn:Hq.
  - split; [| intros [[=] _]].
    destruct (BuilderParams.extra params !! "queries")
      as [[| | | | |qs|]|] eqn:Hqs; try discriminate.
    rewrite (QueryFacts.queries_take_precedence params qs Hqs)
      by (now rewrite Hqs).
    intros Hin. apply list_elem_of_fmap in Hin as (q & Hq' & Hin).
    apply list_elem_of_filter in Hin as [Hne _].
    rewrite <- Hq' in Hne. contradiction.
  - destruct (nonempty_map (BuilderParams.extra params !! "keywords")) eqn:Hk.
    + destruct (BuilderParams.extra params !! "keywords")
        as [[| | | | | |m]|] eqn:Hm; try discriminate.
      rewrite (QueryFacts.keywords_map_second params m Hq Hm)
        by (now rewrite Hm).
      rewrite list_elem_of_singleton. split.
      * intros Hempty. split; [reflexivity |]. exists m.
        split; [reflexivity |]. split; [now destruct m |].
        now apply compile_empty.
      * intros (_ & m' & [= <-] & _ & Hall). symmetry.
        now apply compile_empty.
    + rewrite (QueryFacts.flat_keywords_last params Hq Hk). split.
      * destruct (quoted_terms _) as [|t ts].
        -- intros Hin. inversion Hin.
        -- rewrite list_elem_of_singleton. intros Habs. symmetry in Habs.
           now apply or_group_nonempty in Habs.
      * intros (_ & m & Hm & Hne & _). rewrite Hm in Hk.
        destruct m; [contradiction | discriminate].
Qed.

End QuoteFacts.
(** ** The pagination loop *)

Module PaginationFacts.
Import PyStr Notions MoreNotions Builder.

Section Loop.
Variables (max_stories : option Z) (n_all : nat)
          (collection_name : string) (collection_id : extra_val)
          (story_list : nat -> reply (list Story.t * option string)).

#[local] Abbreviation tag := (tag_story collection_name collection_id).
#[local] Abbreviation iteration :=
  (page_iteration max_stories n_all collection_name collection_id story_list).
#[local] Abbreviation loop fuel :=
  (paginate fuel max_stories n_all collection_name collection_id story_list).

Lemma append_pages_spec (pages acc : list Story.t) :
  let out := append_pages max_stories n_all collection_name collection_id
               pages acc in
  fst out `prefix_of` acc ++ map tag pages
  /\ (snd out = false -> fst out = acc ++ map tag pages)
  /\ (max_stories = None -> snd out = false)
  /\ (forall m : Z,
        max_stories = Some m -> m <> 0 ->
        Z.of_nat (n_all + length acc) < m ->
        Z.of_nat (n_all + length (fst out)) <= m).
Proof.
  revert acc; induction pages as [|story rest IH]; intros acc; cbn [append_pages].
  - cbn. rewrite app_nil_r. split; [reflexivity |]. split; [reflexivity |].
    split; [reflexivity |]. intros m _ _ Hlt. lia.
  - destruct (limit_reached max_stories n_all (acc ++ [tag story])) eqn:Hlimit.
    + cbn. split; [now apply prefix_app, prefix_cons, prefix_nil |].
      split; [discriminate |]. split.
      * intros ->. discriminate.
      * intros m _ _ Hlt. rewrite length_app in *. cbn. lia.
    + destruct (IH (acc ++ [tag story])) as (Hprefix & Hfull & Hnone & Hcap).
      cbv zeta. cbn [map].
      replace (acc ++ tag story :: map tag rest)
        with ((acc ++ [tag story]) ++ map tag rest)
        by (now rewrite <- app_assoc).
      split; [exact Hprefix |]. split; [exact Hfull |].
      split; [exact Hnone |].
      intros m Hm Hm0 Hlt. apply (Hcap m Hm Hm0).
      rewrite Hm in Hlimit. unfold limit_reached in Hlimit.
      apply andb_false_iff in Hlimit as [Hzero | Hle].
      * apply negb_false_iff, Z.eqb_eq in Hzero. contradiction.
      * now apply Z.leb_gt in Hle.
Qed.

#[local] Abbreviation threaded :=
  (MoreNotions.threaded max_stories collection_name collection_id story_list).

Lemma threaded_start : threaded page_start.
Proof.
  unfold MoreNotions.threaded. cbn.
  split; [reflexivity |]. split; [reflexivity |]. split; [reflexivity |].
  split; [apply prefix_nil |]. intros _. reflexivity.
Qed.

Lemma seq_snoc (n : nat) : seq 0 (S n) = seq 0 n ++ [n].
Proof. now rewrite seq_S. Qed.

Lemma limit_reached_none (stories : list Story.t) :
  max_stories = None -> limit_reached max_stories n_all stories = false.
Proof. now intros ->. Qed.

Lemma threaded_iteration (st : page_state) :
  more_stories st = true -> threaded st -> threaded (iteration st).
Proof.
  intros Hmore (Hcalls & Htoken & Hwaits & Hprefix & Hfull).
  specialize (Hfull (or_introl Hmore)).
  unfold page_iteration.
  destruct (limit_reached max_stories n_all (query_stories st)) eqn:Hlimit.
  { unfold MoreNotions.threaded. cbn.
    split; [exact Hcalls |]. split; [exact Htoken |]. split; [exact Hwaits |].
    split; [exact Hprefix |]. intros _. exact Hfull. }
  set (n := length (calls st)) in *.
  assert (Hlen : length (calls st ++ [pagination_token st]) = S n)
    by (rewrite length_app; cbn; lia).
  assert (Hissued : calls st ++ [pagination_token st]
                    = map (token_for story_list) (seq 0 (S n))).
  { rewrite seq_snoc, map_app, <- Hcalls, Htoken. reflexivity. }
  destruct (story_list n) as [error_str | [pages token]] eqn:Hcall.
  - unfold MoreNotions.threaded. cbn [calls pagination_token waits query_stories
                          more_stories].
    rewrite Hlen. split; [exact Hissued |].
    split; [cbn [token_for]; now rewrite Hcall |].
    split; [unfold waits_for; rewrite seq_snoc, omap_app; cbn;
            rewrite Hcall; cbn; now rewrite Hwaits |].
    assert (Hsame : returned story_list (S n) = returned story_list n).
    { unfold returned. rewrite seq_snoc, flat_map_app. cbn.
      rewrite Hcall. now rewrite !app_nil_r. }
    rewrite Hsame. split; [exact Hprefix |]. intros _. exact Hfull.
  - assert (Hmore' : returned story_list (S n)
                     = returned story_list n ++ pages).
    { unfold returned. rewrite seq_snoc, flat_map_app. cbn.
      rewrite Hcall. now rewrite app_nil_r. }
    assert (Hw : waits st = waits_for story_list (S n)).
    { unfold waits_for. rewrite seq_snoc, omap_app. cbn.
      rewrite Hcall. cbn. now rewrite app_nil_r. }
    assert (Ht : token = token_for story_list (S n)).
    { cbn [token_for]. now rewrite Hcall. }
    destruct pages as [|story rest].
    + unfold MoreNotions.threaded. cbn [calls pagination_token waits query_stories
                            more_stories].
      rewrite Hlen, Hmore', app_nil_r.
      split; [exact Hissued |]. split; [exact Ht |]. split; [exact Hw |].
      split; [exact Hprefix |]. intros _. exact Hfull.
    + destruct (append_pages_spec (story :: rest) (query_stories st))
        as (Hp & Hf & Hnone & _).
      destruct (append_pages max_stories n_all collection_name collection_id
                  (story :: rest) (query_stories st)) as [stories hit].
      cbn [fst snd] in *.
      unfold MoreNotions.threaded. cbn [calls pagination_token waits query_stories
                            more_stories].
      rewrite Hlen, Hmore', map_app, <- Hfull.
      split; [exact Hissued |]. split; [exact Ht |]. split; [exact Hw |].
      split; [exact Hp |].
      intros [Hcont | Hcap].
      * apply Hf. now destruct hit.
      * apply Hf, Hnone, Hcap.
Qed.

Lemma threaded_loop (fuel : nat) (st : page_state) :
  threaded st -> threaded (loop fuel st).
Proof.
  revert st; induction fuel as [|fuel IH]; intros st Hst; [exact Hst |].
  cbn [paginate]. destruct (more_stories st) eqn:Hmore; [| exact Hst].
  now apply IH, threaded_iteration.
Qed.

Lemma iteration_calls (st : page_state) :
  (length (calls st) <= length (calls (iteration st))
   <= S (length (calls st)))%nat.
Proof.
  unfold page_iteration.
  destruct (limit_reached _ _ _); [cbn; lia |].
  destruct (story_list _) as [e | [[|story rest] token]];
    [| | destruct (append_pages _ _ _ _ _ _)];
    cbn; rewrite length_app; cbn; lia.
Qed.

Lemma loop_calls (fuel : nat) (st : page_state) :
  (length (calls (loop fuel st)) <= length (calls st) + fuel)%nat.
Proof.
  revert st; induction fuel as [|fuel IH]; intros st; [cbn; lia |].
  cbn [paginate]. destruct (more_stories st); [| lia].
  specialize (IH (iteration st)). pose proof (iteration_calls st). lia.
Qed.

(** X12: the loop threads the tokens: every call gets the token that
    came with the last answer (none on the first call), a call that
    raised is followed by the wait the retry policy prescribes and by a
    call with the same token, and the stories kept are, tagged with the
    collection and in order, those of the answers, all of them when no
    cap is set and the first of them otherwise. *)
Theorem pagination_threads_tokens (fuel : nat) :
  let st := loop fuel page_start in
  let n := length (calls st) in
  (n <= fuel)%nat
  /\ calls st = map (token_for story_list) (seq 0 n)
  /\ waits st = waits_for story_list n
  /\ query_stories st `prefix_of` map tag (returned story_list n)
  /\ (max_stories = None ->
      query_stories st = map tag (returned story_list n)).
Proof.
  cbn zeta. pose proof (loop_calls fuel page_start) as Hn.
  destruct (threaded_loop fuel page_start threaded_start)
    as (Hcalls & _ & Hwaits & Hprefix & Hfull).
  split; [exact Hn |]. split; [exact Hcalls |]. split; [exact Hwaits |].
  split; [exact Hprefix |]. intros Hcap. apply Hfull. now right.
Qed.

Lemma loop_stopped (fuel : nat) (st : page_state) :
  more_stories st = false -> loop fuel st = st.
Proof. intros Hstop. destruct fuel; [reflexivity |]. cbn. now rewrite Hstop. Qed.

Lemma iteration_cap (m : Z) (st : page_state) :
  max_stories = Some m -> m <> 0 ->
  Z.of_nat (n_all + length (query_stories st)) <= Z.max m (Z.of_nat n_all) ->
  Z.of_nat (n_all + length (query_stories (iteration st)))
  <= Z.max m (Z.of_nat n_all).
Proof.
  intros Hm Hm0 Hbound. unfold page_iteration.
  destruct (limit_reached max_stories n_all (query_stories st)) eqn:Hlimit;
    [exact Hbound |].
  destruct (story_list _) as [e | [[|story rest] token]];
    [exact Hbound | exact Hbound |].
  destruct (append_pages_spec (story :: rest) (query_stories st))
    as (_ & _ & _ & Hcap).
  destruct (append_pages _ _ _ _ _ _) as [stories hit]. cbn in *.
  specialize (Hcap m Hm Hm0).
  rewrite Hm in Hlimit. unfold limit_reached in Hlimit.
  apply andb_false_iff in Hlimit as [Hzero | Hle].
  - apply negb_false_iff, Z.eqb_eq in Hzero. contradiction.
  - apply Z.leb_gt in Hle. specialize (Hcap Hle). lia.
Qed.

Lemma loop_cap (m : Z) (fuel : nat) (st : page_state) :
  max_stories = Some m -> m <> 0 ->
  Z.of_nat (n_all + length (query_stories st)) <= Z.max m (Z.of_nat n_all) ->
  Z.of_nat (n_all + length (query_stories (loop fuel st)))
  <= Z.max m (Z.of_nat n_all).
Proof.
  intros Hm Hm0. revert st.
  induction fuel as [|fuel IH]; intros st Hst; [exact Hst |].
  cbn [paginate]. destruct (more_stories st); [| exact Hst].
  apply IH, (iteration_cap m); assumption.
Qed.

(** X13: a cap is never exceeded by the loop: with [max_stories] a
    non-zero integer, the stories gathered before the query and those the
    loop keeps for it are together at most [max_stories], whatever the
    service returns, unless the cap was already passed before the query,
    in which case the loop keeps nothing and makes no call. *)
Theorem pagination_respects_cap (m : Z) (fuel : nat) :
  max_stories = Some m -> m <> 0 ->
  let st := loop fuel page_start in
  (Z.of_nat n_all < m ->
   Z.of_nat (n_all + length (query_stories st)) <= m)
  /\ (m <= Z.of_nat n_all -> query_stories st = [] /\ calls st = []).
Proof.
  intros Hm Hm0. cbn zeta. split.
  - intros Hbelow.
    pose proof (loop_cap m fuel page_start Hm Hm0) as Hgen.
    cbn in Hgen. cbn. lia.
  - intros Hpassed. destruct fuel as [|fuel]; [split; reflexivity |].
    cbn [paginate]. change (more_stories page_start) with true. cbv iota.
    assert (Hlimit : limit_reached max_stories n_all
                       (query_stories page_start) = true).
    { rewrite Hm. unfold limit_reached. apply andb_true_iff. split.
      - now apply negb_true_iff, Z.eqb_neq.
      - apply Z.leb_le. cbn. lia. }
    unfold page_iteration. rewrite Hlimit.
    rewrite loop_stopped by reflexivity. split; reflexivity.
Qed.

(** X14: the loop never gives up on a service that keeps failing: as
    long as every call raises, every pass ends in a wait and another
    call, so that after any number of passes the loop is still running,
    has waited once per pass and has kept no story. *)
Theorem persistent_failure_never_gives_up (fuel : nat) :
  limit_reached max_stories n_all [] = false ->
  (forall n, exists error_str, story_list n = Raise error_str) ->
  let st := loop fuel page_start in
  more_stories st = true
  /\ length (calls st) = fuel
  /\ length (waits st) = fuel
  /\ query_stories st = [].
Proof.
  intros Hlimit Hdown. cbn zeta.
  assert (Hgen : forall fuel st,
             more_stories st = true -> query_stories st = [] ->
             let st' := loop fuel st in
             more_stories st' = true
             /\ length (calls st') = (length (calls st) + fuel)%nat
             /\ length (waits st') = (length (waits st) + fuel)%nat
             /\ query_stories st' = []).
  { clear fuel. induction fuel as [|fuel IH]; intros st Hmore Hnone.
    - cbn. rewrite !Nat.add_0_r. now repeat split.
    - cbn [paginate]. rewrite Hmore.
      assert (Hstep : more_stories (iteration st) = true
                      /\ query_stories (iteration st) = []
                      /\ length (calls (iteration st)) = S (length (calls st))
                      /\ length (waits (iteration st)) = S (length (waits st))).
      { unfold page_iteration. rewrite Hnone, Hlimit.
        destruct (Hdown (length (calls st))) as [e ->]. cbn.
        rewrite !length_app. cbn.
        split; [exact Hmore |]. split; [reflexivity |]. split; lia. }
      destruct Hstep as (Hmore1 & Hnone1 & Hcalls1 & Hwaits1).
      destruct (IH (iteration st) Hmore1 Hnone1) as (H1 & H2 & H3 & H4).
      cbn zeta. rewrite H2, H3, Hcalls1, Hwaits1.
      split; [exact H1 |]. split; [lia |]. split; [lia | exact H4]. }
  exact (Hgen fuel page_start eq_refl eq_refl).
Qed.

(** X15: the loop ends with the first answer that brings no story or
    no token: if the call number [k] is such an answer, then whatever
    happened before it (failures included) the loop has stopped after
    [k + 1] passes at the latest, having made at most [k + 1] calls. *)
Theorem pagination_ends_at_last_page (k fuel : nat) :
  last_page (story_list k) = true ->
  (k < fuel)%nat ->
  let st := loop fuel page_start in
  more_stories st = false /\ (length (calls st) <= S k)%nat.
Proof.
  intros Hlast Hfuel. cbn zeta.
  assert (Hgen : forall fuel st,
             (length (calls st) <= k)%nat ->
             (k < length (calls st) + fuel)%nat ->
             more_stories (loop fuel st) = false
             /\ (length (calls (loop fuel st)) <= S k)%nat).
  { clear fuel Hfuel. induction fuel as [|fuel IH]; intros st Hk Hfuel; [lia |].
    cbn [paginate]. destruct (more_stories st) eqn:Hmore; [| split; [exact Hmore | lia]].
    assert (Hstep : (more_stories (iteration st) = false
                     /\ (length (calls (iteration st)) <= S k)%nat)
                    \/ (length (calls (iteration st)) = S (length (calls st))
                        /\ (length (calls st) < k)%nat)).
    { unfold page_iteration.
      destruct (limit_reached _ _ _); [left; cbn; split; [reflexivity | lia] |].
      destruct (Nat.eq_dec (length (calls st)) k) as [Heq | Hne].
      - left. rewrite Heq. generalize Hlast.
        destruct (story_list k) as [e | [[|story rest] [token|]]];
          intros Hl; try discriminate Hl.
        + cbn. rewrite length_app. cbn. split; [reflexivity | lia].
        + cbn. rewrite length_app. cbn. split; [reflexivity | lia].
        + destruct (append_pages _ _ _ _ _ _) as [stories hit]. cbn.
          rewrite length_app. cbn. split; [now destruct hit | lia].
      - right. split; [| lia].
        destruct (story_list (length (calls st)))
          as [e | [[|story rest] token]];
          [| | destruct (append_pages _ _ _ _ _ _)];
          cbn; rewrite length_app; cbn; lia. }
    destruct Hstep as [[Hstop Hcalls] | [Hcalls Hlt]].
    - rewrite (loop_stopped _ _ Hstop). split; [exact Hstop | exact Hcalls].
    - apply IH; lia. }
  apply Hgen; cbn; lia.
Qed.

End Loop.

Lemma pagination_respects_cap_witness :
  let pages := [[Demo.story "https://x.com/1" None;
                 Demo.story "https://x.com/2" None;
                 Demo.story "https://x.com/3" None]] in
  Z.of_nat (length (query_stories
                      (paginate 5 (Some 2) 0 "news" (EInt 7) (listing pages)
                         page_start))) <= 2.
Proof.
  intros pages.
  destruct (pagination_respects_cap (Some 2) 0 "news" (EInt 7)
              (listing pages) 2 5 eq_refl) as [Hbelow _]; [lia |].
  specialize (Hbelow ltac:(lia)). lia.
Defined.

Lemma persistent_failure_never_gives_up_witness :
  more_stories (paginate 7 None 0 "news" (EInt 7)
                  (down "HTTPError 503") page_start) = true
  /\ length (waits (paginate 7 None 0 "news" (EInt 7)
                      (down "HTTPError 503") page_start)) = 7%nat.
Proof.
  destruct (persistent_failure_never_gives_up None 0 "news" (EInt 7)
              (down "HTTPError 503") 7 eq_refl) as (Hmore & _ & Hwaits & _).
  - intros n. exists "HTTPError 503". reflexivity.
  - exact (conj Hmore Hwaits).
Defined.

Lemma pagination_ends_at_last_page_witness :
  let pages := [[Demo.story "https://x.com/1" None];
                [Demo.story "https://x.com/2" None]] in
  more_stories (paginate 5 None 0 "news" (EInt 7) (listing pages) page_start)
  = false.
Proof.
  intros pages.
  destruct (pagination_ends_at_last_page None 0 "news" (EInt 7)
              (listing pages) 1 5 eq_refl) as [Hstop _]; [lia |].
  exact Hstop.
Defined.

End PaginationFacts.
(** ** Queries, the search cache and the discovery adapter *)

Module DiscoverFacts.
Import PyStr Notions MoreNotions Builder Discover.

Section Gather.
Variables (max_stories : option Z) (collection_name : string)
          (collection_id : extra_val)
          (story_list : string -> nat -> reply (list Story.t * option string)).

#[local] Abbreviation query fuel use_cache :=
  (gather_query fuel use_cache max_stories collection_name collection_id
     story_list).
#[local] Abbreviation queries_loop fuel use_cache :=
  (gather fuel use_cache max_stories collection_name collection_id story_list).

Lemma gather_cached (fuel : nat) (queries : list string) (g : gathered) :
  Forall (fun q => is_Some (cache g !! q)) queries ->
  queries_loop fuel true queries g
  = Some {| all_stories :=
              all_stories g
              ++ flat_map (fun q => default [] (cache g !! q)) queries;
            cache := cache g; api_calls := api_calls g;
            retry_waits := retry_waits g; polite_waits := polite_waits g |}.
Proof.
  revert g; induction queries as [|q queries IH]; intros g Hall.
  - cbn. rewrite app_nil_r. now destruct g.
  - inversion Hall as [|? ? [stories Hq] Hrest]; subst.
    cbn [gather]. unfold gather_query, get_search_results. rewrite Hq.
    rewrite IH by exact Hrest. cbn. rewrite Hq. cbn.
    now rewrite <- app_assoc.
Qed.

(** What one query does to the search cache. *)
Lemma gather_query_cache (fuel : nat) (use_cache : bool) (q : string)
    (g g' : gathered) :
  query fuel use_cache q g = Some g' ->
  (forall q' v, cache g !! q' = Some v -> cache g' !! q' = Some v)
  /\ (use_cache = false -> cache g' = cache g)
  /\ (forall q' v,
        cache g' !! q' = Some v ->
        cache g !! q' = Some v \/ (q' = q /\ v <> [])).
Proof.
  unfold gather_query, get_search_results.
  destruct use_cache.
  - destruct (cache g !! q) as [stories|] eqn:Hq.
    + intros [= <-]. cbn. split; [tauto |]. split; [discriminate | tauto].
    + destruct (more_stories _); [discriminate |].
      intros [= <-]. cbn.
      destruct (query_stories _) as [|s stories];
        [split; [tauto |]; split; [discriminate | tauto] |].
      unfold cache_search_results. split; [| split; [discriminate |]].
      * intros q' v Hq'. rewrite lookup_insert_ne; [exact Hq' |].
        intros <-. rewrite Hq in Hq'. discriminate.
      * intros q' v. destruct (decide (q = q')) as [<- | Hne].
        -- rewrite lookup_insert_eq. intros [= <-]. right. split; [reflexivity | discriminate].
        -- rewrite lookup_insert_ne by exact Hne. tauto.
  - destruct (more_stories _); [discriminate |].
    intros [= <-]. cbn.
    destruct (query_stories _); (split; [tauto |]; split; [reflexivity | tauto]).
Qed.

(** X16: the search cache is only ever added to: whatever the service
    does, an entry it held before the queries is the same after them,
    an entry it holds after them and not before belongs to one of the
    queries and is not empty, and with the cache switched off it is
    left as it was. *)
Theorem search_cache_never_overwritten (fuel : nat) (use_cache : bool)
    (queries : list string) (g g' : gathered) :
  queries_loop fuel use_cache queries g = Some g' ->
  (forall q v, cache g !! q = Some v -> cache g' !! q = Some v)
  /\ (use_cache = false -> cache g' = cache g)
  /\ (forall q v,
        cache g' !! q = Some v ->
        cache g !! q = Some v \/ (q ∈ queries /\ v <> [])).
Proof.
  revert g; induction queries as [|q queries IH]; intros g.
  - intros [= <-]. split; [tauto |]. split; [reflexivity | tauto].
  - cbn [gather].
    destruct (query fuel use_cache q g) as [g1|] eqn:Hq; [| discriminate].
    intros Hrest.
    destruct (gather_query_cache _ _ _ _ _ Hq) as (Hkeep1 & Hoff1 & Hnew1).
    destruct (IH g1 Hrest) as (Hkeep2 & Hoff2 & Hnew2).
    split; [| split].
    + intros q' v Hq'. apply Hkeep2, Hkeep1, Hq'.
    + intros Hoff. now rewrite (Hoff2 Hoff), (Hoff1 Hoff).
    + intros q' v Hq'. destruct (Hnew2 q' v Hq') as [Hold | [Hin Hne]].
      * destruct (Hnew1 q' v Hold) as [Holder | [-> Hne]].
        -- now left.
        -- right. split; [now left | exact Hne].
      * right. split; [now right | exact Hne].
Qed.

(** X17: without the cache, a cap holds across the queries: with
    [max_stories] a positive integer and the cache switched off, the
    stories gathered never exceed [max_stories], however many queries
    there are and whatever the service returns. *)
Theorem cap_holds_across_queries (m : Z) (fuel : nat)
    (queries : list string) (g g' : gathered) :
  max_stories = Some m -> 0 < m ->
  Z.of_nat (length (all_stories g)) <= m ->
  queries_loop fuel false queries g = Some g' ->
  Z.of_nat (length (all_stories g')) <= m.
Proof.
  intros Hm Hpos. revert g; induction queries as [|q queries IH]; intros g Hg.
  - now intros [= <-].
  - cbn [gather]. unfold gather_query at 1. cbn iota.
    pose proof (PaginationFacts.loop_cap max_stories (length (all_stories g))
                  collection_name collection_id (story_list q) m fuel
                  page_start Hm ltac:(lia)) as Hcap.
    destruct (more_stories _); [discriminate |].
    apply IH. cbn [all_stories]. rewrite length_app.
    cbn in Hcap. lia.
Qed.

End Gather.

Section Adapter.
Context `{Collaborators}.
Variables (self_collection_id : option extra_val)
          (self_collection_name : option string)
          (py_str : extra_val -> string)
          (story_list : string -> nat -> reply (list Story.t * option string)).

#[local] Abbreviation discover :=
  (Discover.discover self_collection_id self_collection_name py_str story_list).

(** X18: queries the search cache holds are answered from it: when every
    query of the run is cached and the cache is in use, [discover]
    returns what the cached stories give, whatever the service would do
    and even where [max_stories] is of no use as a cap; it makes no call,
    waits for nothing and leaves the cache as it was. *)
Theorem cached_queries_bypass_service (fuel : nat) (params : BuilderParams.t)
    (cache : gmap string (list Story.t)) (collection_id : extra_val) :
  let extra := BuilderParams.extra params in
  or_val (extra !! "test_urls") None = None ->
  or_val self_collection_id (extra !! "collection_id") = Some collection_id ->
  truthy collection_id = true ->
  flag extra "force_refresh_cache" false = false ->
  Forall (fun q => is_Some (cache !! q)) (_prepare_queries params) ->
  let stories :=
    flat_map (fun q => default [] (cache !! q)) (_prepare_queries params) in
  discover fuel params cache
  = Some (discover_items stories,
          {| all_stories := stories; Discover.cache := cache; api_calls := [];
             retry_waits := []; polite_waits := 0 |}).
Proof.
  intros extra Htest Hid Htruthy Hrefresh Hcached stories.
  unfold Discover.discover. fold extra. rewrite Htest, Hid, Htruthy, Hrefresh.
  cbn [negb].
  assert (Hall : forallb (fun q => true && bool_decide (is_Some (cache !! q)))
                   (_prepare_queries params) = true).
  { apply forallb_forall. intros q Hq. cbn.
    apply bool_decide_eq_true. rewrite List.Forall_forall in Hcached.
    now apply Hcached. }
  rewrite Hall.
  destruct (max_stories_of extra) as [max_stories|];
    rewrite gather_cached by exact Hcached; reflexivity.
Qed.

(** X19: literal test urls replace the service altogether: with a
    non-empty list [test_urls], [discover] yields one item per url in
    the order given, with that url as its url and canonical url, the
    run's [date_from] as its date and titles numbered from 1, without a
    collection id, without a call and without touching the cache. *)
Theorem test_urls_replace_the_service (fuel : nat) (params : BuilderParams.t)
    (cache : gmap string (list Story.t)) (urls : list string) :
  BuilderParams.extra params !! "test_urls" = Some (EList urls) ->
  urls <> [] ->
  exists items,
    discover fuel params cache = Some (Return items, gathered_start cache)
    /\ map DiscoveryItem.url items = urls
    /\ map DiscoveryItem.canonical_url items = urls
    /\ (forall i item,
          items !! i = Some item ->
          DiscoveryItem.title item = Some ("Test Article " +:+ pretty (S i))
          /\ DiscoveryItem.published_at item
             = Some (BuilderParams.date_from params)
          /\ DiscoveryItem.extra item !! "source" = Some (EStr "test")).
Proof.
  intros Htest Hne. exists (imap (test_item params) urls).
  unfold Discover.discover. rewrite Htest.
  destruct urls as [|u urls]; [contradiction |]. cbn [or_val truthy test_urls_of].
  split; [reflexivity |].
  assert (Hmap : forall (f : DiscoveryItem.t -> string),
             (forall i url, f (test_item params i url) = url) ->
             forall (l : list string) (k : nat),
               map f (imap (fun i => test_item params (k + i)) l) = l).
  { intros f Hf l. induction l as [|x l IH]; intros k; [reflexivity |].
    cbn. rewrite Hf. f_equal.
    rewrite <- (IH (S k)) at 2. f_equal. apply imap_ext.
    intros i y _. cbn. f_equal. lia. }
  split; [exact (Hmap DiscoveryItem.url (fun _ _ => eq_refl) (u :: urls) 0%nat) |].
  split; [exact (Hmap DiscoveryItem.canonical_url (fun _ _ => eq_refl)
                   (u :: urls) 0%nat) |].
  intros i item Hitem. rewrite list_lookup_imap in Hitem.
  destruct ((u :: urls) !! i) as [url|]; [| discriminate].
  cbn in Hitem. injection Hitem as <-. cbn.
  split; [reflexivity |]. split; reflexivity.
Qed.

End Adapter.

Lemma search_cache_never_overwritten_witness :
  exists g',
    gather 5 true None "news" (EInt 7) Samples.one_page ["fresh"]
      (gathered_start {[ "old" := [Samples.cached_story] ]}) = Some g'
    /\ cache g' !! "old" = Some [Samples.cached_story].
Proof.
  edestruct (search_cache_never_overwritten None "news" (EInt 7)
               Samples.one_page 5 true ["fresh"]
               (gathered_start {[ "old" := [Samples.cached_story] ]}))
    as (Hkeep & _ & _); [vm_compute; reflexivity |].
  eexists. split; [reflexivity |].
  apply Hkeep. reflexivity.
Defined.

Lemma cap_holds_across_queries_witness :
  exists g',
    gather 5 false (Some 1) "news" (EInt 7) Samples.one_page ["a"; "b"]
      (gathered_start ∅) = Some g'
    /\ Z.of_nat (length (all_stories g')) <= 1.
Proof.
  eexists. split; [vm_compute; reflexivity |].
  eapply (cap_holds_across_queries (Some 1) "news" (EInt 7) Samples.one_page
            1 5 ["a"; "b"] (gathered_start ∅));
    [reflexivity | lia | cbn; lia | vm_compute; reflexivity].
Defined.

Lemma cached_queries_bypass_service_witness :
  exists items g,
    Discover.discover (H := Demo.collaborators) None None (fun _ => "7")
      (fun _ => down "HTTPError 503") 0
      (Demo.params Samples.in_collection) Samples.warm_cache
    = Some (Return items, g)
    /\ api_calls g = [] /\ map DiscoveryItem.url items = ["https://x.com/0"].
Proof.
  eexists _, _. split; [| split].
  - rewrite (cached_queries_bypass_service (H := Demo.collaborators) None None
               (fun _ => "7") (fun _ => down "HTTPError 503") 0
               (Demo.params Samples.in_collection) Samples.warm_cache (EInt 7));
      [vm_compute; reflexivity | reflexivity | reflexivity | reflexivity
      | reflexivity |].
    apply (bool_decide_unpack _). vm_compute. exact I.
  - reflexivity.
  - reflexivity.
Defined.

Lemma test_urls_replace_the_service_witness :
  exists items,
    Discover.discover (H := Demo.collaborators) None None (fun _ => "7")
      (fun _ => down "HTTPError 503") 0
      (Demo.params Samples.literal_urls) ∅
    = Some (Return items, gathered_start ∅)
    /\ map DiscoveryItem.url items
       = ["https://x.com/long"; "https://x.com/short"].
Proof.
  destruct (test_urls_replace_the_service (H := Demo.collaborators) None None
              (fun _ => "7") (fun _ => down "HTTPError 503") 0
              (Demo.params Samples.literal_urls) ∅
              ["https://x.com/long"; "https://x.com/short"] eq_refl)
    as (items & Hrun & Hurls & _); [discriminate |].
  exists items. exact (conj Hrun Hurls).
Defined.

End DiscoverFacts.
(** ** The run as a whole *)

Module RunFacts.
Import PyStr Notions MoreNotions Builder Entry.

Section Run.
Context `{Collaborators}.

Lemma run_saved_params (found : list DiscoveryItem.t)
    (params : BuilderParams.t) (manifest : Manifest.t) (w w' : World.t)
    (ret : run_return) :
  run found params manifest w = (Return ret, w') ->
  exists r m,
    ret = SequentialReturn r
    /\ World.saved w' = Some m /\ Manifest.params m = Some params
    /\ Manifest.doc_count m = Manifest.doc_count manifest + RunResult.added r
    /\ length (Manifest.history m) = S (length (Manifest.history manifest))
    /\ RunResult.total_docs r = World.get_document_count w'.
Proof.
  intros Hrun.
  destruct (SequentialFacts.run_returned _ _ _ _ _ _ Hrun)
    as (pairs & w1 & _ & _ & Heq).
  revert Heq. unfold _process_sequential.
  destruct (foldl _ _ _) as [c w2]. cbv beta iota zeta. cbn [fst snd].
  intros [= -> ->].
  eexists _, _. split; [reflexivity |]. split; [reflexivity |].
  split; [reflexivity |]. split; [reflexivity |].
  split; [| reflexivity]. cbn [Manifest.history]. apply last_length.
Qed.

Lemma run_raised (found : list DiscoveryItem.t) (params : BuilderParams.t)
    (manifest : Manifest.t) (w w' : World.t) (e : string) :
  run found params manifest w = (Raise e, w') ->
  w' = w
  /\ (pairs_of (_apply_filters found params) = None
      \/ (flag (BuilderParams.extra params) "use_concurrent_processing" true
          = true
          /\ concurrent_settings (BuilderParams.extra params) = None)).
Proof.
  unfold run.
  destruct (pairs_of _) as [pairs|]; [| intros [= _ <-]; split; [reflexivity | now left]].
  destruct (flag _ "use_concurrent_processing" true).
  - unfold _process_concurrent.
    destruct (concurrent_settings _) as [[cr dd]|];
      [| intros [= _ <-]; split; [reflexivity | now right]].
    match goal with
    | |- context [concurrent_attempt ?f ?d ?p ?m ?fr cr dd w] =>
        destruct (OrchestratorFacts.concurrent_attempt_raises d p m fr f cr dd w)
          as (e' & w1 & ->)
    end.
    destruct (_process_sequential _ _ _ _ _ w1). discriminate.
  - destruct (_process_sequential _ _ _ _ _ w). discriminate.
Qed.

(** X20: a run that raises leaves the store as it found it: whether the
    parameters cannot be resolved, the discovery raises, a url cannot be
    canonicalized or the concurrent settings are ill-typed, the exception
    comes before anything is fetched, written or saved; past that point
    every failure is caught and counted. *)
Theorem run_raises_before_any_effect
    (discovered : BuilderParams.t -> reply (list DiscoveryItem.t))
    (params : option BuilderParams.t) (o : option override)
    (w w' : World.t) (e : string) :
  run_entry discovered params o w = (Raise e, w') -> w' = w.
Proof.
  unfold run_entry.
  destruct (resolve_params params (World.saved w) o) as [e1 | p];
    [now intros [= _ <-] |].
  destruct (discovered p) as [e2 | found]; [now intros [= _ <-] |].
  intros Hrun. now apply run_raised in Hrun.
Qed.

(** X21: the parameters of a run are remembered: after a run that
    returned, the saved manifest yields the parameters that run used (the
    given ones, or the manifest's with the override on top), so that a
    later run given none behaves as if it were given those.  A run given
    both parameters and a non-empty override is not among them: it raises
    where the override is applied. *)
Theorem parameters_are_remembered
    (discovered : BuilderParams.t -> reply (list DiscoveryItem.t))
    (params : option BuilderParams.t) (o : option override)
    (w w' : World.t) (ret : run_return) :
  run_entry discovered params o w = (Return ret, w') ->
  exists effective,
    resolve_params params (World.saved w) o = Return effective
    /\ resolve_params None (World.saved w') None = Return effective
    /\ run_entry discovered None None w'
       = run_entry discovered (Some effective) None w'
    /\ (forall p, params = Some p ->
          effective = p /\ forall o', o = Some o' -> given o' = false)
    /\ (forall m p o',
          params = None -> World.saved w = Some m ->
          Manifest.params m = Some p -> o = Some o' ->
          effective = merge p o').
Proof.
  unfold run_entry.
  destruct (resolve_params params (World.saved w) o) as [e | effective]
    eqn:Hres; [discriminate |].
  destruct (discovered effective) as [e | found] eqn:Hfound; [discriminate |].
  intros Hrun.
  destruct (run_saved_params _ _ _ _ _ _ Hrun) as (r & m & _ & Hm & Hp & _).
  exists effective.
  assert (Hnext : resolve_params None (World.saved w') None = Return effective).
  { unfold resolve_params. now rewrite Hm, Hp. }
  split; [reflexivity |]. split; [exact Hnext |].
  split; [now rewrite Hnext |]. split.
  - intros p ->. unfold resolve_params in Hres.
    destruct o as [o'|]; [destruct (given o') eqn:Hgiven |];
      try discriminate; injection Hres as <-.
    + split; [reflexivity |]. now intros ? [= <-].
    + split; [reflexivity |]. discriminate.
  - intros m0 p o' -> Hm0 Hp0 ->. unfold resolve_params in Hres.
    rewrite Hm0, Hp0 in Hres. now injection Hres as <-.
Qed.

(** X22: without the spider module the concurrent path is the sequential
    one: when the import fails, a run in concurrent mode returns the
    sequential result and has fetched every url of the frontier exactly
    once, the store being untouched when the fallback starts. *)
Theorem missing_spider_falls_back_cleanly (found : list DiscoveryItem.t)
    (params : BuilderParams.t) (manifest : Manifest.t) (w : World.t)
    (pairs : list (string * string)) :
  spider_importable = false ->
  pairs_of (_apply_filters found params) = Some pairs ->
  is_Some (concurrent_settings (BuilderParams.extra params)) ->
  exists r w',
    run found params manifest w = (Return (SequentialReturn r), w')
    /\ World.fetches w' = World.fetches w ++ map fst (frontier_of pairs w)
    /\ RunResult.added r
       = Z.of_nat (length (filter
                             (fun entry =>
                                passes_gate
                                  (flag (BuilderParams.extra params)
                                     "force_refresh_cache" false) entry = true)
                             (frontier_of pairs w))).
Proof.
  intros Himport Hpairs [[cr dd] Hsettings].
  unfold run. rewrite Hpairs.
  match goal with
  | |- context [_process_sequential ?f ?d ?p ?m ?fr w] =>
      destruct (FrontierFacts.process_sequential_spec d p m fr f w)
        as (_ & _ & Hadded & Hfetches & _);
      assert (Hconc : _process_concurrent f d p m fr w
                      = let '(r, w') := _process_sequential f d p m fr w in
                        (Return (SequentialReturn r), w'))
        by (unfold _process_concurrent, concurrent_attempt;
            now rewrite Hsettings, Himport);
      rewrite Hconc; clear Hconc;
      destruct (_process_sequential f d p m fr w) as [r w']
  end.
  cbn [fst snd] in *. exists r, w'.
  split; [now destruct (flag _ "use_concurrent_processing" true) |].
  split; [exact Hfetches | exact Hadded].
Qed.

(** The stories the conversion keeps are those with a url or a guid and
    a title that is a string. *)
Lemma story_item_kept (story : Story.t) :
  is_Some (story_item story) <-> kept_story story = true.
Proof.
  unfold story_item, kept_story.
  match goal with
  | |- context [if nonempty ?u then _ else _] => set (url := u)
  end.
  assert (Hurl : nonempty url
                 = supplied (Story.url story) || supplied (Story.guid story)).
  { subst url. unfold supplied.
    destruct (Story.url story) as [u|]; [destruct (nonempty u) eqn:Hu |];
      destruct (Story.guid story) as [g|]; cbn; rewrite ?Hu; reflexivity. }
  rewrite <- Hurl.
  destruct (nonempty url); cbn;
    [| split; [intros [? [=]] | discriminate]].
  destruct (Story.title story) as [title|]; cbn.
  - split; [reflexivity | now eexists].
  - split; [intros [? [=]] | discriminate].
Qed.

(** X23: with publish dates of one type, or none at all, the
    conversion returns: the stories are taken most recent first, each
    story with a url or, failing that, a guid, and with a title that is
    a string, gives exactly one item, a story without them gives none,
    and every item has a non-empty url, which is also its canonical
    url. *)
Theorem discover_items_one_per_story (stories : list Story.t) :
  (forall x y, In x stories -> In y stories -> story_kind x = story_kind y) ->
  exists sorted items,
    discover_items stories = Return items
    /\ Permutation sorted stories
    /\ StronglySorted descending sorted
    /\ items = omap story_item sorted
    /\ Forall2 (fun story item => story_item story = Some item)
         (filter (fun story => kept_story story = true) sorted) items
    /\ length items
       = length (filter (fun story => kept_story story = true) stories)
    /\ Forall (fun item =>
                 nonempty (DiscoveryItem.url item) = true
                 /\ DiscoveryItem.canonical_url item = DiscoveryItem.url item)
         items.
Proof.
  intros Hkind.
  destruct (SortFacts.sort_stories_one_kind stories Hkind)
    as (sorted & Hsort & Hperm & Hsorted).
  exists sorted, (omap story_item sorted).
  unfold discover_items. rewrite Hsort.
  assert (Hkept : Forall2 (fun story item => story_item story = Some item)
                    (filter (fun story => kept_story story = true) sorted)
                    (omap story_item sorted)).
  { clear. induction sorted as [|story sorted IH]; [constructor |].
    rewrite filter_cons. cbn [omap list_omap].
    pose proof (story_item_kept story) as Hiff.
    destruct (story_item story) as [item|] eqn:Hitem.
    - rewrite decide_True by (apply Hiff; now eexists).
      now constructor.
    - rewrite decide_False; [exact IH |].
      intros Hyes. apply Hiff in Hyes as [? [=]]. }
  split; [reflexivity |]. split; [exact Hperm |]. split; [exact Hsorted |].
  split; [reflexivity |]. split; [exact Hkept |]. split.
  - rewrite <- (Forall2_length _ _ _ Hkept). now rewrite Hperm.
  - apply Forall_forall. intros item Hitem.
    apply list_elem_of_omap in Hitem as (story & _ & Hitem).
    unfold story_item in Hitem.
    match type of Hitem with
    | (if nonempty ?u then _ else _) = _ =>
        destruct (nonempty u) eqn:Hurl; [| discriminate]
    end.
    destruct (Story.title story); [| discriminate].
    injection Hitem as <-. cbn. split; [exact Hurl | reflexivity].
Qed.

(** X28: the collection a story was tagged with while it was gathered
    reaches the item built from it: whenever the conversion returns on
    tagged stories, every item carries the collection's name and id
    under [collection] and [collection_id] of its [extra], and the
    story's language under [source_language]. *)
Theorem collection_tag_reaches_items (collection_name : string)
    (collection_id : extra_val) (stories : list Story.t)
    (items : list DiscoveryItem.t) :
  discover_items (map (tag_story collection_name collection_id) stories)
  = Return items ->
  Forall (fun item =>
            DiscoveryItem.extra item !! "collection"
            = Some (EStr collection_name)
            /\ DiscoveryItem.extra item !! "collection_id"
               = Some collection_id
            /\ DiscoveryItem.extra item !! "source_language"
               = Some (from_option EStr ENone (DiscoveryItem.language item)))
    items.
Proof.
  unfold discover_items.
  destruct (sort_stories _) as [sorted|] eqn:Hsort; [| discriminate].
  intros [= <-]. apply Forall_forall. intros item Hitem.
  apply list_elem_of_omap in Hitem as (story & Hstory & Hitem).
  assert (Htagged : exists s, story = tag_story collection_name collection_id s).
  { unfold sort_stories in Hsort.
    destruct (sort_ascending _) as [asc|] eqn:Hasc; [| discriminate].
    injection Hsort as <-.
    apply list_elem_of_In, in_rev in Hstory.
    apply (Permutation_in _ (SortFacts.sort_ascending_perm _ _ Hasc)) in Hstory.
    apply in_rev, in_map_iff in Hstory as (s & Hs & _). now exists s. }
  destruct Htagged as [s ->]. unfold story_item in Hitem.
  match type of Hitem with
  | (if nonempty ?u then _ else _) = _ =>
      destruct (nonempty u); [| discriminate]
  end.
  cbn [tag_story Story.title] in Hitem.
  destruct (Story.title s); [| discriminate].
  injection Hitem as <-. cbn.
  split; [| split].
  - rewrite lookup_insert_ne by discriminate. apply lookup_insert_eq.
  - do 2 (rewrite lookup_insert_ne by discriminate). apply lookup_insert_eq.
  - do 3 (rewrite lookup_insert_ne by discriminate). apply lookup_insert_eq.
Qed.

(** X24: what the canonical form forgets: two urls that agree, after
    stripping, on the scheme and the host name up to case, on the path
    (an empty path counting as "/") and on the query parameters left
    once the trackers are removed, in any order, have the same canonical
    form and the same stable id; parameters of the path, fragment, user
    info and port play no part. *)
Theorem canonical_form_forgets (u1 u2 : string) (p1 p2 : Url.ParseResult) :
  Url.urlparse check_bracketed_host (strip u1) = Some p1 ->
  Url.urlparse check_bracketed_host (strip u2) = Some p2 ->
  lower (Url.scheme p1) = lower (Url.scheme p2) ->
  lower (default EmptyString (Url.hostname (Url.netloc p1)))
  = lower (default EmptyString (Url.hostname (Url.netloc p2))) ->
  (if nonempty (Url.path p1) then Url.path p1 else "/")
  = (if nonempty (Url.path p2) then Url.path p2 else "/") ->
  Permutation (filter kept_pair (Url.parse_qsl (Url.query p1)))
    (filter kept_pair (Url.parse_qsl (Url.query p2))) ->
  is_Some (canonicalize u1)
  /\ canonicalize u1 = canonicalize u2
  /\ sid u1 = sid u2.
Proof.
  intros Hp1 Hp2 Hscheme Hhost Hpath Hquery.
  assert (Hsame : canonicalize u1 = canonicalize u2).
  { pose proof (CanonFacts.sort_pairs_permutation _ _ Hquery) as Hsorted.
    unfold kept_pair in Hsorted.
    unfold canonicalize. rewrite Hp1, Hp2, Hscheme, Hhost, Hpath, Hsorted.
    reflexivity. }
  split; [unfold canonicalize; rewrite Hp1; now eexists |].
  split; [exact Hsame |]. unfold sid. now rewrite Hsame.
Qed.

Lemma known_pairs_count (pairs : list (string * string)) (w : World.t) :
  Z.of_nat (length pairs) - Z.of_nat (length (frontier_of pairs w))
  = Z.of_nat (length (filter (fun us => World.has_doc w (snd us) = true)
                        pairs)).
Proof.
  unfold frontier_of. induction pairs as [|[u s] pairs IH]; [reflexivity |].
  rewrite !filter_cons. cbn [snd].
  destruct (World.has_doc w s) eqn:Hs; cbn [negb];
    repeat case_decide; try done; cbn [length] in *; lia.
Qed.

(** X25: where no url is discovered twice, [skipped_duplicate] is, in
    either mode, the number of discovered items whose document the store
    already held when the run started, and [discovered] is the number of
    items left by the filters; neither is negative. *)
Theorem skipped_duplicate_counts_known_documents
    (found : list DiscoveryItem.t) (params : BuilderParams.t)
    (manifest : Manifest.t) (w w' : World.t) (r : RunResult.t) :
  NoDup (map DiscoveryItem.url (_apply_filters found params)) ->
  run found params manifest w = (Return (SequentialReturn r), w') ->
  exists pairs,
    pairs_of (_apply_filters found params) = Some pairs
    /\ RunResult.discovered r
       = Z.of_nat (length (_apply_filters found params))
    /\ RunResult.skipped_duplicate r
       = Z.of_nat (length (filter
                             (fun us => World.has_doc w (snd us) = true)
                             pairs))
    /\ 0 <= RunResult.skipped_duplicate r.
Proof.
  intros Hnd Hrun.
  destruct (SequentialFacts.run_returned _ _ _ _ _ _ Hrun)
    as (pairs & w1 & Hpairs & _ & Heq).
  exists pairs. split; [exact Hpairs |].
  match type of Heq with
  | _ = (_, snd (_process_sequential ?f ?d ?p ?m ?fr w1)) =>
      destruct (FrontierFacts.process_sequential_spec d p m fr f w1)
        as (Hdisc & Hdup & _)
  end.
  injection Heq as -> _. cbn zeta in Hdisc, Hdup.
  rewrite Hdisc, Hdup, (FrontierFacts.by_url_size _ Hnd).
  rewrite <- (FrontierFacts.pairs_of_length _ _ Hpairs), known_pairs_count.
  split; [reflexivity |]. split; [reflexivity | lia].
Qed.

End Run.

Section Rerun.
Context `{Collaborators}.

(** A later time changes neither the filters nor the stable ids. *)
Lemma later_filters
    (fetch : string -> string -> bool -> reply (string * gmap string string))
    (extract : string -> string -> string -> reply Parsed.t)
    (found : list DiscoveryItem.t) (params : BuilderParams.t) :
  _apply_filters (H := later H fetch extract) found params
  = _apply_filters found params.
Proof. reflexivity. Qed.

Lemma later_pairs
    (fetch : string -> string -> bool -> reply (string * gmap string string))
    (extract : string -> string -> string -> reply Parsed.t)
    (items : list DiscoveryItem.t) :
  pairs_of (H := later H fetch extract) items = pairs_of items.
Proof. reflexivity. Qed.

(** X26: running again only adds what is new.  After a sequential run
    that was given parameters and returned, a second run given none, over
    the same discoveries and with the fetcher and the extractor answering
    as they then do, resolves the same parameters, returns, and writes
    documents only under ids the store did not hold after the first run;
    and if every entry that failed or was skipped the first time fails
    or is skipped again, it adds nothing: [added] is zero, no document
    and no index record is written, the store's documents and the
    manifest's document count stay as they were, one more record being
    appended to the history. *)
Theorem rerun_adds_nothing
    (discovered : BuilderParams.t -> reply (list DiscoveryItem.t))
    (params : BuilderParams.t)
    (fetch : string -> string -> bool -> reply (string * gmap string string))
    (extract : string -> string -> string -> reply Parsed.t)
    (w w1 : World.t) (r1 : RunResult.t) :
  flag (BuilderParams.extra params) "use_concurrent_processing" true = false ->
  run_entry discovered (Some params) None w
  = (Return (SequentialReturn r1), w1) ->
  let force_refresh :=
    flag (BuilderParams.extra params) "force_refresh_cache" false in
  exists r2 w2 m1 m2 new,
    run_entry (H := later H fetch extract) discovered None None w1
    = (Return (SequentialReturn r2), w2)
    /\ World.saved w1 = Some m1 /\ World.saved w2 = Some m2
    /\ Manifest.doc_count m2 = Manifest.doc_count m1 + RunResult.added r2
    /\ length (Manifest.history m2) = S (length (Manifest.history m1))
    /\ World.writes w2 = World.writes w1 ++ new
    /\ (forall d, d ∈ new -> World.has_doc w1 (Document.stable_id d) = false)
    /\ ((forall entry,
            passes_gate force_refresh entry = false ->
            passes_gate (H := later H fetch extract) force_refresh entry
            = false) ->
        RunResult.added r2 = 0 /\ new = []
        /\ World.index w2 = World.index w1
        /\ World.docs w2 = World.docs w1
        /\ RunResult.total_docs r2 = RunResult.total_docs r1
        /\ Manifest.doc_count m2 = Manifest.doc_count m1).
Proof.
  intros Hmode Hrun force_refresh.
  assert (Hstart : exists found,
             discovered params = Return found
             /\ run found params (default fresh_manifest (World.saved w)) w
                = (Return (SequentialReturn r1), w1)).
  { revert Hrun. unfold run_entry, resolve_params.
    destruct (discovered params) as [e | found]; [discriminate |].
    intros Hrun. now exists found. }
  destruct Hstart as (found & Hfound & Hrun1).
  destruct (run_saved_params _ _ _ _ _ _ Hrun1)
    as (r1' & m1 & Hr1 & Hm1 & Hp1 & _ & _ & Htotal1).
  injection Hr1 as <-.
  destruct (SequentialFacts.run_returned _ _ _ _ _ _ Hrun1)
    as (pairs & w0 & Hpairs & Hw0 & Heq1).
  rewrite (Hw0 Hmode) in Heq1. clear Hw0 w0.
  match type of Heq1 with
  | _ = (_, snd (_process_sequential ?f ?d ?p ?m ?fr w)) =>
      destruct (FrontierFacts.process_sequential_spec d p m fr f w)
        as (_ & _ & _ & _ & _ & Hdocs1)
  end.
  injection Heq1 as _ Hw1. rewrite <- Hw1 in Hdocs1. clear Hw1.
  fold force_refresh in Hdocs1.
  set (C' := later H fetch extract).
  assert (Hentry : run_entry (H := C') discovered None None w1
                   = run (H := C') found params m1 w1).
  { unfold run_entry, resolve_params. rewrite Hm1, Hp1, Hfound.
    reflexivity. }
  destruct (run (H := C') found params m1 w1) as [[e | ret2] w2] eqn:Hrun2.
  { apply (run_raised (H := C')) in Hrun2 as (_ & [Hnone | [Hconc _]]).
    - unfold C' in Hnone. rewrite later_filters, later_pairs in Hnone.
      congruence.
    - congruence. }
  destruct (run_saved_params (H := C') _ _ _ _ _ _ Hrun2)
    as (r2 & m2 & -> & Hm2 & _ & Hcount & Hhistory & Htotal2).
  destruct (SequentialFacts.run_returned (H := C') _ _ _ _ _ _ Hrun2)
    as (pairs' & w0 & Hpairs' & Hw0 & Heq2).
  rewrite (Hw0 Hmode) in Heq2. clear Hw0 w0.
  unfold C' in Hpairs'. rewrite later_filters, later_pairs in Hpairs'.
  assert (pairs' = pairs) by congruence. subst pairs'. clear Hpairs'.
  match type of Heq2 with
  | _ = (_, snd (_process_sequential ?f ?d ?p ?m ?fr w1)) =>
      destruct (FrontierFacts.process_sequential_spec (H := C') d p m fr f w1)
        as (_ & _ & Hadded2 & _ & (new' & Hwrites' & Hids') & Hdocs2);
      destruct (SequentialFacts.process_sequential_store (H := C')
                  d p m fr f w1) as (new & Hwrites & Hindex & Hall)
  end.
  injection Heq2 as Hr2 Hw2.
  rewrite <- Hw2 in Hwrites', Hdocs2, Hwrites, Hindex.
  rewrite <- Hr2 in Hadded2. clear Hr2 Hw2.
  fold force_refresh in Hadded2, Hids', Hdocs2, Hall.
  exists r2, w2, m1, m2, new.
  split; [now rewrite Hentry |]. split; [exact Hm1 |]. split; [exact Hm2 |].
  split; [exact Hcount |]. split; [exact Hhistory |].
  split; [exact Hwrites |]. split.
  - intros d Hd. rewrite Forall_forall in Hall.
    destruct (Hall d Hd) as ([u s] & Hin & _ & -> & _).
    now apply FrontierFacts.frontier_of_spec in Hin.
  - intros Hsame.
    assert (Hnone :
      filter (fun e => passes_gate (H := C') force_refresh e = true)
        (frontier_of pairs w1) = []).
    { apply FrontierFacts.filter_none. intros [u s] Hin Hpass.
      apply FrontierFacts.frontier_of_spec in Hin as [Hin Hlacks].
      destruct (passes_gate (H := H) force_refresh (u, s)) eqn:Hfirst;
        [| rewrite (Hsame _ Hfirst) in Hpass; discriminate].
      unfold World.has_doc in Hlacks. apply bool_decide_eq_false in Hlacks.
      apply Hlacks. rewrite Hdocs1. apply elem_of_union_l.
      apply elem_of_list_to_set, list_elem_of_fmap. exists (u, s).
      split; [reflexivity |].
      apply list_elem_of_filter. split; [exact Hfirst |].
      apply FrontierFacts.frontier_of_spec. split; [exact Hin |].
      unfold World.has_doc. apply bool_decide_eq_false. intros Hold.
      apply Hlacks. rewrite Hdocs1. now apply elem_of_union_r. }
    rewrite Hnone in Hadded2, Hids', Hdocs2. cbn in Hadded2, Hids', Hdocs2.
    assert (Hnew' : new' = []) by (now destruct new').
    subst new'. rewrite app_nil_r in Hwrites'.
    assert (Hnew : new = []).
    { rewrite Hwrites' in Hwrites.
      rewrite <- (app_nil_r (World.writes w1)) in Hwrites at 1.
      now apply app_inv_head in Hwrites. }
    assert (Hsamedocs : World.docs w2 = World.docs w1).
    { rewrite Hdocs2. apply (left_id_L ∅ (∪)). }
    split; [exact Hadded2 |]. split; [exact Hnew |].
    split; [subst new; now rewrite app_nil_r in Hindex |].
    split; [exact Hsamedocs |].
    split; [rewrite Htotal2, Htotal1; unfold World.get_document_count;
            now rewrite Hsamedocs |].
    rewrite Hcount, Hadded2. lia.
Qed.

End Rerun.

#[local] Existing Instance Demo.collaborators.

Lemma run_raises_before_any_effect_witness :
  snd (run_entry (fun _ => Return Samples.finds) None None World.empty)
  = World.empty.
Proof.
  eapply (run_raises_before_any_effect (fun _ => Return Samples.finds) None
            None World.empty).
  vm_compute. reflexivity.
Defined.

Lemma parameters_are_remembered_witness :
  exists w',
    snd (run_entry (fun _ => Return Samples.finds)
           (Some (Demo.params Samples.choosy)) None World.empty) = w'
    /\ resolve_params None (World.saved w') None
       = Return (Demo.params Samples.choosy).
Proof.
  edestruct (parameters_are_remembered (fun _ => Return Samples.finds)
               (Some (Demo.params Samples.choosy)) None World.empty
               (snd (run_entry (fun _ => Return Samples.finds)
                       (Some (Demo.params Samples.choosy)) None World.empty)))
    as (effective & Hfirst & Hnext & _); [vm_compute; reflexivity |].
  injection Hfirst as <-.
  eexists. exact (conj eq_refl Hnext).
Defined.

Lemma discover_items_one_per_story_witness :
  exists items,
    discover_items [Demo.story "https://x.com/old" (Some (TsDate 738000));
                    Demo.story EmptyString (Some (TsDate 738500));
                    Demo.story "https://x.com/new" (Some (TsDate 739000))]
    = Return items
    /\ map DiscoveryItem.url items = ["https://x.com/new"; "https://x.com/old"].
Proof.
  edestruct (discover_items_one_per_story
               [Demo.story "https://x.com/old" (Some (TsDate 738000));
                Demo.story EmptyString (Some (TsDate 738500));
                Demo.story "https://x.com/new" (Some (TsDate 739000))])
    as (sorted & items & Hrun & _).
  - intros x y Hx Hy. cbn in Hx, Hy.
    destruct Hx as [<- | [<- | [<- | []]]], Hy as [<- | [<- | [<- | []]]];
      reflexivity.
  - exists items. split; [exact Hrun |].
    vm_compute in Hrun. injection Hrun as <-. reflexivity.
Defined.

Lemma collection_tag_reaches_items_witness :
  exists items,
    discover_items
      (map (tag_story "news" (EInt 7)) [Demo.story "https://x.com/1" None])
    = Return items
    /\ Forall (fun item =>
                 DiscoveryItem.extra item !! "collection_id" = Some (EInt 7))
         items.
Proof.
  eexists. split; [vm_compute; reflexivity |].
  eapply Forall_impl;
    [eapply (collection_tag_reaches_items "news" (EInt 7)
               [Demo.story "https://x.com/1" None]); vm_compute; reflexivity |].
  intros item (_ & Hid & _). exact Hid.
Defined.

Lemma canonical_form_forgets_witness :
  canonicalize Samples.shuffled_url = canonicalize "https://x.com/a?a=2&b=1"
  /\ sid Samples.shuffled_url = sid "https://x.com/a?a=2&b=1".
Proof.
  edestruct (canonical_form_forgets Samples.shuffled_url
               "https://x.com/a?a=2&b=1") as (_ & Hsame & Hsid);
    [vm_compute; reflexivity | vm_compute; reflexivity | reflexivity
    | reflexivity | reflexivity | vm_compute; apply perm_swap |].
  exact (conj Hsame Hsid).
Defined.

Lemma missing_spider_falls_back_cleanly_witness :
  exists r w',
    run (H := Samples.no_spider) Samples.finds (Demo.params ∅) Demo.manifest
      World.empty = (Return (SequentialReturn r), w')
    /\ World.fetches w'
       = ["https://x.com/long"; "https://y.org/Ads/1"; "https://y.org/long"].
Proof.
  edestruct (missing_spider_falls_back_cleanly (H := Samples.no_spider)
               Samples.finds (Demo.params ∅) Demo.manifest World.empty)
    as (r & w' & Hrun & Hfetches & _);
    [reflexivity | vm_compute; reflexivity | now eexists |].
  exists r, w'. exact (conj Hrun Hfetches).
Defined.

Lemma skipped_duplicate_counts_known_documents_witness :
  exists r w',
    run Samples.finds (Demo.params Demo.sequential) Demo.manifest World.empty
    = (Return (SequentialReturn r), w')
    /\ RunResult.discovered r = 3 /\ RunResult.skipped_duplicate r = 0.
Proof.
  eexists _, _. split; [vm_compute; reflexivity |].
  edestruct (skipped_duplicate_counts_known_documents Samples.finds
               (Demo.params Demo.sequential) Demo.manifest World.empty)
    as (pairs & Hpairs & Hdisc & Hdup & _);
    [| vm_compute; reflexivity |].
  - apply (bool_decide_unpack _). vm_compute. exact I.
  - vm_compute in Hpairs. injection Hpairs as <-.
    exact (conj Hdisc Hdup).
Defined.

Lemma rerun_adds_nothing_witness :
  exists w1 r2 w2,
    snd (run_entry (fun _ => Return Samples.finds)
           (Some (Demo.params Samples.choosy)) None World.empty) = w1
    /\ run_entry
         (H := later Demo.collaborators
                 (fetcher_get (Collaborators := Demo.collaborators))
                 (extract_text (Collaborators := Demo.collaborators)))
         (fun _ => Return Samples.finds) None None w1
       = (Return (SequentialReturn r2), w2)
    /\ RunResult.added r2 = 0 /\ World.writes w2 = World.writes w1.
Proof.
  edestruct (rerun_adds_nothing (fun _ => Return Samples.finds)
               (Demo.params Samples.choosy)
               (fetcher_get (Collaborators := Demo.collaborators))
               (extract_text (Collaborators := Demo.collaborators))
               World.empty
               (snd (run_entry (fun _ => Return Samples.finds)
                       (Some (Demo.params Samples.choosy)) None World.empty)))
    as (r2 & w2 & m1 & m2 & new & Hrun & _ & _ & _ & _ & Hwrites & _ & Hsame);
    [reflexivity | vm_compute; reflexivity |].
  destruct (Hsame (fun entry Hfirst => Hfirst)) as (Hadded & Hnew & _).
  eexists _, r2, w2. rewrite Hnew, app_nil_r in Hwrites.
  exact (conj eq_refl (conj Hrun (conj Hadded Hwrites))).
Defined.

End RunFacts.
